(** * Property ledger (src/js/app.js): hash-chained, signed blocks

    A shallow embedding of the in-browser ledger and proofs about block
    construction, chain validation and the JSON export/import boundary.

    Conventions of the model.
    - A JavaScript string is a [string]: the bytes of its UTF-8 encoding,
      where a surrogate without partner takes the three bytes ED, A0 to BF,
      80 to BF that the encoding scheme gives a code point of its size (a
      surrogate pair is the four bytes of its code point).
    - JavaScript values are trees ([value]); an object that sits at several
      places of the chain is tracked by the [State], a value within a block
      carries no identity. Numbers are the binary64 values a JSON text
      denotes.
    - The global [blockchain] and the parts of the page the program writes to
      are fields of an explicit [State]; every operation is a state
      transformer that also yields a completion (normal or thrown).
    - An async function runs to completion before the next operation starts
      (no interleaving of handlers).
    - [crypto.subtle.digest] is a parameter of the development; [SHA256.digest]
      is the FIPS 180-4 function it stands for, used for concrete runs.
    - The markup that the views write into the page is not kept; of
      [renderLedger] and [showTimeline] the model keeps whether they return
      or throw. *)

From Stdlib Require Import Strings.String Strings.Ascii Strings.Byte List NArith ZArith Arith Lia Bool.
From Stdlib Require Import Decimal DecimalString DecimalNat.
From stdpp Require Import base list.
Import ListNotations.

Local Open Scope list_scope.
Local Open Scope string_scope.

(** ** SHA-256 (FIPS 180-4), the primitive behind [crypto.subtle.digest] *)

Module SHA256.
Local Open Scope list_scope.
Local Open Scope N_scope.

Definition mask32 : N := 0xffffffff.
Definition add32 (x y : N) : N := N.land (x + y) mask32.
Definition rotr (n x : N) : N :=
  N.lor (N.shiftr x n) (N.land (N.shiftl x (32 - n)) mask32).
Definition shr (n x : N) : N := N.shiftr x n.
Definition not32 (x : N) : N := N.lxor x mask32.

Definition Ch (x y z : N) : N := N.lxor (N.land x y) (N.land (not32 x) z).
Definition Maj (x y z : N) : N :=
  N.lxor (N.lxor (N.land x y) (N.land x z)) (N.land y z).
Definition Sigma0 (x : N) : N := N.lxor (N.lxor (rotr 2 x) (rotr 13 x)) (rotr 22 x).
Definition Sigma1 (x : N) : N := N.lxor (N.lxor (rotr 6 x) (rotr 11 x)) (rotr 25 x).
Definition sigma0 (x : N) : N := N.lxor (N.lxor (rotr 7 x) (rotr 18 x)) (shr 3 x).
Definition sigma1 (x : N) : N := N.lxor (N.lxor (rotr 17 x) (rotr 19 x)) (shr 10 x).

(** The round constants: the first 32 bits of the fractional parts of the
    cube roots of the first 64 primes (see [K_derived]). *)
Definition K : list N :=
  [1116352408; 1899447441; 3049323471; 3921009573; 961987163; 1508970993;
   2453635748; 2870763221; 3624381080; 310598401; 607225278; 1426881987;
   1925078388; 2162078206; 2614888103; 3248222580; 3835390401; 4022224774;
   264347078; 604807628; 770255983; 1249150122; 1555081692; 1996064986;
   2554220882; 2821834349; 2952996808; 3210313671; 3336571891; 3584528711;
   113926993; 338241895; 666307205; 773529912; 1294757372; 1396182291;
   1695183700; 1986661051; 2177026350; 2456956037; 2730485921; 2820302411;
   3259730800; 3345764771; 3516065817; 3600352804; 4094571909; 275423344;
   430227734; 506948616; 659060556; 883997877; 958139571; 1322822218;
   1537002063; 1747873779; 1955562222; 2024104815; 2227730452; 2361852424;
   2428436474; 2756734187; 3204031479; 3329325298].

(** The initial hash value: the first 32 bits of the fractional parts of the
    square roots of the first 8 primes (see [H0_derived]). *)
Definition H0 : list N :=
  [1779033703; 3144134277; 1013904242; 2773480762;
   1359893119; 2600822924; 528734635; 1541459225].

(** Largest [r] below [2 ^ bits] with [r ^ e <= n], found bit by bit. *)
Fixpoint root_floor (e : N) (bits : nat) (n r : N) : N :=
  match bits with
  | O => r
  | S bits' =>
      let t := N.lor r (N.shiftl 1 (N.of_nat bits')) in
      root_floor e bits' n (if t ^ e <=? n then t else r)
  end.

(** The first 32 bits of the fractional part of the [e]-th root of [p]. *)
Definition root_fraction (e : N) (p : N) : N :=
  N.land (root_floor e 40 (N.shiftl p (32 * e)) 0) mask32.

Definition first_primes : list N :=
  [2; 3; 5; 7; 11; 13; 17; 19; 23; 29; 31; 37; 41; 43; 47; 53; 59; 61; 67; 71; 73; 79;
   83; 89; 97; 101; 103; 107; 109; 113; 127; 131; 137; 139; 149; 151; 157; 163; 167; 173;
   179; 181; 191; 193; 197; 199; 211; 223; 227; 229; 233; 239; 241; 251; 257; 263; 269;
   271; 277; 281; 283; 293; 307; 311].

(** Big-endian bytes of a [n]-byte quantity, most significant first. *)
Fixpoint be_bytes (n : nat) (x : N) : list N :=
  match n with
  | O => []
  | S n' => N.land (N.shiftr x (8 * N.of_nat n')) 0xff :: be_bytes n' x
  end.

(** Message padding: a 1 bit, zeros up to 56 mod 64, the bit length on 8 bytes. *)
Definition pad (msg : list N) : list N :=
  let len := List.length msg in
  let zeros := Nat.modulo (119 - Nat.modulo len 64) 64 in
  msg ++ 0x80 :: List.repeat 0 zeros ++ be_bytes 8 (8 * N.of_nat len).

Fixpoint words (n : nat) (bs : list N) : list N :=
  match n, bs with
  | S n', b0 :: b1 :: b2 :: b3 :: rest =>
      (N.shiftl b0 24 + N.shiftl b1 16 + N.shiftl b2 8 + b3) :: words n' rest
  | _, _ => []
  end.

Definition nthw (i : nat) (w : list N) : N := List.nth i w 0.

(** One round: [w] is the window W[t..t+15] of the message schedule. *)
Definition round (st : list N * list N) (k : N) : list N * list N :=
  let '(h, w) := st in
  match h with
  | [a; b; c; d; e; f; g; hh] =>
      let t1 := add32 (add32 (add32 (add32 hh (Sigma1 e)) (Ch e f g)) k) (nthw 0 w) in
      let t2 := add32 (Sigma0 a) (Maj a b c) in
      let wnext :=
        add32 (add32 (add32 (sigma1 (nthw 14 w)) (nthw 9 w)) (sigma0 (nthw 1 w))) (nthw 0 w) in
      ([add32 t1 t2; a; b; c; add32 d t1; e; f; g], List.tl w ++ [wnext])
  | _ => st
  end.

Definition compress (h : list N) (block : list N) : list N :=
  let '(h', _) := List.fold_left round K (h, words 16 block) in
  List.map (fun p => add32 (fst p) (snd p)) (List.combine h h').

Fixpoint blocks (n : nat) (h : list N) (bs : list N) : list N :=
  match n with
  | O => h
  | S n' =>
      match bs with
      | [] => h
      | _ => blocks n' (compress h (List.firstn 64 bs)) (List.skipn 64 bs)
      end
  end.

Definition digestN (msg : list N) : list N :=
  let p := pad msg in
  List.concat (List.map (be_bytes 4) (blocks (List.length p) H0 p)).

Definition digest (msg : list byte) : list byte :=
  List.map (fun n => match Byte.of_N n with Some b => b | None => x00 end)
           (digestN (List.map Byte.to_N msg)).
End SHA256.

(** ** [sha256]: encode, digest, format as lower-case hexadecimal *)

Definition hexDigit (n : N) : ascii :=
  match n with
  | 0 => "0" | 1 => "1" | 2 => "2" | 3 => "3" | 4 => "4" | 5 => "5" | 6 => "6" | 7 => "7"
  | 8 => "8" | 9 => "9" | 10 => "a" | 11 => "b" | 12 => "c" | 13 => "d" | 14 => "e"
  | _ => "f"
  end%N%char.

(** [b.toString(16)] for a byte [b]: one or two digits, no leading zero. *)
Definition toString16 (b : byte) : string :=
  let n := Byte.to_N b in
  if (n <? 16)%N then String (hexDigit n) EmptyString
  else String (hexDigit (n / 16)) (String (hexDigit (n mod 16)) EmptyString).

(** [s.slice(-2)]: the last two characters (the whole string if shorter). *)
Definition slice_last2 (s : string) : string :=
  substring (String.length s - 2) 2 s.

(** The three bytes of a surrogate, and its code unit. *)
Definition surrogate (c1 c2 c3 : ascii) : bool :=
  ((N_of_ascii c1 =? 237) && (160 <=? N_of_ascii c2) && (N_of_ascii c2 <=? 191)
   && (128 <=? N_of_ascii c3) && (N_of_ascii c3 <=? 191))%N.

Definition code_unit (c1 c2 c3 : ascii) : N :=
  ((N_of_ascii c1 - 224) * 4096 + (N_of_ascii c2 - 128) * 64 + (N_of_ascii c3 - 128))%N.

(** U+FFFD *)
Definition replacement : string := String "239" (String "191" (String "189" EmptyString)).

(** The text as a sequence of scalar values: what is left of a surrogate
    pair that lost its partner becomes U+FFFD. *)
Fixpoint toUSVString (s : string) : string :=
  match s with
  | EmptyString => EmptyString
  | String c1 tail =>
      match tail with
      | String c2 (String c3 rest) =>
          if surrogate c1 c2 c3 then replacement ++ toUSVString rest
          else String c1 (toUSVString tail)
      | _ => String c1 (toUSVString tail)
      end
  end.

Definition TextEncoder_encode (message : string) : list byte :=
  list_byte_of_string (toUSVString message).

Section Digest.
(** [crypto.subtle.digest('SHA-256', _)]. *)
Variable digest : list byte -> list byte.

Definition sha256 (message : string) : string :=
  let msgBuffer := TextEncoder_encode message in
  let hashBuffer := digest msgBuffer in
  let hashArray := hashBuffer in
  let hashHex :=
    String.concat EmptyString (List.map (fun b => slice_last2 ("00" ++ toString16 b)) hashArray) in
  hashHex.
End Digest.


(** ** Numbers *)

(** The values of type Number that a JSON text can denote: the finite
    binary64 values, as [mantissa * 2 ^ exponent] with an odd mantissa (zero
    has mantissa and exponent 0 and keeps its sign), and the two infinities
    that a literal beyond the range is rounded to. *)
Inductive number : Type :=
| Finite (negative : bool) (mantissa : N) (exponent : Z)
| Infinite (negative : bool).

Module Number.
Local Open Scope N_scope.

Definition pow2 (e : Z) : N := 2 ^ Z.to_N e.
Definition pow10 (e : Z) : N := 10 ^ Z.to_N e.

Fixpoint odd_part (p : positive) (e : Z) : positive * Z :=
  match p with
  | xO p' => odd_part p' (e + 1)%Z
  | _ => (p, e)
  end.

Definition normal (negative : bool) (m : N) (e : Z) : number :=
  match m with
  | N0 => Finite negative 0 0
  | Npos p => let '(p', e') := odd_part p e in Finite negative (Npos p') e'
  end.

(** The binary64 value nearest to [num / den], ties to the even mantissa:
    53 bits of precision, exponents of the last place from -1074 to 971. *)
Definition nearest (negative : bool) (num den : N) : number :=
  if num =? 0 then Finite negative 0 0
  else
    let e0 := (Z.of_N (N.log2 num) - Z.of_N (N.log2 den))%Z in
    let reaches :=
      if (0 <=? e0)%Z then den * pow2 e0 <=? num else den <=? num * pow2 (- e0) in
    let e := if reaches then e0 else (e0 - 1)%Z in
    let u := Z.max (e - 52) (-1074) in
    let n := if (0 <=? u)%Z then num else num * pow2 (- u) in
    let d := if (0 <=? u)%Z then den * pow2 u else den in
    let q := n / d in
    let r := n mod d in
    let m := if (d <? 2 * r) || ((2 * r =? d) && N.odd q) then q + 1 else q in
    if m =? 0 then Finite negative 0 0
    else if (1024 <=? Z.of_N (N.log2 m) + u)%Z then Infinite negative
    else normal negative m u.

Definition eqb (x y : number) : bool :=
  match x, y with
  | Finite s m e, Finite s' m' e' => Bool.eqb s s' && (m =? m') && (e =? e')%Z
  | Infinite s, Infinite s' => Bool.eqb s s'
  | _, _ => false
  end.

Definition isZero (x : number) : bool :=
  match x with
  | Finite _ N0 _ => true
  | _ => false
  end.

Definition isFinite (x : number) : bool :=
  match x with
  | Finite _ _ _ => true
  | Infinite _ => false
  end.

(** [x === y] on numbers: the two zeros are equal. *)
Definition equal (x y : number) : bool := (isZero x && isZero y) || eqb x y.

Definition digits (n : N) : string := NilEmpty.string_of_uint (N.to_uint n).

Fixpoint zeros (n : nat) : string :=
  match n with
  | O => EmptyString
  | S n' => String "0" (zeros n')
  end.

Fixpoint strip_zeros (s : list ascii) : list ascii :=
  match s with
  | c :: rest => if (c =? "0")%char then strip_zeros rest else s
  | [] => []
  end.

Definition strip_trailing_zeros (s : string) : string :=
  string_of_list_ascii (List.rev (strip_zeros (List.rev (list_ascii_of_string s)))).

(** [s * 10 ^ p] as a fraction. *)
Definition scaled (s : N) (p : Z) : N * N :=
  if (0 <=? p)%Z then (s * pow10 p, 1) else (s, pow10 (- p)).

(** Number::toString, step 5: the least number [k] of digits, from [k] on,
    for which an integer [s] of [k] digits has [s * 10 ^ (n - k)] rounded to
    [x]; of two such integers the one nearer to [x], the even one in a tie.
    [num / den] is the value of [x] and [n] its decimal exponent. *)
Fixpoint shortest (fuel : nat) (x : number) (num den : N) (n : Z) (k : Z) : N * Z :=
  let '(tn, td) :=
    if (0 <=? k - n)%Z then (num * pow10 (k - n), den) else (num, den * pow10 (n - k)) in
  let lo := tn / td in
  let r := tn mod td in
  let hi := lo + 1 in
  let fits s := let '(a, b) := scaled s (n - k) in eqb (nearest false a b) x in
  match fuel with
  | O => (lo, k)
  | S fuel' =>
      match fits lo, fits hi with
      | true, true =>
          if (2 * r <? td) || ((2 * r =? td) && N.even lo) then (lo, k) else (hi, k)
      | true, false => (lo, k)
      | false, true => (hi, k)
      | false, false => shortest fuel' x num den n (k + 1)
      end
  end.

(** Number::toString of the positive finite value [m * 2 ^ e]. The search
    for the digits ends at the latest with the digits of the exact decimal
    expansion. *)
Definition positive_toString (m : N) (e : Z) : string :=
  let num := if (0 <=? e)%Z then m * pow2 e else m in
  let den := if (0 <=? e)%Z then 1 else pow2 (- e) in
  let sc := if (0 <=? e)%Z then 0%Z else (- e)%Z in
  let n0 := (Z.of_nat (String.length (digits (num * pow10 sc / den))) - sc)%Z in
  let exact := if (0 <=? e)%Z then num else m * 5 ^ Z.to_N (- e) in
  let '(s, k) := shortest (String.length (digits exact)) (Finite false m e) num den n0 1 in
  let all := digits s in
  let n := (n0 - k + Z.of_nat (String.length all))%Z in
  let d := strip_trailing_zeros all in
  let k := Z.of_nat (String.length d) in
  if ((-5 <=? n) && (n <=? 21))%Z then
    if (k <=? n)%Z then d ++ zeros (Z.to_nat (n - k))
    else if (0 <? n)%Z then
      substring 0 (Z.to_nat n) d ++ "." ++ substring (Z.to_nat n) (Z.to_nat (k - n)) d
    else "0." ++ zeros (Z.to_nat (- n)) ++ d
  else
    let e10 := (n - 1)%Z in
    let sign := if (0 <=? e10)%Z then "+" else "-" in
    let tail := "e" ++ sign ++ digits (Z.to_N (Z.abs e10)) in
    if (k =? 1)%Z then d ++ tail
    else substring 0 1 d ++ "." ++ substring 1 (Z.to_nat (k - 1)) d ++ tail.

Definition toString (x : number) : string :=
  match x with
  | Finite _ N0 _ => "0"
  | Finite negative m e => (if negative then "-" else EmptyString) ++ positive_toString m e
  | Infinite negative => if negative then "-Infinity" else "Infinity"
  end.

(** The value of a decimal literal: its digits (integer and fraction part
    read as one integer) times a power of ten. *)
Definition ofDecimal (negative : bool) (mantissa : N) (exponent : Z) : number :=
  let '(a, b) := scaled mantissa exponent in nearest negative a b.

End Number.

(** ** JavaScript values *)

(** The values a block or an imported ledger can hold. Objects list their own
    properties in enumeration order; property names the program uses are
    never inherited from a prototype. *)
Unset Elimination Schemes.
Inductive value : Type :=
| Undefined
| Null
| Boolean (b : bool)
| Num (x : number)
| Str (s : string)
| Arr (elems : list value)
| Obj (props : list (string * value)).
Set Elimination Schemes.

Inductive error : Type := TypeError | SyntaxError.

Inductive completion (A : Type) : Type :=
| Normal (a : A)
| Throw (e : error).
Arguments Normal {A} a.
Arguments Throw {A} e.

Definition bind {A B : Type} (c : completion A) (k : A -> completion B) : completion B :=
  match c with
  | Normal a => k a
  | Throw e => Throw e
  end.

Declare Scope js_scope.
Delimit Scope js_scope with js.
Notation "'let*' x ':=' c 'in' k" := (bind c (fun x => k))
  (at level 10, x name, c at level 100, k at level 200) : js_scope.
Notation "'let*' ' p ':=' c 'in' k" := (bind c (fun p => k))
  (at level 10, p pattern, c at level 100, k at level 200) : js_scope.
Local Open Scope js_scope.

Definition dquote : ascii := "034"%char.
Definition backslash : ascii := "092"%char.
Definition LF : ascii := "010"%char.

Fixpoint lookup_prop (k : string) (props : list (string * value)) : value :=
  match props with
  | [] => Undefined
  | (k', v) :: rest => if String.eqb k' k then v else lookup_prop k rest
  end.

Fixpoint has_prop (k : string) (props : list (string * value)) : bool :=
  match props with
  | [] => false
  | (k', _) :: rest => String.eqb k' k || has_prop k rest
  end.

(** [v.k]: a property read. *)
Definition Get (v : value) (k : string) : completion value :=
  match v with
  | Undefined | Null => Throw TypeError
  | Obj props => Normal (lookup_prop k props)
  | Boolean _ | Num _ | Str _ | Arr _ => Normal Undefined
  end.

(** [o.k = v] on an object: the property keeps its place if [o] has it and
    is added last otherwise. *)
(** [o.k = v] for a name [k] that is not an array index, as are all names
    the program assigns: a new property comes last. *)
Fixpoint put (k : string) (v : value) (props : list (string * value)) : list (string * value) :=
  match props with
  | [] => [(k, v)]
  | (k', v') :: rest =>
      if String.eqb k' k then (k, v) :: rest else (k', v') :: put k v rest
  end.

(** Assignment to a property of a value held in the chain; only objects
    carry properties. *)
Definition setField (k : string) (v : value) (block : value) : value :=
  match block with
  | Obj props => Obj (put k v props)
  | other => other
  end.

Definition truthy (v : value) : bool :=
  match v with
  | Undefined | Null | Boolean false | Str EmptyString => false
  | Num x => negb (Number.isZero x)
  | _ => true
  end.

(** [a || b] *)
Definition or_else (a b : value) : value := if truthy a then a else b.

(** [a === b]. Two objects or arrays are equal only when they are the same
    object, and a value within a block carries no identity here, so the
    comparison of two objects answers false. The program compares with a
    string everywhere but in the link check and in the two sets of
    [updateStats]. The sets receive fields of blocks; these are distinct
    objects when they are objects, unless one object with such a field has
    been appended twice. The link check can meet one object twice, when
    [addBlock] copies an object found as [currentHash] of an uploaded block;
    [validateChain] has then already stopped at that block, whose recomputed
    digest is a string. *)
Definition strict_eq (a b : value) : bool :=
  match a, b with
  | Undefined, Undefined => true
  | Null, Null => true
  | Boolean x, Boolean y => Bool.eqb x y
  | Num x, Num y => Number.equal x y
  | Str s, Str t => String.eqb s t
  | _, _ => false
  end.

(** String conversion as done by a template literal. *)
Fixpoint ToString (v : value) : completion string :=
  match v with
  | Undefined => Normal "undefined"
  | Null => Normal "null"
  | Boolean true => Normal "true"
  | Boolean false => Normal "false"
  | Num x => Normal (Number.toString x)
  | Str s => Normal s
  | Arr elems =>
      (* Array.prototype.join: null and undefined elements print as nothing *)
      (fix join (xs : list value) : completion string :=
         match xs with
         | [] => Normal EmptyString
         | x :: rest =>
             let* s := match x with
                       | Undefined | Null => Normal EmptyString
                       | _ => ToString x
                       end in
             match rest with
             | [] => Normal s
             | _ => let* t := join rest in Normal (s ++ "," ++ t)
             end
         end) elems
  | Obj props =>
      (* an own [toString] read from JSON is not callable, and
         Object.prototype.valueOf returns the object itself *)
      if has_prop "toString" props then Throw TypeError else Normal "[object Object]"
  end.

(** ** JSON.stringify *)

Definition hex4 (n : N) : string :=
  String (hexDigit (n / 4096 mod 16)) (String (hexDigit (n / 256 mod 16))
    (String (hexDigit (n / 16 mod 16)) (String (hexDigit (n mod 16)) EmptyString))).

Definition quote_char (c : ascii) : string :=
  if (c =? "008")%char then String backslash "b"
  else if (c =? "009")%char then String backslash "t"
  else if (c =? "010")%char then String backslash "n"
  else if (c =? "012")%char then String backslash "f"
  else if (c =? "013")%char then String backslash "r"
  else if (c =? dquote)%char then String backslash (String dquote EmptyString)
  else if (c =? backslash)%char then String backslash (String backslash EmptyString)
  else if (N_of_ascii c <? 32)%N then String backslash (String "u" (hex4 (N_of_ascii c)))
  else String c EmptyString.

(** QuoteJSONString walks the code points: a surrogate without partner is
    written as an escape. *)
Fixpoint quote_chars (s : string) : string :=
  match s with
  | EmptyString => EmptyString
  | String c1 tail =>
      match tail with
      | String c2 (String c3 rest) =>
          if surrogate c1 c2 c3 then
            String backslash (String "u" (hex4 (code_unit c1 c2 c3))) ++ quote_chars rest
          else quote_char c1 ++ quote_chars tail
      | _ => quote_char c1 ++ quote_chars tail
      end
  end.

Definition QuoteJSONString (s : string) : string :=
  String dquote (quote_chars s ++ String dquote EmptyString).

(** The closing step of SerializeJSONObject and SerializeJSONArray. *)
Definition wrap (opening closing gap indent stepback : string) (partial : list string) : string :=
  match partial with
  | [] => opening ++ closing
  | _ =>
      if String.eqb gap EmptyString then
        opening ++ String.concat "," partial ++ closing
      else
        let separator := String "," (String LF indent) in
        opening ++ String LF indent ++ String.concat separator partial
                ++ String LF stepback ++ closing
  end.

(** SerializeJSONProperty: [None] is the result [undefined]. *)
Fixpoint SerializeJSONProperty (gap indent : string) (v : value) : option string :=
  match v with
  | Undefined => None
  | Null => Some "null"
  | Boolean true => Some "true"
  | Boolean false => Some "false"
  | Num x => Some (if Number.isFinite x then Number.toString x else "null")
  | Str s => Some (QuoteJSONString s)
  | Arr elems =>
      let stepback := indent in
      let indent := indent ++ gap in
      let partial :=
        List.map (fun x => match SerializeJSONProperty gap indent x with
                           | Some strP => strP
                           | None => "null"
                           end) elems in
      Some (wrap "[" "]" gap indent stepback partial)
  | Obj props =>
      let stepback := indent in
      let indent := indent ++ gap in
      let partial :=
        List.flat_map
          (fun p => match SerializeJSONProperty gap indent (snd p) with
                    | Some strP =>
                        [QuoteJSONString (fst p) ++ ":"
                           ++ (if String.eqb gap EmptyString then EmptyString else " ") ++ strP]
                    | None => []
                    end) props in
      Some (wrap "{" "}" gap indent stepback partial)
  end.

(** [JSON.stringify(v, null, space)] with [gap] the string of [space] blanks. *)
Definition JSON_stringify (v : value) (gap : string) : option string :=
  SerializeJSONProperty gap EmptyString v.

(** ** JSON.parse *)

(** Outcome of reading a JSON text: the value, or a SyntaxError. *)
Inductive parse_result (A : Type) : Type :=
| Parsed (a : A)
| Malformed.
Arguments Parsed {A} a.
Arguments Malformed {A}.

Definition pbind {A B : Type} (r : parse_result A) (k : A -> parse_result B) : parse_result B :=
  match r with
  | Parsed a => k a
  | Malformed => Malformed
  end.

Declare Scope parse_scope.
Delimit Scope parse_scope with parse.
Notation "'let*' x ':=' c 'in' k" := (pbind c (fun x => k))
  (at level 10, x name, c at level 100, k at level 200) : parse_scope.
Notation "'let*' ' p ':=' c 'in' k" := (pbind c (fun p => k))
  (at level 10, p pattern, c at level 100, k at level 200) : parse_scope.

Definition is_ws (c : ascii) : bool :=
  (c =? " ")%char || (c =? "009")%char || (c =? "010")%char || (c =? "013")%char.

Fixpoint skip_ws (s : string) : string :=
  match s with
  | EmptyString => EmptyString
  | String c rest => if is_ws c then skip_ws rest else s
  end.

Definition is_digit (c : ascii) : bool :=
  let n := N_of_ascii c in (48 <=? n)%N && (n <=? 57)%N.

Definition hex_value (c : ascii) : option N :=
  let n := N_of_ascii c in
  if (48 <=? n)%N && (n <=? 57)%N then Some (n - 48)%N
  else if (97 <=? n)%N && (n <=? 102)%N then Some (n - 87)%N
  else if (65 <=? n)%N && (n <=? 70)%N then Some (n - 55)%N
  else None.

Definition char_of (n : N) : ascii := ascii_of_N n.

(** UTF-8 bytes of a code point. *)
Definition utf8 (cp : N) : string :=
  (if cp <? 0x80 then String (char_of cp) EmptyString
   else if cp <? 0x800 then
     String (char_of (0xC0 + cp / 64)) (String (char_of (0x80 + cp mod 64)) EmptyString)
   else if cp <? 0x10000 then
     String (char_of (0xE0 + cp / 4096)) (String (char_of (0x80 + cp / 64 mod 64))
       (String (char_of (0x80 + cp mod 64)) EmptyString))
   else
     String (char_of (0xF0 + cp / 262144)) (String (char_of (0x80 + cp / 4096 mod 64))
       (String (char_of (0x80 + cp / 64 mod 64)) (String (char_of (0x80 + cp mod 64)) EmptyString))))%N.

Definition is_high_surrogate (cu : N) : bool := ((0xD800 <=? cu) && (cu <? 0xDC00))%N.
Definition is_low_surrogate (cu : N) : bool := ((0xDC00 <=? cu) && (cu <? 0xE000))%N.

(** The character a one-letter escape stands for. *)
Definition simple_escape (e : ascii) : option ascii :=
  if (e =? dquote)%char then Some dquote
  else if (e =? backslash)%char then Some backslash
  else if (e =? "/")%char then Some "/"%char
  else if (e =? "b")%char then Some "008"%char
  else if (e =? "f")%char then Some "012"%char
  else if (e =? "n")%char then Some "010"%char
  else if (e =? "r")%char then Some "013"%char
  else if (e =? "t")%char then Some "009"%char
  else None.

Inductive lex_state : Type :=
| Plain
| Escape (pending : option N)
| Hex (k : nat) (acc : N) (pending : option N)
| Pair (high : N).

Definition emit (out : string) (r : parse_result (string * string)) : parse_result (string * string) :=
  match r with
  | Parsed (str, rest) => Parsed (out ++ str, rest)
  | Malformed => Malformed
  end.

(** The bytes of a pending high surrogate that found no partner. *)
Definition unpaired (pending : option N) : string :=
  match pending with
  | Some high => utf8 high
  | None => EmptyString
  end.

(** The characters of a string literal after its opening quote, up to and
    including the closing quote. [pending] is a high surrogate read from a
    \u escape: with a low surrogate from the next escape it makes one code
    point, and it stays a surrogate of its own before anything else. The
    text comes from [readAsText], which decodes the file to well-formed
    text: a lone surrogate can only be written as an escape. *)
Fixpoint lex_string (st : lex_state) (s : string) {struct s} : parse_result (string * string) :=
  match s with
  | EmptyString => Malformed
  | String c rest =>
      match st with
      | Plain =>
          if (c =? dquote)%char then Parsed (EmptyString, rest)
          else if (c =? backslash)%char then lex_string (Escape None) rest
          else if (N_of_ascii c <? 32)%N then Malformed
          else emit (String c EmptyString) (lex_string Plain rest)
      | Escape pending =>
          if (c =? "u")%char then lex_string (Hex 4 0 pending) rest
          else
            match simple_escape c with
            | Some x => emit (unpaired pending ++ String x EmptyString) (lex_string Plain rest)
            | None => Malformed
            end
      | Hex k acc pending =>
          match hex_value c with
          | None => Malformed
          | Some d =>
              let cu := (acc * 16 + d)%N in
              match k with
              | S (S k') => lex_string (Hex (S k') cu pending) rest
              | _ =>
                  match pending with
                  | Some high =>
                      if is_low_surrogate cu then
                        emit (utf8 (0x10000 + (high - 0xD800) * 1024 + (cu - 0xDC00))%N)
                             (lex_string Plain rest)
                      else if is_high_surrogate cu then
                        emit (utf8 high) (lex_string (Pair cu) rest)
                      else emit (utf8 high ++ utf8 cu) (lex_string Plain rest)
                  | None =>
                      if is_high_surrogate cu then lex_string (Pair cu) rest
                      else emit (utf8 cu) (lex_string Plain rest)
                  end
              end
          end
      | Pair high =>
          if (c =? backslash)%char then lex_string (Escape (Some high)) rest
          else if (c =? dquote)%char then Parsed (utf8 high, rest)
          else if (N_of_ascii c <? 32)%N then Malformed
          else emit (utf8 high ++ String c EmptyString) (lex_string Plain rest)
      end
  end.

(** The last step of a \u escape, on the code unit it names. *)
Definition escaped (pending : option N) (cu : N) (t : string) : parse_result (string * string) :=
  match pending with
  | Some high =>
      if is_low_surrogate cu then
        emit (utf8 (0x10000 + (high - 0xD800) * 1024 + (cu - 0xDC00))%N) (lex_string Plain t)
      else if is_high_surrogate cu then emit (utf8 high) (lex_string (Pair cu) t)
      else emit (utf8 high ++ utf8 cu) (lex_string Plain t)
  | None =>
      if is_high_surrogate cu then lex_string (Pair cu) t
      else emit (utf8 cu) (lex_string Plain t)
  end.

(** *** Numbers *)

(** The longest prefix of characters that satisfy [p], and the rest. *)
Fixpoint span (p : ascii -> bool) (s : string) : string * string :=
  match s with
  | EmptyString => (EmptyString, EmptyString)
  | String c rest =>
      if p c then let '(a, b) := span p rest in (String c a, b) else (EmptyString, s)
  end.

(** The number that a row of decimal digits writes. *)
Definition decimal_value (ds : string) : N :=
  (fix go (acc : N) (s : string) : N :=
     match s with
     | EmptyString => acc
     | String c rest => go (acc * 10 + (N_of_ascii c - 48))%N rest
     end) 0%N ds.

(** [. digits], if a point is next. *)
Definition lex_fraction (s : string) : parse_result (string * string) :=
  match s with
  | String c r =>
      if (c =? ".")%char then
        match span is_digit r with
        | (EmptyString, _) => Malformed
        | (fraction, rest) => Parsed (fraction, rest)
        end
      else Parsed (EmptyString, s)
  | EmptyString => Parsed (EmptyString, s)
  end.

(** [e digits], [E digits], with or without a sign, if an [e] is next. *)
Definition lex_exponent (s : string) : parse_result (Z * string) :=
  match s with
  | String c r =>
      if (c =? "e")%char || (c =? "E")%char then
        let '(negative, r1) :=
          match r with
          | String d r' =>
              if (d =? "-")%char then (true, r')
              else if (d =? "+")%char then (false, r')
              else (false, r)
          | EmptyString => (false, r)
          end in
        match span is_digit r1 with
        | (EmptyString, _) => Malformed
        | (ds, rest) =>
            Parsed (if negative then (- Z.of_N (decimal_value ds))%Z
                    else Z.of_N (decimal_value ds), rest)
        end
      else Parsed (0%Z, s)
  | EmptyString => Parsed (0%Z, s)
  end.

(** The digits of a JSON number: [0] or digits that do not start with
    [0], an optional fraction, an optional exponent. The value is the
    double nearest to the decimal number written. *)
Definition lex_magnitude (negative : bool) (s : string) : parse_result (value * string) :=
  match s with
  | String c r =>
      if is_digit c then
        let '(int, r1) := if (c =? "0")%char then ("0", r) else span is_digit s in
        pbind (lex_fraction r1) (fun '(fraction, r2) =>
        pbind (lex_exponent r2) (fun '(e, r3) =>
          Parsed (Num (Number.ofDecimal negative (decimal_value (int ++ fraction))
                         (e - Z.of_nat (String.length fraction))), r3)))
      else Malformed
  | EmptyString => Malformed
  end.

(** A JSON number at the head of [s], with or without a minus. *)
Definition lex_number (s : string) : parse_result (value * string) :=
  match s with
  | String c r => if (c =? "-")%char then lex_magnitude true r else lex_magnitude false s
  | EmptyString => Malformed
  end.

(** *** Objects *)

Fixpoint all_digits (s : string) : bool :=
  match s with
  | EmptyString => true
  | String c rest => is_digit c && all_digits rest
  end.

(** Keys that are array indices, such as "0" or "42": the decimal text,
    without a leading zero, of an integer below 2^32 - 1. JavaScript keeps
    them apart from the other keys of an object and enumerates them first,
    in ascending order. *)
Definition is_integer_key (k : string) : bool :=
  match k with
  | EmptyString => false
  | String c rest =>
      is_digit c && all_digits rest
      && (negb (c =? "0")%char || String.eqb rest EmptyString)
      && (decimal_value k <? 4294967295)%N
  end.

(** A new array index [k] takes its place among the properties. *)
Fixpoint insert_index (k : string) (v : value) (o : list (string * value))
  : list (string * value) :=
  match o with
  | [] => [(k, v)]
  | (k', v') :: rest =>
      if is_integer_key k' && (decimal_value k' <? decimal_value k)%N
      then (k', v') :: insert_index k v rest
      else (k, v) :: o
  end.

(** CreateDataProperty during parsing: a repeated key overwrites and keeps
    its place. *)
Definition define (o : list (string * value)) (m : string * value) : list (string * value) :=
  if is_integer_key (fst m) && negb (has_prop (fst m) o)
  then insert_index (fst m) (snd m) o
  else put (fst m) (snd m) o.

Local Open Scope parse_scope.

(** [Some rest] when [s] is [p] followed by [rest]. *)
Fixpoint strip_prefix (p s : string) : option string :=
  match p with
  | EmptyString => Some s
  | String a p' =>
      match s with
      | String b s' => if (a =? b)%char then strip_prefix p' s' else None
      | EmptyString => None
      end
  end.

(** A value whose first character is at the head of [s]; [elements] and
    [members] read what follows an opening bracket or brace. *)
Definition dispatch
           (elements : string -> parse_result (list value * string))
           (members : string -> parse_result (list (string * value) * string))
           (s : string) : parse_result (value * string) :=
  match strip_prefix "true" s, strip_prefix "false" s, strip_prefix "null" s with
  | Some rest, _, _ => Parsed (Boolean true, rest)
  | None, Some rest, _ => Parsed (Boolean false, rest)
  | None, None, Some rest => Parsed (Null, rest)
  | None, None, None =>
      match s with
      | EmptyString => Malformed
      | String c rest =>
          if (c =? dquote)%char then
            let* '(str, rest') := lex_string Plain rest in
            Parsed (Str str, rest')
          else if (c =? "[")%char then
            match skip_ws rest with
            | String c' rest' =>
                if (c' =? "]")%char then Parsed (Arr [], rest')
                else
                  let* '(elems, rest') := elements rest in
                  Parsed (Arr elems, rest')
            | EmptyString => Malformed
            end
          else if (c =? "{")%char then
            match skip_ws rest with
            | String c' rest' =>
                if (c' =? "}")%char then Parsed (Obj [], rest')
                else
                  let* '(props, rest') := members rest in
                  Parsed (Obj (List.fold_left define props []), rest')
            | EmptyString => Malformed
            end
          else if (c =? "-")%char || is_digit c then lex_number s
          else Malformed
      end
  end.

(** The three readers take turns; [fuel] bounds their nesting, and twice
    the length of the text is enough of it (see [parse_value_fuel]). *)
Fixpoint parse_value (fuel : nat) (s : string) {struct fuel} : parse_result (value * string) :=
  match fuel with
  | O => Malformed
  | S fuel' => dispatch (parse_elements fuel') (parse_members fuel') (skip_ws s)
  end
with parse_elements (fuel : nat) (s : string) {struct fuel} : parse_result (list value * string) :=
  match fuel with
  | O => Malformed
  | S fuel' =>
      let* '(v, rest) := parse_value fuel' s in
      match skip_ws rest with
      | String c rest' =>
          if (c =? ",")%char then
            let* '(vs, rest'') := parse_elements fuel' rest' in
            Parsed (v :: vs, rest'')
          else if (c =? "]")%char then Parsed ([v], rest')
          else Malformed
      | EmptyString => Malformed
      end
  end
with parse_members (fuel : nat) (s : string) {struct fuel}
  : parse_result (list (string * value) * string) :=
  match fuel with
  | O => Malformed
  | S fuel' =>
      match skip_ws s with
      | String c rest =>
          if (c =? dquote)%char then
            let* '(k, rest1) := lex_string Plain rest in
            match skip_ws rest1 with
            | String c1 rest2 =>
                if (c1 =? ":")%char then
                  let* '(v, rest3) := parse_value fuel' rest2 in
                  match skip_ws rest3 with
                  | String c3 rest4 =>
                      if (c3 =? ",")%char then
                        let* '(ms, rest5) := parse_members fuel' rest4 in
                        Parsed ((k, v) :: ms, rest5)
                      else if (c3 =? "}")%char then Parsed ([(k, v)], rest4)
                      else Malformed
                  | EmptyString => Malformed
                  end
                else Malformed
            | EmptyString => Malformed
            end
          else Malformed
      | EmptyString => Malformed
      end
  end.

Definition JSON_parse (text : string) : parse_result value :=
  let* '(v, rest) := parse_value (2 * String.length text + 2) text in
  match skip_ws rest with
  | EmptyString => Parsed v
  | _ => Malformed
  end.

Local Close Scope parse_scope.

(** ** The page: the global chain and what the program shows *)

Inductive alert : Type :=
| Alert (text : string)
| AlertError (text : string) (err : error).   (* alert(text + err.message) *)

Record State : Type := mkState {
  blockchain : list value;
  shared : list (nat * nat);    (* (i, j): block i is the very object that block j is *)
  statTotalProperties : nat;
  statTotalTransfers : nat;
  statUniqueOwners : nat;
  validationResult : string;
  alerts : list alert;          (* oldest first *)
  downloads : list string       (* contents of the files handed to the browser *)
}.

(** [let blockchain = []] and an empty page. *)
Definition initial : State := mkState [] [] 0 0 0 EmptyString [] [].

(** [blockchain = chain], for an array of objects that are all distinct. *)
Definition set_blockchain (chain : list value) (st : State) : State :=
  mkState chain [] (statTotalProperties st) (statTotalTransfers st) (statUniqueOwners st)
          (validationResult st) (alerts st) (downloads st).

Definition set_stats (registered transfers owners : nat) (st : State) : State :=
  mkState (blockchain st) (shared st) registered transfers owners
          (validationResult st) (alerts st) (downloads st).

Definition set_validationResult (text : string) (st : State) : State :=
  mkState (blockchain st) (shared st)
          (statTotalProperties st) (statTotalTransfers st) (statUniqueOwners st)
          text (alerts st) (downloads st).

Definition add_alert (a : alert) (st : State) : State :=
  mkState (blockchain st) (shared st)
          (statTotalProperties st) (statTotalTransfers st) (statUniqueOwners st)
          (validationResult st) (alerts st ++ [a]) (downloads st).

Definition add_download (text : string) (st : State) : State :=
  mkState (blockchain st) (shared st)
          (statTotalProperties st) (statTotalTransfers st) (statUniqueOwners st)
          (validationResult st) (alerts st) (downloads st ++ [text]).

(** *** Objects held at several places

    A call [addBlock(record, userSecret)] writes into the object it is given
    and pushes that very object. A caller that hands in a block of the chain
    therefore changes the chain at every place where this object sits. *)

(** The place whose object block [p] is: [p] itself unless [shared] names
    an earlier one. *)
Definition objectOf (st : State) (p : nat) : nat :=
  match List.find (fun e => Nat.eqb (fst e) p) (shared st) with
  | Some e => snd e
  | None => p
  end.

(** What a caller hands to [addBlock]: a new object with the properties
    [props] (both forms pass an object literal), or the value that is block
    [i] of the chain. (An array would receive properties with a name, which
    [Arr] has no place for: the records here are objects and primitives.) *)
Inductive reference : Type :=
| Literal (props : list (string * value))
| Held (i : nat).

(** The value of the reference; [blockchain[i]] is [undefined] past the
    end. *)
Definition read (record : reference) (st : State) : value :=
  match record with
  | Literal props => Obj props
  | Held i => default Undefined (blockchain st !! i)
  end.

(** [record.k = v] for the object that is block [i]: the property shows at
    every place of the chain that holds this object. *)
Definition store (i : nat) (k : string) (v : value) (st : State) : State :=
  mkState (imap (fun p b => if Nat.eqb (objectOf st p) (objectOf st i)
                            then setField k v b else b) (blockchain st))
          (shared st)
          (statTotalProperties st) (statTotalTransfers st) (statUniqueOwners st)
          (validationResult st) (alerts st) (downloads st).

(** [record.k = v]. The write throws on [null] and [undefined]; on another
    primitive it is dropped (the script is not in strict mode). *)
Definition assign (record : reference) (k : string) (v : value) (st : State)
  : completion (reference * State) :=
  match record with
  | Literal props => Normal (Literal (put k v props), st)
  | Held i =>
      match read record st with
      | Undefined | Null => Throw TypeError
      | _ => Normal (record, store i k v st)
      end
  end.

(** [blockchain.push(record)] *)
Definition push (record : reference) (st : State) : State :=
  mkState (blockchain st ++ [read record st])
          (match record with
           | Literal _ => shared st
           | Held i => (List.length (blockchain st), objectOf st i) :: shared st
           end)
          (statTotalProperties st) (statTotalTransfers st) (statUniqueOwners st)
          (validationResult st) (alerts st) (downloads st).

(** Validation outcomes; block indices count from 0 as in the loop. *)
Inductive Result : Type :=
| Empty
| Valid
| HashMismatch (i : nat)
| BrokenLink (i : nat)
| SignatureInvalid (i : nat).

Definition decimal (n : nat) : string := NilEmpty.string_of_uint (Nat.to_uint n).

(** The string [validateChain] returns for each outcome. *)
Definition message (r : Result) : string :=
  match r with
  | Empty => "Chain is empty (nothing to validate)."
  | Valid => "Chain is valid. All hashes and signatures match."
  | HashMismatch i => "Invalid: hash mismatch at block " ++ decimal (i + 1) ++ "."
  | BrokenLink i =>
      "Invalid: broken link between block " ++ decimal i ++ " and " ++ decimal (i + 1) ++ "."
  | SignatureInvalid i =>
      "Warning: signature invalid at block " ++ decimal (i + 1) ++ " (wrong secret or tampering)."
  end.

(** A [Set] of values in insertion order. *)
Definition set_add (v : value) (s : list value) : list value :=
  if List.existsb (strict_eq v) s then s else (s ++ [v])%list.

Definition isArray (v : value) : bool :=
  match v with
  | Arr _ => true
  | _ => false
  end.

(** The fields that enter the digest of a block. *)
Definition hashedFields : list string :=
  ["propertyID"; "owner"; "description"; "remarks"; "action"; "timestamp"; "previousHash"].

(** The fields that enter the signature of a block. *)
Definition signedFields : list string := ["propertyID"; "owner"; "action"; "timestamp"].

(** What the browser provides: [crypto.subtle.digest('SHA-256', _)]. *)
Class Platform : Type := {
  digest : list byte -> list byte
}.

Section Program.
Context {platform : Platform}.

(** [JSON.stringify(dataForHash)] in [calculateHash]: the canonical
    encoding of the hashed fields. *)
Definition canonicalText (record : value) : completion string :=
  let* propertyID := Get record "propertyID" in
  let* owner := Get record "owner" in
  let* description := Get record "description" in
  let* remarks := Get record "remarks" in
  let* action := Get record "action" in
  let* timestamp := Get record "timestamp" in
  let* previousHash := Get record "previousHash" in
  let dataForHash :=
    Obj [("propertyID", propertyID);
         ("owner", owner);
         ("description", or_else description (Str EmptyString));
         ("remarks", or_else remarks (Str EmptyString));
         ("action", action);
         ("timestamp", timestamp);
         ("previousHash", previousHash)] in
  (* an object always serialises to a string *)
  Normal (default EmptyString (JSON_stringify dataForHash EmptyString)).

Definition calculateHash (record : value) : completion string :=
  let* text := canonicalText record in
  Normal (sha256 digest text).

(** The template literal [toSign] of [signRecord]. *)
Definition toSign (record : value) (userSecret : string) : completion string :=
  let* propertyID := Get record "propertyID" in
  let* propertyID := ToString propertyID in
  let* owner := Get record "owner" in
  let* owner := ToString owner in
  let* action := Get record "action" in
  let* action := ToString action in
  let* timestamp := Get record "timestamp" in
  let* timestamp := ToString timestamp in
  Normal (propertyID ++ "|" ++ owner ++ "|" ++ action ++ "|" ++ timestamp ++ "|" ++ userSecret).

Definition signRecord (record : value) (userSecret : string) : completion string :=
  let* toSign := toSign record userSecret in
  Normal (sha256 digest toSign).

(** One turn of the [forEach] in [updateStats]. *)
Definition countBlock (acc : list value * nat * list value) (block : value)
  : completion (list value * nat * list value) :=
  let '(registered, transfers, owners) := acc in
  let* owner := Get block "owner" in
  let owners := set_add owner owners in
  let* action := Get block "action" in
  if strict_eq action (Str "Register") then
    let* propertyID := Get block "propertyID" in
    Normal (set_add propertyID registered, transfers, owners)
  else if strict_eq action (Str "Transfer") then
    Normal (registered, transfers + 1, owners)
  else Normal (registered, transfers, owners).

Fixpoint forEach {A : Type} (f : A -> value -> completion A) (acc : A) (blocks : list value)
  : completion A :=
  match blocks with
  | [] => Normal acc
  | block :: rest => let* acc := f acc block in forEach f acc rest
  end.

(** *** The views

    A template literal converts each value it embeds to a string, which
    throws on an object that has a [toString] of its own (data read from
    JSON is never callable). [new Date(v)] in [formatTime] converts an
    object to a primitive first and throws in the same cases; the text
    [formatTime] returns depends on the time zone and is not kept. *)
Definition embed (v : value) : completion unit :=
  let* text := ToString v in Normal tt.

Definition formatTime (isoString : value) : completion unit := embed isoString.

(** The list item that [renderLedger] appends for a block. *)
Definition ledgerItem (block : value) : completion unit :=
  let* propertyID := Get block "propertyID" in
  let* shown := embed propertyID in
  let* owner := Get block "owner" in
  let* shown := embed owner in
  let* action := Get block "action" in
  let* shown := embed action in
  let* description := Get block "description" in
  let* shown := embed (or_else description (Str "N/A")) in
  let* remarks := Get block "remarks" in
  let* shown := embed (or_else remarks (Str "N/A")) in
  let* previousHash := Get block "previousHash" in
  let* shown := embed previousHash in
  let* currentHash := Get block "currentHash" in
  let* shown := embed currentHash in
  let* signature := Get block "signature" in
  let* shown := embed signature in
  let* timestamp := Get block "timestamp" in
  formatTime timestamp.

Definition renderLedger (chain : list value) : completion unit :=
  forEach (fun _ block => ledgerItem block) tt chain.

(** The list item that [showTimeline] appends for a block. *)
Definition timelineItem (block : value) : completion unit :=
  let* action := Get block "action" in
  let* shown := embed action in
  let* owner := Get block "owner" in
  let* shown := embed owner in
  let* description := Get block "description" in
  let* shown := embed (or_else description (Str "N/A")) in
  let* remarks := Get block "remarks" in
  let* shown := embed (or_else remarks (Str "N/A")) in
  let* currentHash := Get block "currentHash" in
  let* shown := embed currentHash in
  let* timestamp := Get block "timestamp" in
  formatTime timestamp.

(** The second half of [showTimeline]: a note when no block was selected,
    and otherwise an item for each selected block. *)
Definition renderTimeline (timelineBlocks : list value) : completion unit :=
  forEach (fun _ block => timelineItem block) tt timelineBlocks.

Definition updateStats (st : State) : completion unit * State :=
  match forEach countBlock ([], 0, []) (blockchain st) with
  | Normal (registered, transfers, owners) =>
      (Normal tt, set_stats (List.length registered) transfers (List.length owners) st)
  | Throw e => (Throw e, st)
  end.

(** [addBlock(record, userSecret)]; [now] is [new Date().toISOString()].
    The four assignments write into the caller's object, and the object
    itself is pushed: what a call has written stays written when a later
    step of it throws. *)
Definition addBlock (record : reference) (userSecret now : string) (st : State)
  : completion unit * State :=
  let lastBlock := List.last (blockchain st) Undefined in
  match (if truthy lastBlock then Get lastBlock "currentHash" else Normal (Str "0")) with
  | Throw e => (Throw e, st)
  | Normal previousHash =>
      match assign record "previousHash" previousHash st with
      | Throw e => (Throw e, st)
      | Normal (record, st) =>
          match assign record "timestamp" (Str now) st with
          | Throw e => (Throw e, st)
          | Normal (record, st) =>
              match signRecord (read record st) userSecret with
              | Throw e => (Throw e, st)
              | Normal signature =>
                  match assign record "signature" (Str signature) st with
                  | Throw e => (Throw e, st)
                  | Normal (record, st) =>
                      match calculateHash (read record st) with
                      | Throw e => (Throw e, st)
                      | Normal currentHash =>
                          match assign record "currentHash" (Str currentHash) st with
                          | Throw e => (Throw e, st)
                          | Normal (record, st) =>
                              let st := push record st in
                              match renderLedger (blockchain st) with
                              | Throw e => (Throw e, st)
                              | Normal _ => updateStats st
                              end
                          end
                      end
                  end
              end
          end
      end
  end.

(** [blockchain.filter(block => block.propertyID === propertyID)] *)
Fixpoint timelineBlocks (propertyID : string) (chain : list value) : completion (list value) :=
  match chain with
  | [] => Normal []
  | block :: rest =>
      let* id := Get block "propertyID" in
      let* selected := timelineBlocks propertyID rest in
      Normal (if strict_eq id (Str propertyID) then block :: selected else selected)
  end.

Definition showTimeline (propertyID : string) (st : State) : completion unit * State :=
  match timelineBlocks propertyID (blockchain st) with
  | Throw e => (Throw e, st)
  | Normal blocks => (renderTimeline blocks, st)
  end.

(** The link check of the loop body: [true] at index 0, and otherwise
    whether [current.previousHash === previous.currentHash]. *)
Definition linkedToPrevious (chain : list value) (i : nat) (current : value)
  : completion bool :=
  if (0 <? i)%nat then
    let previous := List.nth (i - 1) chain Undefined in
    let* previousHash := Get current "previousHash" in
    let* previousCurrentHash := Get previous "currentHash" in
    Normal (strict_eq previousHash previousCurrentHash)
  else Normal true.

(** The body of the [for] loop of [validateChain] at index [i]: the
    outcome it returns, or [None] when the loop goes on. *)
Definition checkBlock (chain : list value) (globalSecret : string) (i : nat)
  : completion (option Result) :=
  let current := List.nth i chain Undefined in
  let* recomputedHash := calculateHash current in
  let* currentHash := Get current "currentHash" in
  if negb (strict_eq (Str recomputedHash) currentHash) then Normal (Some (HashMismatch i))
  else
    let* linked := linkedToPrevious chain i current in
    if negb linked then Normal (Some (BrokenLink i))
    else
      let* expectedSignature := signRecord current globalSecret in
      let* signature := Get current "signature" in
      if negb (strict_eq (Str expectedSignature) signature)
      then Normal (Some (SignatureInvalid i))
      else Normal None.

(** The loop from index [i], for [count] more blocks. *)
Fixpoint validateFrom (chain : list value) (globalSecret : string) (count i : nat)
  : completion Result :=
  match count with
  | O => Normal Valid
  | S count' =>
      let* outcome := checkBlock chain globalSecret i in
      match outcome with
      | Some failure => Normal failure
      | None => validateFrom chain globalSecret count' (S i)
      end
  end.

Definition validate (chain : list value) (globalSecret : string) : completion Result :=
  if (List.length chain =? 0)%nat then Normal Empty
  else validateFrom chain globalSecret (List.length chain) 0.

Definition validateChain (globalSecret : string) (st : State) : completion string * State :=
  (let* r := validate (blockchain st) globalSecret in Normal (message r), st).

(** The text [downloadLedger] puts in the file. *)
Definition ledgerText (chain : list value) : string :=
  default EmptyString (JSON_stringify (Arr chain) "  ").

Definition downloadLedger (st : State) : State :=
  let dataStr := ledgerText (blockchain st) in
  add_download dataStr st.

(** [loadLedgerFromFile(file)], with [text] what the reader hands to
    [onload]. *)
Definition loadLedgerFromFile (text : string) (st : State) : State :=
  match JSON_parse text with
  | Malformed => add_alert (AlertError "Error reading ledger file: " SyntaxError) st
  | Parsed parsed =>
      match parsed with
      | Arr elems =>
          let st := set_blockchain elems st in
          match renderLedger (blockchain st) with
          | Throw e => add_alert (AlertError "Error reading ledger file: " e) st
          | Normal _ =>
              match updateStats st with
              | (Throw e, st) => add_alert (AlertError "Error reading ledger file: " e) st
              | (Normal _, st) =>
                  set_validationResult
                    "Ledger loaded from file. You can now validate the chain." st
              end
          end
      | _ => add_alert (Alert "Invalid file format: expected an array.") st
      end
  end.

(** *** Event handlers; the arguments are the trimmed form fields *)

(** [blockchain.find(pred)]: the first block that satisfies [pred]. *)
Fixpoint find (pred : value -> completion bool) (chain : list value) : completion value :=
  match chain with
  | [] => Normal Undefined
  | block :: rest =>
      let* hit := pred block in
      if hit then Normal block else find pred rest
  end.

Definition registerProperty_click (propertyID description owner userSecret now : string)
           (st : State) : completion unit * State :=
  if negb (truthy (Str userSecret)) then
    (Normal tt, add_alert (Alert "Please enter your Owner Secret (private key) first.") st)
  else
    match find (fun block =>
                  let* id := Get block "propertyID" in
                  if strict_eq id (Str propertyID) then
                    let* action := Get block "action" in
                    Normal (strict_eq action (Str "Register"))
                  else Normal false) (blockchain st) with
    | Throw e => (Throw e, st)
    | Normal alreadyExists =>
        if truthy alreadyExists then
          (Normal tt, add_alert (Alert "Property ID already registered!") st)
        else if truthy (Str propertyID) && truthy (Str owner) then
          match addBlock (Literal [("propertyID", Str propertyID);
                                   ("description", Str description);
                                   ("owner", Str owner); ("action", Str "Register")])
                         userSecret now st with
          | (Throw e, st) => (Throw e, st)
          | (Normal _, st) =>
              (Normal tt, add_alert (Alert "Property registered and signed successfully!") st)
          end
        else (Normal tt, add_alert (Alert "Please enter Property ID and Owner Name.") st)
    end.

Definition transferProperty_click (propertyID newOwner remarks userSecret now : string)
           (st : State) : completion unit * State :=
  if negb (truthy (Str userSecret)) then
    (Normal tt, add_alert (Alert "Please enter your Owner Secret (private key) first.") st)
  else if truthy (Str propertyID) && truthy (Str newOwner) then
    match find (fun block =>
                  let* id := Get block "propertyID" in
                  Normal (strict_eq id (Str propertyID))) (blockchain st) with
    | Throw e => (Throw e, st)
    | Normal found =>
        if negb (truthy found) then
          (Normal tt, add_alert (Alert "Property ID not found! Register it first.") st)
        else
          match addBlock (Literal [("propertyID", Str propertyID); ("owner", Str newOwner);
                                   ("action", Str "Transfer"); ("remarks", Str remarks)])
                         userSecret now st with
          | (Throw e, st) => (Throw e, st)
          | (Normal _, st) =>
              (Normal tt, add_alert (Alert "Property ownership transferred and signed!") st)
          end
    end
  else (Normal tt, add_alert (Alert "Please enter Property ID and new Owner Name.") st).

Definition showTimeline_click (propertyID : string) (st : State) : completion unit * State :=
  if negb (truthy (Str propertyID)) then
    (Normal tt, add_alert (Alert "Please enter a Property ID for timeline search.") st)
  else showTimeline propertyID st.

Definition validateChain_click (userSecret : string) (st : State) : completion unit * State :=
  if negb (truthy (Str userSecret)) then
    (Normal tt,
     add_alert (Alert "Enter the Owner Secret you used to create the blocks, to verify signatures.") st)
  else
    match validateChain userSecret st with
    | (Throw e, st) => (Throw e, st)
    | (Normal result, st) => (Normal tt, set_validationResult result st)
    end.

Definition downloadLedger_click (st : State) : State :=
  if (List.length (blockchain st) =? 0)%nat then
    add_alert (Alert "Ledger is empty. Add some data first.") st
  else downloadLedger st.

(** What a user can do on the page. *)
Inductive operation : Type :=
| Register (propertyID description owner userSecret now : string)
| Transfer (propertyID newOwner remarks userSecret now : string)
| Timeline (propertyID : string)
| Validate (userSecret : string)
| Download
| Upload (text : string).

(** The page after the handler of [op] has run to its end. *)
Definition run (op : operation) (st : State) : State :=
  match op with
  | Register propertyID description owner userSecret now =>
      snd (registerProperty_click propertyID description owner userSecret now st)
  | Transfer propertyID newOwner remarks userSecret now =>
      snd (transferProperty_click propertyID newOwner remarks userSecret now st)
  | Timeline propertyID => snd (showTimeline_click propertyID st)
  | Validate userSecret => snd (validateChain_click userSecret st)
  | Download => downloadLedger_click st
  | Upload text => loadLedgerFromFile text st
  end.

(** Chains grown from the empty chain by calls of [addBlock] that are each
    given a new object; the first index lists, block by block, the secret
    of the call that appended it. A call that throws before its [push]
    leaves the chain as it was. *)
Inductive built : list string -> list value -> Prop :=
| built_empty : built [] []
| built_addBlock secrets st record userSecret now :
    built secrets (blockchain st) ->
    blockchain (snd (addBlock (Literal record) userSecret now st)) <> blockchain st ->
    built (secrets ++ [userSecret])%list
          (blockchain (snd (addBlock (Literal record) userSecret now st))).


(** *** Notions used in the proofs *)

(** The block [addBlock] pushes. *)
Definition sealedBlock (record : list (string * value)) (previousHash : value)
           (now signature currentHash : string) : value :=
  Obj (put "currentHash" (Str currentHash)
         (put "signature" (Str signature)
            (put "timestamp" (Str now)
               (put "previousHash" previousHash record)))).

(** The value [addBlock] stores as [previousHash]. *)
Definition tailHash (chain : list value) : completion value :=
  let lastBlock := List.last chain Undefined in
  if truthy lastBlock then Get lastBlock "currentHash" else Normal (Str "0").

(** The invariant of built chains. *)
Definition hashOK (b : value) : Prop :=
  exists props h,
    b = Obj props /\ calculateHash b = Normal h /\ lookup_prop "currentHash" props = Str h.

Definition signedBy (secret : string) (b : value) : Prop :=
  exists signature,
    signRecord b secret = Normal signature /\ Get b "signature" = Normal (Str signature).

Record sealed (secrets : list string) (chain : list value) : Prop := {
  sealed_length : length secrets = length chain;
  sealed_hash : forall i b, chain !! i = Some b -> hashOK b;
  sealed_sig : forall i b s, chain !! i = Some b -> secrets !! i = Some s -> signedBy s b;
  sealed_first : forall b, chain !! 0 = Some b -> Get b "previousHash" = Normal (Str "0");
  sealed_link : forall i b p,
      chain !! S i = Some b -> chain !! i = Some p ->
      Get b "previousHash" = Get p "currentHash"
}.

(** The value of field [f] that enters the digest: [description] and
    [remarks] are replaced by the empty string when absent (or falsy). *)
Definition hashedValue (record : value) (f : string) : completion value :=
  let* v := Get record f in
  if String.eqb f "description" || String.eqb f "remarks"
  then Normal (or_else v (Str EmptyString))
  else Normal v.

(** Induction on values, through the lists of elements and properties. *)
Definition value_induction (P : value -> Prop)
           (HUndefined : P Undefined) (HNull : P Null)
           (HBoolean : forall b, P (Boolean b)) (HNum : forall x, P (Num x))
           (HStr : forall s, P (Str s))
           (HArr : forall elems, Forall P elems -> P (Arr elems))
           (HObj : forall props, Forall (fun p => P (snd p)) props -> P (Obj props))
  : forall v, P v :=
  fix F (v : value) : P v :=
    match v with
    | Undefined => HUndefined
    | Null => HNull
    | Boolean b => HBoolean b
    | Num x => HNum x
    | Str s => HStr s
    | Arr elems =>
        HArr elems
             ((fix G (l : list value) : Forall P l :=
                 match l with
                 | [] => @List.Forall_nil _ P
                 | x :: rest => @List.Forall_cons _ P x rest (F x) (G rest)
                 end) elems)
    | Obj props =>
        HObj props
             ((fix G (l : list (string * value)) : Forall (fun p => P (snd p)) l :=
                 match l with
                 | [] => @List.Forall_nil _ (fun p => P (snd p))
                 | p :: rest => @List.Forall_cons _ (fun p => P (snd p)) p rest (F (snd p)) (G rest)
                 end) props)
    end.

Fixpoint nodup_keys (props : list (string * value)) : bool :=
  match props with
  | [] => true
  | (k, _) :: rest => negb (has_prop k rest) && nodup_keys rest
  end.

(** A low surrogate is at the head of [s]. *)
Definition low_at (s : string) : bool :=
  match s with
  | String c1 (String c2 (String c3 _)) =>
      surrogate c1 c2 c3 && is_low_surrogate (code_unit c1 c2 c3)
  | _ => false
  end.

(** The bytes are those of a JavaScript string: no high surrogate is
    followed by a low one, since such a pair is the four bytes of its code
    point. *)
Fixpoint canonical (s : string) : bool :=
  match s with
  | EmptyString => true
  | String c1 tail =>
      match tail with
      | String c2 (String c3 rest) =>
          if surrogate c1 c2 c3
          then negb (is_high_surrogate (code_unit c1 c2 c3) && low_at rest) && canonical rest
          else canonical tail
      | _ => canonical tail
      end
  end.

(** [k] may come before [k'] when an object is enumerated: array indices
    first, in ascending order. *)
Definition key_before (k k' : string) : bool :=
  if is_integer_key k'
  then is_integer_key k && (decimal_value k <? decimal_value k')%N
  else true.

(** The properties are listed as JavaScript enumerates them. *)
Fixpoint key_order (props : list (string * value)) : bool :=
  match props with
  | [] => true
  | (k, _) :: rest => List.forallb (fun p => key_before k (fst p)) rest && key_order rest
  end.

(** What can follow a number in a JSON text: the end, or a character that
    does not carry the number on. *)
Definition stops (rest : string) : bool :=
  match rest with
  | EmptyString => true
  | String c _ => negb (is_digit c || (c =? ".")%char || (c =? "e")%char || (c =? "E")%char)
  end.

(** The decimal text of [x] denotes [x]: the number is finite and is not
    the negative zero, whose text is that of zero, and [Number.toString]
    keeps the promise of Number::toString that its digits suffice to tell
    [x] from the other doubles. *)
Definition readsBack (x : number) : bool :=
  match lex_number (Number.toString x) with
  | Parsed (Num y, EmptyString) => Number.eqb y x
  | _ => false
  end.

(** The values JSON carries: no [undefined], no infinity and no negative
    zero; strings and objects in the form that represents them here. *)
Fixpoint is_json (v : value) : bool :=
  match v with
  | Undefined => false
  | Null | Boolean _ => true
  | Num x => readsBack x
  | Str s => canonical s
  | Arr elems => List.forallb is_json elems
  | Obj props =>
      nodup_keys props && key_order props
      && List.forallb (fun p => canonical (fst p) && is_json (snd p)) props
  end.

(** Fuel that suffices to parse the text of a value. *)
Fixpoint size (v : value) : nat :=
  match v with
  | Arr elems => S (list_sum (List.map (fun x => S (size x)) elems))
  | Obj props => S (list_sum (List.map (fun p => S (size (snd p))) props))
  | _ => 1
  end.

Fixpoint blank (s : string) : bool :=
  match s with
  | EmptyString => true
  | String c rest => is_ws c && blank rest
  end.

(** The text of a property value in SerializeJSONObject and of an element
    in SerializeJSONArray. *)
Definition strP (gap indent : string) (v : value) : string :=
  match SerializeJSONProperty gap indent v with
  | Some text => text
  | None => "null"
  end.

(** One member of a serialised object. *)
Definition member (gap indent : string) (p : string * value) : string :=
  QuoteJSONString (fst p) ++ ":"
    ++ (if String.eqb gap EmptyString then EmptyString else " ") ++ strP gap indent (snd p).

(** What [wrap] puts before each item, for both layouts. *)
Definition lead (gap indent : string) : string :=
  if String.eqb gap EmptyString then EmptyString else String LF indent.

(** Reading the text of [v], whatever follows it, gives [v] back. *)
Definition parses_back (gap indent : string) (v : value) : Prop :=
  is_json v = true ->
  forall rest fuel, stops rest = true -> size v <= fuel ->
    parse_value fuel (strP gap indent v ++ rest) = Parsed (v, rest).

Definition defined (v : value) : bool :=
  match v with
  | Undefined => false
  | _ => true
  end.

(** A field value that the canonical encoding renders faithfully: absent,
    or JSON data. *)
Definition representable (v : value) : bool :=
  match v with
  | Undefined => true
  | _ => is_json v
  end.

(** A block that [JSON.stringify] renders up to properties that hold
    [undefined], which it leaves out: JSON data, or an object whose
    properties hold JSON data or [undefined]. *)
Definition exportable (b : value) : bool :=
  match b with
  | Undefined => false
  | Obj props =>
      nodup_keys props && key_order props
      && List.forallb (fun p => canonical (fst p) && representable (snd p)) props
  | other => is_json other
  end.

(** The block without its properties that hold [undefined]; reading a field
    gives the same on both (see [Get_dropUndefined]). *)
Definition dropUndefined (b : value) : value :=
  match b with
  | Obj props => Obj (List.filter (fun p => defined (snd p)) props)
  | other => other
  end.

Definition isUpload (op : operation) : bool :=
  match op with
  | Upload _ => true
  | _ => false
  end.

(** A session: the operations one after the other, each handler run to
    its end before the next event is taken up. *)
Fixpoint runAll (ops : list operation) (st : State) : State :=
  match ops with
  | [] => st
  | op :: rest => runAll rest (run op st)
  end.

(** A block as [addBlock] leaves it: JSON data with a digest string. *)
Definition sealedJson (b : value) : Prop :=
  is_json b = true
  /\ exists props h, b = Obj props /\ lookup_prop "currentHash" props = Str h.

(** The texts an operation stores in a block are JavaScript strings. *)
Definition textOp (op : operation) : bool :=
  match op with
  | Register propertyID description owner _ now =>
      canonical propertyID && canonical description && canonical owner && canonical now
  | Transfer propertyID newOwner remarks _ now =>
      canonical propertyID && canonical newOwner && canonical remarks && canonical now
  | _ => true
  end.

(** The object [dataForHash] of [calculateHash], for a record that is an
    object. *)
Definition dataForHash (props : list (string * value)) : list (string * value) :=
  [("propertyID", lookup_prop "propertyID" props);
   ("owner", lookup_prop "owner" props);
   ("description", or_else (lookup_prop "description" props) (Str EmptyString));
   ("remarks", or_else (lookup_prop "remarks" props) (Str EmptyString));
   ("action", lookup_prop "action" props);
   ("timestamp", lookup_prop "timestamp" props);
   ("previousHash", lookup_prop "previousHash" props)].

(** *** Notions used for the validator, the forms and the statistics *)

(** The fields of a record that the forms fill in are strings, or absent. *)
Definition formRecord (record : list (string * value)) : Prop :=
  forall f, In f ["propertyID"; "owner"; "action"; "description"; "remarks"] ->
    lookup_prop f record = Undefined \/ exists s, lookup_prop f record = Str s.

(** The fields [validateChain] reads from a block. *)
Definition readFields : list string := (hashedFields ++ ["currentHash"; "signature"])%list.

(** The block before index [i], if there is one. *)
Definition previousOf (chain : list value) (i : nat) : option value :=
  match i with
  | O => None
  | S j => chain !! j
  end.

(** What the three checks of the loop body ask of a block: the stored digest
    is the recomputed one, the stored signature is the one derived from the
    secret, and the block points at the digest stored in its predecessor. *)
Definition blockOK (secret : string) (previous : option value) (b : value) : Prop :=
  exists h signature,
    calculateHash b = Normal h /\ Get b "currentHash" = Normal (Str h)
    /\ signRecord b secret = Normal signature /\ Get b "signature" = Normal (Str signature)
    /\ match previous with
       | Some p => Get b "previousHash" = Get p "currentHash"
       | None => True
       end.

(** The blocks before index [i] pass the three checks. *)
Definition passedBefore (secret : string) (chain : list value) (i : nat) : Prop :=
  forall j b, j < i -> chain !! j = Some b -> blockOK secret (previousOf chain j) b.

(** The operation, if it signs a block, does so under [secret]. *)
Definition signsWith (secret : string) (op : operation) : Prop :=
  match op with
  | Register _ _ _ userSecret _ | Transfer _ _ _ userSecret _ => userSecret = secret
  | _ => True
  end.

(** [block.propertyID === id] and [block.action === a]; false where the
    read throws. *)
Definition hasId (id : string) (b : value) : bool :=
  match Get b "propertyID" with
  | Normal v => strict_eq v (Str id)
  | Throw _ => false
  end.

Definition hasAction (a : string) (b : value) : bool :=
  match Get b "action" with
  | Normal v => strict_eq v (Str a)
  | Throw _ => false
  end.

(** [null] and [undefined]: the values on which a property read throws. *)
Definition nullish (b : value) : bool :=
  match b with
  | Undefined | Null => true
  | _ => false
  end.

(** A block as the two forms make it: an object whose property ID and owner
    are strings that are not empty, registered or transferred. *)
Definition pageBlock (b : value) : Prop :=
  exists props id owner action,
    b = Obj props
    /\ lookup_prop "propertyID" props = Str id /\ id <> EmptyString
    /\ lookup_prop "owner" props = Str owner /\ owner <> EmptyString
    /\ lookup_prop "action" props = Str action
    /\ (action = "Register" \/ action = "Transfer").

(** The life of one property: its registration, then transfers only. *)
Definition history (blocks : list value) : Prop :=
  match blocks with
  | [] => True
  | r :: ts =>
      hasAction "Register" r = true /\ Forall (fun t => hasAction "Transfer" t = true) ts
  end.

(** The invariant of the chains made through the two forms. *)
Definition ledger (chain : list value) : Prop :=
  Forall pageBlock chain /\ forall id, history (List.filter (hasId id) chain).

(** The three numbers the page shows. *)
Definition stats (st : State) : nat * nat * nat :=
  (statTotalProperties st, statTotalTransfers st, statUniqueOwners st).

(** The numbers shown are the ones [updateStats] computes from the chain. *)
Definition inSync (st : State) : Prop :=
  exists registered transfers owners,
    forEach countBlock ([], 0, []) (blockchain st) = Normal (registered, transfers, owners)
    /\ stats st = (List.length registered, transfers, List.length owners).

(** Digits [0-9a-f] only. *)
Fixpoint lowerHex (s : string) : bool :=
  match s with
  | EmptyString => true
  | String c rest =>
      (is_digit c || ((97 <=? N_of_ascii c)%N && (N_of_ascii c <=? 102)%N)) && lowerHex rest
  end.

(** No field separator of [signRecord] inside. *)
Fixpoint barFree (s : string) : bool :=
  match s with
  | EmptyString => true
  | String c rest => negb (c =? "|")%char && barFree rest
  end.

End Program.

(** ** A concrete run *)

(** SHA-256 as the digest and a presentation layer that never throws. *)
Definition browser : Platform := {|
  digest := SHA256.digest
|}.

Definition demoRegister : list (string * value) :=
  [("propertyID", Str "P1"); ("description", Str "Plot 12");
   ("owner", Str "Alice"); ("action", Str "Register")].

Definition demoTransfer : list (string * value) :=
  [("propertyID", Str "P1"); ("owner", Str "Bob");
   ("action", Str "Transfer"); ("remarks", Str "sold")].

(** Alice registers P1 under the secret s1. *)
Definition demo1 : State :=
  snd (registerProperty_click (platform := browser)
         "P1" "Plot 12" "Alice" "s1" "2024-01-01T00:00:00.000Z" initial).

(** P1 goes to Bob, under the same secret. *)
Definition demo2 : State :=
  snd (transferProperty_click (platform := browser)
         "P1" "Bob" "sold" "s1" "2024-01-02T00:00:00.000Z" demo1).

(** P1 goes to Bob, under another secret. *)
Definition demoMixed : State :=
  snd (transferProperty_click (platform := browser)
         "P1" "Bob" "sold" "s2" "2024-01-02T00:00:00.000Z" demo1).

Definition demoBlock0 : value := List.nth 0 (blockchain demo2) Undefined.
Definition demoBlock1 : value := List.nth 1 (blockchain demo2) Undefined.

(** The second block of [demo2] pointed at the sentinel instead of the
    first block, its digest recomputed. *)
Definition demoRelinkedHash : string :=
  match calculateHash (platform := browser)
          (setField "previousHash" (Str "0") demoBlock1) with
  | Normal h => h
  | Throw _ => EmptyString
  end.

Definition demoRelinked : value :=
  setField "currentHash" (Str demoRelinkedHash) (setField "previousHash" (Str "0") demoBlock1).

(** The session that leads to [demo2]. *)
Definition demoOps : list operation :=
  [Register "P1" "Plot 12" "Alice" "s1" "2024-01-01T00:00:00.000Z";
   Transfer "P1" "Bob" "sold" "s1" "2024-01-02T00:00:00.000Z"].

(** The chain of [demo2] with a note added to every block. *)
Definition demoNoted : list value :=
  List.map (setField "note" (Str "checked")) (blockchain demo2).

(** The first block of [demo2] under another description. *)
Definition demoRedescribed : value := setField "description" (Str "Plot 13") demoBlock0.

(** A fresh page after the file exported from [demo2] was loaded. *)
Definition demoReloaded : State :=
  loadLedgerFromFile (ledgerText (blockchain demo2)) initial.

(** [demo2] after the import of a file that holds an array with a null. *)
Definition demoNull : State :=
  add_alert (AlertError "Error reading ledger file: " TypeError) (set_blockchain [Null] demo2).

(** One object handed to [addBlock] twice:
    [r = {...}; addBlock(r, "s1"); addBlock(r, secret)]. *)
Definition demoOnce : State :=
  snd (addBlock (platform := browser) (Literal demoRegister) "s1"
         "2024-01-01T00:00:00.000Z" initial).

Definition demoTwice : State :=
  snd (addBlock (platform := browser) (Held 0) "s1" "2024-01-02T00:00:00.000Z" demoOnce).




(** A file whose only block has a time stamp beyond the range of the
    doubles, and the page after it was loaded. *)
Definition demoOverflow : string :=
  "[{" ++ String dquote "timestamp" ++ String dquote ":1e999}]".

Definition demoInfinite : State := loadLedgerFromFile demoOverflow initial.

(** * Proofs *)

Section Proofs.
Context {platform : Platform}.


(** ** Strings *)

Lemma append_assoc (a b c : string) : (a ++ b) ++ c = a ++ (b ++ c).
Proof. induction a as [|x a IH]; simpl; [reflexivity | now rewrite IH]. Qed.

Lemma append_nil_r (a : string) : a ++ EmptyString = a.
Proof. induction a as [|x a IH]; simpl; [reflexivity | now rewrite IH]. Qed.

Lemma append_length (a b : string) :
  String.length (a ++ b) = String.length a + String.length b.
Proof. induction a as [|x a IH]; simpl; [reflexivity | now rewrite IH]. Qed.

Lemma append_inv_head (a b c : string) : a ++ b = a ++ c -> b = c.
Proof. induction a as [|x a IH]; simpl; intros H; [exact H | injection H; auto]. Qed.

Lemma append_inv_tail (a b c : string) : a ++ c = b ++ c -> a = b.
Proof.
  revert b. induction a as [|x a IH]; intros [|y b] H; simpl in H.
  - reflexivity.
  - apply (f_equal String.length) in H. simpl in H. rewrite append_length in H. lia.
  - apply (f_equal String.length) in H. simpl in H. rewrite append_length in H. lia.
  - injection H as -> H. f_equal. now apply IH.
Qed.

(** ** Objects *)

Lemma lookup_put_eq k v props : lookup_prop k (put k v props) = v.
Proof.
  induction props as [|[k' v'] props IH]; simpl.
  - now rewrite String.eqb_refl.
  - destruct (String.eqb k' k) eqn:E; simpl; rewrite ?E, ?String.eqb_refl; auto.
Qed.

Lemma lookup_put_ne k k' v props :
  k <> k' -> lookup_prop k' (put k v props) = lookup_prop k' props.
Proof.
  intros Hne. induction props as [|[k0 v0] props IH]; simpl.
  - apply String.eqb_neq in Hne. now rewrite Hne.
  - destruct (String.eqb k0 k) eqn:E; simpl.
    + apply String.eqb_eq in E. subst k0.
      apply String.eqb_neq in Hne. now rewrite Hne.
    + destruct (String.eqb k0 k'); auto.
Qed.

Lemma strict_eq_str s v : strict_eq (Str s) v = true <-> v = Str s.
Proof.
  destruct v; simpl; split; intros H; try discriminate.
  - apply String.eqb_eq in H. now subst.
  - injection H as ->. apply String.eqb_refl.
Qed.

Lemma strict_eq_refl_str s : strict_eq (Str s) (Str s) = true.
Proof. apply String.eqb_refl. Qed.

Lemma strict_eq_str_r s v : strict_eq v (Str s) = true <-> v = Str s.
Proof.
  destruct v; simpl; split; intros H; try discriminate.
  - apply String.eqb_eq in H. now subst.
  - injection H as ->. apply String.eqb_refl.
Qed.

(** *** The digest and the signature read fixed fields only *)

Lemma canonicalText_ext p q :
  (forall f, In f hashedFields -> lookup_prop f p = lookup_prop f q) ->
  canonicalText (Obj p) = canonicalText (Obj q).
Proof.
  intros H. unfold canonicalText. simpl.
  rewrite !(H _) by (simpl; tauto). reflexivity.
Qed.

Lemma toSign_ext p q secret :
  (forall f, In f signedFields -> lookup_prop f p = lookup_prop f q) ->
  toSign (Obj p) secret = toSign (Obj q) secret.
Proof.
  intros H. unfold toSign. simpl.
  rewrite !(H _) by (simpl; tauto). reflexivity.
Qed.

Lemma calculateHash_put k v p :
  ~ In k hashedFields -> calculateHash (Obj (put k v p)) = calculateHash (Obj p).
Proof.
  intros Hk. unfold calculateHash. f_equal. apply canonicalText_ext.
  intros f Hf. apply lookup_put_ne. intros ->. contradiction.
Qed.

Lemma signRecord_put k v p secret :
  ~ In k signedFields -> signRecord (Obj (put k v p)) secret = signRecord (Obj p) secret.
Proof.
  intros Hk. unfold signRecord. f_equal. apply toSign_ext.
  intros f Hf. apply lookup_put_ne. intros ->. contradiction.
Qed.

(** *** What [addBlock] does to the chain *)

Lemma updateStats_blockchain st : blockchain (snd (updateStats st)) = blockchain st.
Proof.
  unfold updateStats.
  destruct (forEach countBlock _ _) as [[[registered transfers] owners]|e]; reflexivity.
Qed.

(** A call with a new object writes into that object only. *)
Lemma addBlock_Literal record userSecret now st :
  addBlock (Literal record) userSecret now st
  = match tailHash (blockchain st) with
    | Throw e => (Throw e, st)
    | Normal previousHash =>
        match signRecord
                (Obj (put "timestamp" (Str now) (put "previousHash" previousHash record)))
                userSecret with
        | Throw e => (Throw e, st)
        | Normal signature =>
            match calculateHash
                    (Obj (put "signature" (Str signature)
                            (put "timestamp" (Str now)
                               (put "previousHash" previousHash record)))) with
            | Throw e => (Throw e, st)
            | Normal currentHash =>
                let st1 :=
                  push (Literal (put "currentHash" (Str currentHash)
                                   (put "signature" (Str signature)
                                      (put "timestamp" (Str now)
                                         (put "previousHash" previousHash record))))) st in
                match renderLedger (blockchain st1) with
                | Throw e => (Throw e, st1)
                | Normal _ => updateStats st1
                end
            end
        end
    end.
Proof.
  unfold addBlock. fold (tailHash (blockchain st)).
  destruct (tailHash (blockchain st)) as [previousHash|e]; [|reflexivity].
  cbn [assign read]. reflexivity.
Qed.

Lemma addBlock_chain record userSecret now st :
  blockchain (snd (addBlock (Literal record) userSecret now st)) = blockchain st
  \/ exists previousHash signature currentHash,
       tailHash (blockchain st) = Normal previousHash
       /\ signRecord
            (Obj (put "timestamp" (Str now) (put "previousHash" previousHash record)))
            userSecret = Normal signature
       /\ calculateHash
            (Obj (put "signature" (Str signature)
                    (put "timestamp" (Str now) (put "previousHash" previousHash record))))
          = Normal currentHash
       /\ blockchain (snd (addBlock (Literal record) userSecret now st))
          = (blockchain st ++ [sealedBlock record previousHash now signature currentHash])%list.
Proof.
  rewrite addBlock_Literal.
  destruct (tailHash (blockchain st)) as [previousHash|e]; [|left; reflexivity].
  destruct (signRecord _ userSecret) as [signature|e] eqn:Hsig; [|left; reflexivity].
  destruct (calculateHash _) as [currentHash|e] eqn:Hhash; [|left; reflexivity].
  right. exists previousHash, signature, currentHash.
  repeat split; auto. cbv zeta.
  destruct (renderLedger _); [|reflexivity].
  rewrite updateStats_blockchain. reflexivity.
Qed.

Lemma sealedBlock_hashOK record previousHash now signature currentHash :
  calculateHash
    (Obj (put "signature" (Str signature)
            (put "timestamp" (Str now) (put "previousHash" previousHash record))))
  = Normal currentHash ->
  hashOK (sealedBlock record previousHash now signature currentHash).
Proof.
  intros H. eexists _, currentHash. split; [reflexivity|]. split.
  - unfold sealedBlock. rewrite calculateHash_put; [exact H|].
    simpl. intuition discriminate.
  - apply lookup_put_eq.
Qed.

Lemma sealedBlock_signedBy record previousHash now signature currentHash secret :
  signRecord (Obj (put "timestamp" (Str now) (put "previousHash" previousHash record))) secret
  = Normal signature ->
  signedBy secret (sealedBlock record previousHash now signature currentHash).
Proof.
  intros H. exists signature. split.
  - unfold sealedBlock.
    rewrite signRecord_put by (simpl; intuition discriminate).
    rewrite signRecord_put by (simpl; intuition discriminate).
    exact H.
  - unfold sealedBlock. simpl. rewrite lookup_put_ne by discriminate.
    now rewrite lookup_put_eq.
Qed.

Lemma sealedBlock_previousHash record previousHash now signature currentHash :
  Get (sealedBlock record previousHash now signature currentHash) "previousHash"
  = Normal previousHash.
Proof.
  unfold sealedBlock. simpl. rewrite !lookup_put_ne by discriminate.
  now rewrite lookup_put_eq.
Qed.

Lemma tailHash_nil : tailHash [] = Normal (Str "0").
Proof. reflexivity. Qed.

Lemma tailHash_snoc chain b :
  hashOK b -> tailHash (chain ++ [b]) = Get b "currentHash".
Proof.
  intros (props & h & -> & _ & _). unfold tailHash. rewrite last_last. reflexivity.
Qed.

Lemma built_sealed secrets chain : built secrets chain -> sealed secrets chain.
Proof.
  induction 1 as [|secrets st record userSecret now Hb IH Hne].
  - split; try reflexivity; intros; simplify_eq; discriminate.
  - destruct (addBlock_chain record userSecret now st)
      as [Heq|(previousHash & signature & currentHash & Hprev & Hsig & Hhash & Heq)];
      [contradiction|].
    rewrite Heq. clear Heq Hne.
    set (blk := sealedBlock record previousHash now signature currentHash).
    assert (Hblk : hashOK blk) by now apply sealedBlock_hashOK.
    destruct IH as [Hlen Hh Hs Hf Hl].
    split.
    + rewrite !length_app. simpl. lia.
    + intros i b Hi. apply lookup_app_Some in Hi as [Hi|[_ Hi]]; [eauto|].
      apply list_lookup_singleton_Some in Hi as [_ <-]. exact Hblk.
    + intros i b s Hi Hsi.
      apply lookup_app_Some in Hi as [Hi|[Hge Hi]].
      * apply lookup_app_Some in Hsi as [Hsi|[Hge _]]; [eauto|].
        apply lookup_lt_Some in Hi. lia.
      * apply list_lookup_singleton_Some in Hi as [Hi0 <-].
        apply lookup_app_Some in Hsi as [Hsi|[_ Hsi]].
        { apply lookup_lt_Some in Hsi. lia. }
        rewrite Hlen in Hsi. replace (i - length (blockchain st)) with 0 in Hsi by lia.
        simpl in Hsi. injection Hsi as <-. now apply sealedBlock_signedBy.
    + intros b Hi. apply lookup_app_Some in Hi as [Hi|[Hge Hi]]; [eauto|].
      apply list_lookup_singleton_Some in Hi as [_ <-].
      simpl in Hge. assert (Hnil : blockchain st = []) by (apply length_zero_iff_nil; lia).
      rewrite Hnil, tailHash_nil in Hprev. injection Hprev as <-.
      apply sealedBlock_previousHash.
    + intros i b p Hi Hp.
      apply lookup_app_Some in Hi as [Hi|[Hge Hi]].
      * apply lookup_app_Some in Hp as [Hp|[Hge _]]; [eauto|].
        apply lookup_lt_Some in Hi. lia.
      * apply list_lookup_singleton_Some in Hi as [Hi0 <-].
        apply lookup_app_Some in Hp as [Hp|[Hge' _]]; [|lia].
        assert (Hi' : i = pred (length (blockchain st))) by lia.
        destruct (exists_last (l := blockchain st)) as (chain' & lastBlock & Hchain).
        { intros Hnil. rewrite Hnil in Hp. discriminate. }
        rewrite Hchain in Hp, Hprev, Hi'. rewrite length_app in Hi'. simpl in Hi'.
        rewrite lookup_app_r in Hp by lia.
        replace (i - length chain') with 0 in Hp by lia. simpl in Hp. injection Hp as ->.
        rewrite tailHash_snoc in Hprev.
        { unfold blk. rewrite sealedBlock_previousHash. now rewrite Hprev. }
        apply (Hh (length chain')). rewrite Hchain.
        rewrite lookup_app_r by lia. now rewrite Nat.sub_diag.
Qed.

(** *** The validation loop *)

Lemma checkBlock_ext chain chain' secret i :
  List.nth i chain Undefined = List.nth i chain' Undefined ->
  List.nth (i - 1) chain Undefined = List.nth (i - 1) chain' Undefined ->
  checkBlock chain secret i = checkBlock chain' secret i.
Proof. intros H1 H2. unfold checkBlock, linkedToPrevious. now rewrite H1, H2. Qed.

Lemma validateFrom_pass chain secret count i :
  (forall j, i <= j < i + count -> checkBlock chain secret j = Normal None) ->
  validateFrom chain secret count i = Normal Valid.
Proof.
  revert i. induction count as [|count IH]; intros i H; simpl; [reflexivity|].
  rewrite H by lia. simpl. apply IH. intros j Hj. apply H. lia.
Qed.

(** The loop returns the outcome of the first block that fails a check. *)
Lemma validateFrom_first_failure chain secret count i k r :
  i <= k < i + count ->
  (forall j, i <= j < k -> checkBlock chain secret j = Normal None) ->
  checkBlock chain secret k = Normal (Some r) ->
  validateFrom chain secret count i = Normal r.
Proof.
  revert i. induction count as [|count IH]; intros i Hk Hpass Hfail; [lia|].
  simpl. destruct (decide (i = k)) as [->|Hne].
  - rewrite Hfail. reflexivity.
  - rewrite Hpass by lia. simpl. apply IH; [lia| |exact Hfail].
    intros j Hj. apply Hpass. lia.
Qed.

Lemma validate_first_failure chain secret k r :
  k < length chain ->
  (forall j, j < k -> checkBlock chain secret j = Normal None) ->
  checkBlock chain secret k = Normal (Some r) ->
  validate chain secret = Normal r.
Proof.
  intros Hk Hpass Hfail. unfold validate.
  destruct (Nat.eqb_spec (length chain) 0) as [H0|_]; [lia|].
  apply validateFrom_first_failure with (k := k); [lia| |exact Hfail].
  intros j Hj. apply Hpass. lia.
Qed.

Lemma nth_lookup_Some_eq (chain : list value) i b :
  chain !! i = Some b -> List.nth i chain Undefined = b.
Proof. intros H. rewrite nth_lookup, H. reflexivity. Qed.

(** The outcome of the loop body from the outcomes of its three checks. *)
Lemma checkBlock_eval chain secret i b h stored linked expected signature :
  chain !! i = Some b ->
  calculateHash b = Normal h ->
  Get b "currentHash" = Normal stored ->
  linkedToPrevious chain i b = Normal linked ->
  signRecord b secret = Normal expected ->
  Get b "signature" = Normal signature ->
  checkBlock chain secret i
  = Normal (if negb (strict_eq (Str h) stored) then Some (HashMismatch i)
            else if negb linked then Some (BrokenLink i)
            else if negb (strict_eq (Str expected) signature) then Some (SignatureInvalid i)
            else None).
Proof.
  intros Hb Hh Hcur Hlink Hsign Hsig. unfold checkBlock.
  rewrite (nth_lookup_Some_eq _ _ _ Hb), Hh. cbn [bind]. rewrite Hcur. cbn [bind].
  destruct (negb (strict_eq (Str h) stored)); [reflexivity|].
  rewrite Hlink. cbn [bind]. destruct (negb linked); [reflexivity|].
  rewrite Hsign. cbn [bind]. rewrite Hsig. cbn [bind].
  destruct (negb (strict_eq (Str expected) signature)); reflexivity.
Qed.


Lemma linkedToPrevious_sealed secrets chain i b :
  sealed secrets chain -> chain !! i = Some b ->
  linkedToPrevious chain i b = Normal true.
Proof.
  intros [Hlen Hh Hs Hf Hl] Hb. unfold linkedToPrevious.
  destruct i as [|i]; [reflexivity|]. cbn [Nat.ltb Nat.leb].
  destruct (chain !! i) as [p|] eqn:Hp.
  2:{ apply lookup_lt_Some in Hb. apply lookup_ge_None in Hp. lia. }
  replace (S i - 1) with i by lia. rewrite (nth_lookup_Some_eq _ _ _ Hp).
  rewrite (Hl _ _ _ Hb Hp).
  destruct (Hh _ _ Hp) as (pprops & ph & -> & _ & Hpcur).
  cbn [Get bind]. rewrite Hpcur. cbn [strict_eq]. now rewrite String.eqb_refl.
Qed.

Lemma checkBlock_sealed secrets chain secret i :
  sealed secrets chain -> secrets !! i = Some secret ->
  checkBlock chain secret i = Normal None.
Proof.
  intros Hsealed Hsi.
  destruct (chain !! i) as [b|] eqn:Hb.
  2:{ apply lookup_lt_Some in Hsi. apply lookup_ge_None in Hb.
      rewrite (sealed_length _ _ Hsealed) in Hsi. lia. }
  destruct (sealed_hash _ _ Hsealed _ _ Hb) as (props & h & -> & Hhash & Hcur).
  destruct (sealed_sig _ _ Hsealed _ _ _ Hb Hsi) as (signature & Hsign & Hsig).
  rewrite (checkBlock_eval _ _ _ _ h (Str h) true signature (Str signature) Hb); auto.
  - cbn [strict_eq]. rewrite !String.eqb_refl. reflexivity.
  - cbn [Get]. now rewrite Hcur.
  - eapply linkedToPrevious_sealed; eauto.
Qed.

Lemma validate_sealed secrets chain secret :
  sealed secrets chain -> Forall (eq secret) secrets ->
  validate chain secret = Normal (match chain with [] => Empty | _ => Valid end).
Proof.
  intros Hsealed Hall. unfold validate.
  destruct chain as [|b chain]; [reflexivity|].
  cbn [length Nat.eqb]. apply validateFrom_pass. intros j Hj.
  destruct (secrets !! j) as [s|] eqn:Hs.
  - rewrite Forall_lookup in Hall. rewrite <- (Hall _ _ Hs) in Hs.
    eapply checkBlock_sealed; eauto.
  - apply lookup_ge_None in Hs. rewrite (sealed_length _ _ Hsealed) in Hs.
    cbn [length] in Hs. lia.
Qed.


(** C2 (amended). Chain linkage: in a chain built by [addBlock] calls that
    are each given a new object, one that is not yet a block of the chain,
    the first block stores the sentinel "0" as [previousHash], and every
    later block stores the [currentHash] string of the block before it. *)
Theorem chain_linkage secrets chain :
  built secrets chain ->
  (forall b, chain !! 0 = Some b -> Get b "previousHash" = Normal (Str "0"))
  /\ (forall i b p, 1 <= i -> chain !! i = Some b -> chain !! (i - 1) = Some p ->
       exists h, Get p "currentHash" = Normal (Str h)
                 /\ Get b "previousHash" = Normal (Str h)).
Proof.
  intros Hb. apply built_sealed in Hb. destruct Hb as [Hlen Hh Hs Hf Hl].
  split; [exact Hf|].
  intros i b p Hi Hib Hip. destruct i as [|i]; [lia|].
  replace (S i - 1) with i in Hip by lia.
  destruct (Hh _ _ Hip) as (props & h & -> & _ & Hcur).
  exists h. rewrite (Hl _ _ _ Hib Hip). cbn [Get]. now rewrite Hcur.
Qed.

(** *** Tampering with one block *)

Lemma validateChain_validate secret st r :
  validate (blockchain st) secret = Normal r ->
  fst (validateChain secret st) = Normal (message r).
Proof. intros H. unfold validateChain. cbn [fst]. now rewrite H. Qed.

Lemma checkBlock_agree chain chain' secret k j :
  (forall i, i < k -> chain' !! i = chain !! i) -> j < k ->
  checkBlock chain' secret j = checkBlock chain secret j.
Proof.
  intros H Hj. apply checkBlock_ext; rewrite !nth_lookup; rewrite H by lia; reflexivity.
Qed.

Lemma linkedToPrevious_agree chain chain' k b :
  (forall i, i < k -> chain' !! i = chain !! i) ->
  linkedToPrevious chain' k b = linkedToPrevious chain k b.
Proof.
  intros H. unfold linkedToPrevious. destruct k as [|k]; [reflexivity|].
  rewrite !nth_lookup. rewrite H by lia. reflexivity.
Qed.

(** The blocks before the first difference pass as before, so the outcome
    is that of the block at [k]. *)
Lemma validate_tampered secrets chain chain' secret k r :
  sealed secrets chain ->
  (forall j, j < k -> secrets !! j = Some secret) ->
  (forall i, i < k -> chain' !! i = chain !! i) ->
  k < length chain' ->
  checkBlock chain' secret k = Normal (Some r) ->
  validate chain' secret = Normal r.
Proof.
  intros Hsealed Hsecrets Hagree Hk Hfail.
  apply validate_first_failure with (k := k); [exact Hk| |exact Hfail].
  intros j Hj. rewrite (checkBlock_agree chain chain' secret k j) by auto.
  eapply checkBlock_sealed; eauto.
Qed.

Lemma insert_agree (chain : list value) k b' :
  forall i, i < k -> <[k:=b']> chain !! i = chain !! i.
Proof. intros i Hi. apply list_lookup_insert_ne. lia. Qed.

Lemma Forall_eq_lookup (secrets : list string) secret j :
  Forall (eq secret) secrets -> j < length secrets -> secrets !! j = Some secret.
Proof.
  intros Hall Hj. destruct (secrets !! j) as [s|] eqn:Hs.
  - rewrite Forall_lookup in Hall. now rewrite (Hall _ _ Hs).
  - apply lookup_ge_None in Hs. lia.
Qed.

Lemma calculateHash_Obj props : exists h, calculateHash (Obj props) = Normal h.
Proof. eexists. reflexivity. Qed.

(** C4. The digest of a block does not depend on its [signature] field;
    hence, in a chain built under one secret, replacing the signature of
    block [k] by another value passes the hash check at [k] and is reported
    as an invalid signature at [k], not as a hash mismatch. *)
Theorem signature_outside_digest :
  (forall block v, calculateHash (setField "signature" v block) = calculateHash block)
  /\ (forall secrets secret st k b v,
        built secrets (blockchain st) ->
        Forall (eq secret) secrets ->
        blockchain st !! k = Some b ->
        Get b "signature" <> Normal v ->
        let tampered := set_blockchain (<[k:=setField "signature" v b]> (blockchain st)) st in
        fst (validateChain secret tampered) = Normal (message (SignatureInvalid k))).
Proof.
  split.
  - intros [| | | | | |props] v; try reflexivity.
    cbn [setField]. apply calculateHash_put. simpl. intuition discriminate.
  - intros secrets secret st k b v Hb Hall Hk Hne tampered.
    apply validateChain_validate. unfold tampered. cbn [blockchain set_blockchain].
    apply built_sealed in Hb.
    pose proof (lookup_lt_Some _ _ _ Hk) as Hlt.
    destruct (sealed_hash _ _ Hb _ _ Hk) as (props & h & -> & Hhash & Hcur).
    assert (Hsk : secrets !! k = Some secret).
    { apply Forall_eq_lookup; auto. rewrite (sealed_length _ _ Hb). exact Hlt. }
    destruct (sealed_sig _ _ Hb _ _ _ Hk Hsk) as (signature & Hsign & Hsig).
    apply validate_tampered with (secrets := secrets) (chain := blockchain st) (k := k); auto.
    + intros j Hj. apply Forall_eq_lookup; auto. rewrite (sealed_length _ _ Hb). lia.
    + apply insert_agree.
    + now rewrite length_insert.
    + cbn [setField].
      rewrite (checkBlock_eval _ _ _ (Obj (put "signature" v props)) h (Str h) true signature v).
      * rewrite strict_eq_refl_str. cbn [negb].
        destruct (strict_eq (Str signature) v) eqn:E; [|reflexivity].
        apply strict_eq_str in E. subst v. contradiction.
      * now apply list_lookup_insert_eq.
      * rewrite calculateHash_put; [exact Hhash|]. simpl. intuition discriminate.
      * cbn [Get]. rewrite lookup_put_ne by discriminate. now rewrite Hcur.
      * rewrite (linkedToPrevious_agree (blockchain st) _ k) by apply insert_agree.
        unfold linkedToPrevious. cbn [Get]. rewrite lookup_put_ne by discriminate.
        exact (linkedToPrevious_sealed _ _ _ _ Hb Hk).
      * rewrite signRecord_put; [exact Hsign|]. simpl. intuition discriminate.
      * cbn [Get]. now rewrite lookup_put_eq.
Qed.

(** C5. Link tampering: in a chain built under one secret, give block [k]
    (k > 0) another [previousHash] and recompute its [currentHash] so that
    its hash check passes; validation reports a broken link at [k]. The
    scan stops there: whatever stands after block [k] has no influence. *)
Theorem link_tamper_detected secrets secret st k b v h' later :
  built secrets (blockchain st) ->
  Forall (eq secret) secrets ->
  0 < k ->
  blockchain st !! k = Some b ->
  Get b "previousHash" <> Normal v ->
  calculateHash (setField "previousHash" v b) = Normal h' ->
  let b' := setField "currentHash" (Str h') (setField "previousHash" v b) in
  fst (validateChain secret (set_blockchain (<[k:=b']> (blockchain st)) st))
  = Normal (message (BrokenLink k))
  /\ fst (validateChain secret (set_blockchain (take k (blockchain st) ++ b' :: later) st))
     = Normal (message (BrokenLink k)).
Proof.
  intros Hb Hall Hpos Hk Hne Hh' b'.
  apply built_sealed in Hb.
  pose proof (lookup_lt_Some _ _ _ Hk) as Hlt.
  destruct (sealed_hash _ _ Hb _ _ Hk) as (props & h & -> & Hhash & Hcur).
  assert (Hsecrets : forall j, j < k -> secrets !! j = Some secret).
  { intros j Hj. apply Forall_eq_lookup; auto. rewrite (sealed_length _ _ Hb). lia. }
  assert (Hcheck : forall chain',
             (forall i, i < k -> chain' !! i = blockchain st !! i) ->
             chain' !! k = Some b' ->
             checkBlock chain' secret k = Normal (Some (BrokenLink k))).
  { intros chain' Hagree Hk'. unfold checkBlock.
    rewrite (nth_lookup_Some_eq _ _ _ Hk'). unfold b' at 1. cbn [setField] in Hh' |- *.
    rewrite calculateHash_put by (simpl; intuition discriminate).
    rewrite Hh'. cbn [bind]. unfold b' at 1. cbn [setField Get]. rewrite lookup_put_eq.
    cbn [bind]. rewrite strict_eq_refl_str. cbn [negb].
    rewrite (linkedToPrevious_agree (blockchain st) _ k) by exact Hagree.
    unfold linkedToPrevious. destruct k as [|k]; [lia|]. cbn [Nat.ltb Nat.leb].
    replace (S k - 1) with k by lia.
    destruct (blockchain st !! k) as [p|] eqn:Hp.
    2:{ apply lookup_ge_None in Hp. lia. }
    rewrite (nth_lookup_Some_eq _ _ _ Hp).
    destruct (sealed_hash _ _ Hb _ _ Hp) as (pprops & ph & -> & _ & Hpcur).
    pose proof (sealed_link _ _ Hb _ _ _ Hk Hp) as Hlink. cbn [Get] in Hlink.
    unfold b'. cbn [setField Get bind].
    rewrite lookup_put_ne by discriminate. rewrite lookup_put_eq. rewrite Hpcur.
    destruct (strict_eq v (Str ph)) eqn:E; [|reflexivity].
    apply strict_eq_str_r in E. subst v. exfalso. apply Hne. cbn [Get].
    rewrite Hlink, Hpcur. reflexivity. }
  split; apply validateChain_validate; cbn [blockchain set_blockchain].
  - apply validate_tampered with (secrets := secrets) (chain := blockchain st) (k := k); auto.
    + apply insert_agree.
    + now rewrite length_insert.
    + apply Hcheck; [apply insert_agree|]. now apply list_lookup_insert_eq.
  - assert (Hlen : length (take k (blockchain st)) = k) by (rewrite length_take; lia).
    assert (Hagree : forall i, i < k ->
               (take k (blockchain st) ++ b' :: later)%list !! i = blockchain st !! i).
    { intros i Hi. rewrite lookup_app_l by lia. now apply lookup_take_lt. }
    apply validate_tampered with (secrets := secrets) (chain := blockchain st) (k := k); auto.
    + rewrite length_app. cbn [length]. lia.
    + apply Hcheck; [exact Hagree|].
      rewrite lookup_app_r by lia. rewrite Hlen, Nat.sub_diag. reflexivity.
Qed.

(** *** Validating under another secret *)



(** *** Determinism of the encoding and of the digest *)

(** C9. Determinism: two blocks whose hashed fields are pairwise equal, once
    an absent description or remarks is replaced by the empty string, have
    the same canonical encoding and the same digest; and [sha256] depends on
    its message through the encoded bytes only. *)
Theorem hash_deterministic :
  (forall r1 r2,
      (forall f, In f hashedFields -> hashedValue r1 f = hashedValue r2 f) ->
      canonicalText r1 = canonicalText r2 /\ calculateHash r1 = calculateHash r2)
  /\ (forall m1 m2,
        TextEncoder_encode m1 = TextEncoder_encode m2 ->
        sha256 digest m1 = sha256 digest m2).
Proof.
  split.
  - intros r1 r2 H.
    assert (Htext : canonicalText r1 = canonicalText r2).
    { pose proof (H "propertyID" ltac:(simpl; tauto)) as H1.
      pose proof (H "owner" ltac:(simpl; tauto)) as H2.
      pose proof (H "description" ltac:(simpl; tauto)) as H3.
      pose proof (H "remarks" ltac:(simpl; tauto)) as H4.
      pose proof (H "action" ltac:(simpl; tauto)) as H5.
      pose proof (H "timestamp" ltac:(simpl; tauto)) as H6.
      pose proof (H "previousHash" ltac:(simpl; tauto)) as H7.
      unfold hashedValue in *. unfold canonicalText.
      destruct (Get r1 "propertyID"), (Get r2 "propertyID"); cbn in H1; cbn [bind];
        try discriminate; [|congruence].
      destruct (Get r1 "owner"), (Get r2 "owner"); cbn in H2; cbn [bind];
        try discriminate; [|congruence].
      destruct (Get r1 "description"), (Get r2 "description"); cbn in H3; cbn [bind];
        try discriminate; [|congruence].
      destruct (Get r1 "remarks"), (Get r2 "remarks"); cbn in H4; cbn [bind];
        try discriminate; [|congruence].
      destruct (Get r1 "action"), (Get r2 "action"); cbn in H5; cbn [bind];
        try discriminate; [|congruence].
      destruct (Get r1 "timestamp"), (Get r2 "timestamp"); cbn in H6; cbn [bind];
        try discriminate; [|congruence].
      destruct (Get r1 "previousHash"), (Get r2 "previousHash"); cbn in H7; cbn [bind];
        try discriminate; [|congruence].
      congruence. }
    split; [exact Htext|]. unfold calculateHash. now rewrite Htext.
  - intros m1 m2 H. unfold sha256. now rewrite H.
Qed.

(** *** The chain only grows *)




Lemma showTimeline_state propertyID st : snd (showTimeline propertyID st) = st.
Proof. unfold showTimeline. destruct (timelineBlocks _ _); reflexivity. Qed.


(** *** Import *)

(** C7. Import atomicity, for every text the file can hold: when the text
    is not valid JSON, or is JSON whose top-level value is not an array, the
    import only adds an error alert and the chain stays exactly as it was;
    the chain is replaced, by the parsed array as a whole, when the text
    parses to an array. *)
Theorem import_atomic text st :
  let st' := loadLedgerFromFile text st in
  (JSON_parse text = Malformed ->
   st' = add_alert (AlertError "Error reading ledger file: " SyntaxError) st
   /\ blockchain st' = blockchain st)
  /\ (forall v, JSON_parse text = Parsed v -> isArray v = false ->
       st' = add_alert (Alert "Invalid file format: expected an array.") st
       /\ blockchain st' = blockchain st)
  /\ (forall elems, JSON_parse text = Parsed (Arr elems) -> blockchain st' = elems)
  /\ (blockchain st' <> blockchain st ->
      exists elems, JSON_parse text = Parsed (Arr elems) /\ blockchain st' = elems).
Proof.
  intros st'. assert (H : loadLedgerFromFile text st = st') by reflexivity.
  clearbody st'. unfold loadLedgerFromFile in H.
  assert (Harr : forall elems, JSON_parse text = Parsed (Arr elems) -> blockchain st' = elems).
  { intros elems Hp. rewrite Hp in H.
    destruct (renderLedger _); [|subst st'; reflexivity].
    pose proof (updateStats_blockchain (set_blockchain elems st)) as Hst.
    destruct (updateStats _) as [[u|e] st2]; subst st'; exact Hst. }
  destruct (JSON_parse text) as [parsed|] eqn:Hp.
  - destruct (isArray parsed) eqn:Hisarr.
    + destruct parsed as [| |x|x|x|elems|props]; try discriminate.
      split; [discriminate|]. split; [|split].
      * intros w Hw Hnot. injection Hw as <-. discriminate.
      * exact Harr.
      * intros _. exists elems. split; [reflexivity|]. now apply Harr.
    + assert (Hst : st' = add_alert (Alert "Invalid file format: expected an array.") st).
      { destruct parsed as [| |x|x|x|elems|props]; try discriminate; now subst st'. }
      subst st'. split; [discriminate|]. split; [|split].
      * intros w Hw Hnot. split; [exact Hst|rewrite Hst; reflexivity].
      * intros elems Hparsed. injection Hparsed as ->. discriminate.
      * intros Hne. exfalso. apply Hne. rewrite Hst. reflexivity.
  - subst st'. split; [|split; [|split]].
    + intros _. split; reflexivity.
    + discriminate.
    + discriminate.
    + intros Hne. exfalso. apply Hne. reflexivity.
Qed.

(** *** [JSON.parse] reads back what [JSON.stringify] writes *)

Lemma skip_ws_blank w s : blank w = true -> skip_ws (w ++ s) = skip_ws s.
Proof.
  induction w as [|c w IH]; simpl; intros H; [reflexivity|].
  apply andb_true_iff in H as [Hc Hw]. rewrite Hc. auto.
Qed.

Lemma blank_app a b : blank a = true -> blank b = true -> blank (a ++ b) = true.
Proof.
  induction a as [|c a IH]; simpl; intros Ha Hb; [exact Hb|].
  apply andb_true_iff in Ha as [Hc Ha]. rewrite Hc. simpl. auto.
Qed.

(** Strings *)

Lemma hex_value_hexDigit n : (n < 16)%N -> hex_value (hexDigit n) = Some n.
Proof.
  intros H.
  assert (Hn : In n [0; 1; 2; 3; 4; 5; 6; 7; 8; 9; 10; 11; 12; 13; 14; 15]%N).
  { cbn [In]. lia. }
  cbn [In] in Hn. repeat (destruct Hn as [<-|Hn]; [reflexivity|]). destruct Hn.
Qed.

Lemma lex_quote_char c tail :
  lex_string Plain (quote_char c ++ tail) = emit (String c EmptyString) (lex_string Plain tail).
Proof.
  destruct c as [[] [] [] [] [] [] [] []]; reflexivity.
Qed.

Lemma lex_quote_char_Pair h c tail :
  lex_string (Pair h) (quote_char c ++ tail)
  = emit (utf8 h ++ String c EmptyString) (lex_string Plain tail).
Proof.
  destruct c as [[] [] [] [] [] [] [] []]; reflexivity.
Qed.

Lemma hex4_value n :
  (n < 65536)%N ->
  ((((n / 4096 mod 16) * 16 + n / 256 mod 16) * 16 + n / 16 mod 16) * 16 + n mod 16 = n)%N.
Proof.
  intros H.
  replace (n / 256)%N with (n / 16 / 16)%N by (rewrite N.Div0.div_div; reflexivity).
  replace (n / 4096)%N with (n / 16 / 16 / 16)%N by (rewrite !N.Div0.div_div; reflexivity).
  pose proof (N.div_mod n 16 ltac:(lia)) as H1.
  pose proof (N.div_mod (n / 16) 16 ltac:(lia)) as H2.
  pose proof (N.div_mod (n / 16 / 16) 16 ltac:(lia)) as H3.
  pose proof (N.mod_lt n 16 ltac:(lia)).
  pose proof (N.mod_lt (n / 16) 16 ltac:(lia)).
  pose proof (N.mod_lt (n / 16 / 16) 16 ltac:(lia)).
  assert (n / 16 / 16 / 16 < 16)%N.
  { rewrite !N.Div0.div_div. apply N.Div0.div_lt_upper_bound. simpl. lia. }
  rewrite (N.mod_small (n / 16 / 16 / 16) 16) by assumption.
  lia.
Qed.

Lemma lex_hex4 pending cu t :
  (cu < 65536)%N -> lex_string (Hex 4 0 pending) (hex4 cu ++ t) = escaped pending cu t.
Proof.
  intros H. unfold hex4. cbn [append lex_string].
  assert (Hd : forall n, hex_value (hexDigit (n mod 16)) = Some (n mod 16)%N).
  { intros n. apply hex_value_hexDigit. apply N.mod_lt. lia. }
  rewrite !Hd. cbv zeta. rewrite N.mul_0_l, N.add_0_l.
  rewrite hex4_value by exact H. reflexivity.
Qed.

Lemma surrogate_bounds c1 c2 c3 :
  surrogate c1 c2 c3 = true ->
  (N_of_ascii c1 = 237 /\ 160 <= N_of_ascii c2 <= 191 /\ 128 <= N_of_ascii c3 <= 191)%N.
Proof.
  unfold surrogate. intros H.
  repeat (apply andb_true_iff in H as [H ?]).
  apply N.eqb_eq in H. repeat match goal with X : (_ <=? _)%N = true |- _ => apply N.leb_le in X end.
  lia.
Qed.

Lemma code_unit_small c1 c2 c3 : surrogate c1 c2 c3 = true -> (code_unit c1 c2 c3 < 65536)%N.
Proof. intros H. apply surrogate_bounds in H. unfold code_unit. lia. Qed.

Lemma utf8_code_unit c1 c2 c3 :
  surrogate c1 c2 c3 = true ->
  utf8 (code_unit c1 c2 c3) = String c1 (String c2 (String c3 EmptyString)).
Proof.
  intros H. apply surrogate_bounds in H as (H1 & H2 & H3).
  unfold utf8, code_unit.
  set (cu := ((N_of_ascii c1 - 224) * 4096 + (N_of_ascii c2 - 128) * 64 + (N_of_ascii c3 - 128))%N).
  assert (Hcu : (cu = 4096 * 13 + (64 * (N_of_ascii c2 - 128) + (N_of_ascii c3 - 128)))%N)
    by (unfold cu; lia).
  assert (Hq : (cu / 4096 = 13)%N).
  { symmetry. apply (N.div_unique cu 4096 13 (64 * (N_of_ascii c2 - 128) + (N_of_ascii c3 - 128))); lia. }
  assert (Hr : (cu mod 64 = N_of_ascii c3 - 128)%N).
  { symmetry. apply (N.mod_unique cu 64 (64 * 13 + (N_of_ascii c2 - 128))); lia. }
  assert (Hm : (cu / 64 = 64 * 13 + (N_of_ascii c2 - 128))%N).
  { symmetry. apply (N.div_unique cu 64 _ (N_of_ascii c3 - 128)); lia. }
  assert (Hmm : (cu / 64 mod 64 = N_of_ascii c2 - 128)%N).
  { rewrite Hm. symmetry. apply (N.mod_unique _ 64 13); lia. }
  destruct (cu <? 128)%N eqn:E1; [apply N.ltb_lt in E1; lia|].
  destruct (cu <? 2048)%N eqn:E2; [apply N.ltb_lt in E2; lia|].
  destruct (cu <? 65536)%N eqn:E3; [|apply N.ltb_ge in E3; lia].
  rewrite Hq, Hr, Hmm. unfold char_of.
  replace (224 + 13)%N with (N_of_ascii c1) by lia.
  replace (128 + (N_of_ascii c2 - 128))%N with (N_of_ascii c2) by lia.
  replace (128 + (N_of_ascii c3 - 128))%N with (N_of_ascii c3) by lia.
  now rewrite !ascii_N_embedding.
Qed.

Lemma surrogate_kind c1 c2 c3 :
  surrogate c1 c2 c3 = true ->
  is_high_surrogate (code_unit c1 c2 c3) = negb (is_low_surrogate (code_unit c1 c2 c3)).
Proof.
  intros H. apply surrogate_bounds in H as (H1 & H2 & H3).
  unfold is_high_surrogate, is_low_surrogate, code_unit.
  repeat match goal with
         | |- context [(?a <=? ?b)%N] => destruct (N.leb_spec a b)
         | |- context [(?a <? ?b)%N] => destruct (N.ltb_spec a b)
         end; simpl; try reflexivity; lia.
Qed.

Lemma lex_quote_chars_both n : forall s rest,
  String.length s <= n -> canonical s = true ->
  lex_string Plain (quote_chars s ++ String dquote rest) = Parsed (s, rest)
  /\ forall h, low_at s = false ->
       lex_string (Pair h) (quote_chars s ++ String dquote rest) = Parsed (utf8 h ++ s, rest).
Proof.
  induction n as [|n IH]; intros s rest Hlen Hcan.
  { destruct s; [|simpl in Hlen; lia]. split; [reflexivity|].
    intros h _. cbn. now rewrite append_nil_r. }
  destruct s as [|c1 tail].
  { split; [reflexivity|]. intros h _. cbn. now rewrite append_nil_r. }
  assert (Hplain : canonical tail = true ->
            quote_chars (String c1 tail) = quote_char c1 ++ quote_chars tail ->
            lex_string Plain (quote_chars (String c1 tail) ++ String dquote rest)
            = Parsed (String c1 tail, rest)
            /\ forall h, lex_string (Pair h) (quote_chars (String c1 tail) ++ String dquote rest)
                         = Parsed (utf8 h ++ String c1 tail, rest)).
  { intros Ht Hq. destruct (IH tail rest) as [IHp _]; [simpl in Hlen; lia|exact Ht|].
    rewrite Hq, append_assoc. split.
    - rewrite lex_quote_char, IHp. reflexivity.
    - intros h. rewrite lex_quote_char_Pair, IHp. cbn [emit].
      now rewrite append_assoc. }
  destruct tail as [|c2 [|c3 rest3]].
  - destruct (Hplain eq_refl eq_refl) as [Hp Hq]. split; [exact Hp|]. intros h _. apply Hq.
  - destruct (Hplain Hcan eq_refl) as [Hp Hq]. split; [exact Hp|]. intros h _. apply Hq.
  - cbn [canonical] in Hcan. cbn [quote_chars low_at].
    destruct (surrogate c1 c2 c3) eqn:Hs.
    + apply andb_true_iff in Hcan as [Hpair Hcan]. apply negb_true_iff in Hpair.
      destruct (IH rest3 rest) as [IHp IHq]; [simpl in Hlen; lia|exact Hcan|].
      pose proof (code_unit_small _ _ _ Hs) as Hsmall.
      pose proof (utf8_code_unit _ _ _ Hs) as Hutf.
      pose proof (surrogate_kind _ _ _ Hs) as Hkind.
      set (cu := code_unit c1 c2 c3) in *.
      cbn [append]. split.
      * cbn [lex_string Ascii.eqb Bool.eqb dquote backslash].
        rewrite append_assoc, lex_hex4 by exact Hsmall. cbn [escaped].
        destruct (is_high_surrogate cu) eqn:Hh.
        -- cbn [andb] in Hpair. rewrite IHq by exact Hpair. rewrite Hutf. reflexivity.
        -- rewrite IHp. cbn [emit]. rewrite Hutf. reflexivity.
      * intros h Hlow. cbn [andb] in Hlow.
        cbn [lex_string Ascii.eqb Bool.eqb dquote backslash].
        rewrite append_assoc, lex_hex4 by exact Hsmall. cbn [escaped].
        rewrite Hlow. rewrite Hlow in Hkind. cbn [negb] in Hkind. rewrite Hkind.
        rewrite Hkind in Hpair. cbn [andb] in Hpair.
        rewrite IHq by exact Hpair. cbn [emit]. rewrite Hutf.
        reflexivity.
    + destruct (Hplain Hcan) as [Hp Hq].
      { cbn [quote_chars]. now rewrite Hs. }
      cbn [quote_chars] in Hp, Hq. rewrite Hs in Hp, Hq.
      split; [exact Hp|]. intros h _. apply Hq.
Qed.

Lemma lex_quote_chars s rest :
  canonical s = true ->
  lex_string Plain (quote_chars s ++ String dquote rest) = Parsed (s, rest).
Proof. intros H. now apply (lex_quote_chars_both (String.length s)). Qed.

(** Numbers *)

Lemma stops_digit c r : stops (String c r) = true -> is_digit c = false.
Proof. cbn [stops]. intros H. apply negb_true_iff in H. now destruct (is_digit c). Qed.

Lemma span_app p s a b rest :
  span p s = (a, b) ->
  (b = EmptyString -> match rest with String c _ => p c = false | EmptyString => True end) ->
  span p (s ++ rest) = (a, b ++ rest).
Proof.
  revert a b. induction s as [|c s IH]; intros a b Hs Hrest.
  - injection Hs as <- <-. specialize (Hrest eq_refl). cbn [append].
    destruct rest as [|c r]; [reflexivity|]. cbn [span]. now rewrite Hrest.
  - cbn [span append] in *. destruct (p c).
    + destruct (span p s) as [a' b'] eqn:E. injection Hs as <- <-.
      now rewrite (IH a' b' eq_refl Hrest).
    + injection Hs as <- <-. reflexivity.
Qed.

Lemma span_digits_app s a b rest :
  span is_digit s = (a, b) -> stops rest = true ->
  span is_digit (s ++ rest) = (a, b ++ rest).
Proof.
  intros Hs Hrest. apply span_app; [exact Hs|]. intros _.
  destruct rest as [|c r]; [exact I|]. now apply stops_digit in Hrest.
Qed.

Lemma lex_fraction_app s f b rest :
  lex_fraction s = Parsed (f, b) -> stops rest = true ->
  lex_fraction (s ++ rest) = Parsed (f, b ++ rest).
Proof.
  intros Hs Hrest. destruct s as [|c r].
  - injection Hs as <- <-. cbn [append]. destruct rest as [|c r]; [reflexivity|].
    cbn [stops] in Hrest. apply negb_true_iff in Hrest.
    cbn [lex_fraction]. destruct (c =? ".")%char; [|reflexivity].
    rewrite !orb_true_r in Hrest. simpl in Hrest. destruct (is_digit c); discriminate.
  - cbn [lex_fraction append] in *. destruct (c =? ".")%char.
    + destruct (span is_digit r) as [a b'] eqn:E.
      rewrite (span_digits_app _ _ _ _ E Hrest).
      destruct a; [discriminate|]. now injection Hs as <- <-.
    + now injection Hs as <- <-.
Qed.

Lemma lex_exponent_app s e b rest :
  lex_exponent s = Parsed (e, b) -> stops rest = true ->
  lex_exponent (s ++ rest) = Parsed (e, b ++ rest).
Proof.
  intros Hs Hrest. destruct s as [|c r].
  - injection Hs as <- <-. cbn [append]. destruct rest as [|c r]; [reflexivity|].
    cbn [stops] in Hrest. apply negb_true_iff in Hrest.
    cbn [lex_exponent].
    destruct (c =? "e")%char; [now rewrite !orb_true_r in Hrest|].
    destruct (c =? "E")%char; [now rewrite !orb_true_r in Hrest|]. reflexivity.
  - cbn [lex_exponent append] in *. destruct ((c =? "e")%char || (c =? "E")%char).
    + destruct r as [|d r'].
      * cbn in Hs. discriminate.
      * cbn [append]. destruct (d =? "-")%char.
        -- destruct (span is_digit r') as [a b'] eqn:E.
           rewrite (span_digits_app _ _ _ _ E Hrest).
           destruct a; [discriminate|]. now injection Hs as <- <-.
        -- destruct (d =? "+")%char.
           ++ destruct (span is_digit r') as [a b'] eqn:E.
              rewrite (span_digits_app _ _ _ _ E Hrest).
              destruct a; [discriminate|]. now injection Hs as <- <-.
           ++ destruct (span is_digit (String d r')) as [a b'] eqn:E.
              change (String d (r' ++ rest)) with (String d r' ++ rest).
              rewrite (span_digits_app _ _ _ _ E Hrest).
              destruct a; [discriminate|]. now injection Hs as <- <-.
    + now injection Hs as <- <-.
Qed.

Lemma lex_magnitude_app negative s v b rest :
  lex_magnitude negative s = Parsed (v, b) -> stops rest = true ->
  lex_magnitude negative (s ++ rest) = Parsed (v, b ++ rest).
Proof.
  unfold lex_magnitude.
  intros Hs Hrest. destruct s as [|c r]; [discriminate|]. cbn [append].
  destruct (is_digit c); [|discriminate].
  assert (Hint : forall int r1,
            (if (c =? "0")%char then ("0", r) else span is_digit (String c r)) = (int, r1) ->
            (if (c =? "0")%char then ("0", r ++ rest)
             else span is_digit (String c (r ++ rest))) = (int, r1 ++ rest)).
  { intros int r1. destruct (c =? "0")%char.
    - intros H. now injection H as <- <-.
    - intros H. change (String c (r ++ rest)) with (String c r ++ rest).
      now apply span_digits_app. }
  destruct (if (c =? "0")%char then ("0", r) else span is_digit (String c r)) as [int r1].
  rewrite (Hint int r1 eq_refl).
  destruct (lex_fraction r1) as [[f r2]|] eqn:Ef; [|discriminate].
  rewrite (lex_fraction_app _ _ _ _ Ef Hrest). cbn [pbind] in *.
  destruct (lex_exponent r2) as [[e r3]|] eqn:Ee; [|discriminate].
  rewrite (lex_exponent_app _ _ _ _ Ee Hrest). cbn [pbind] in *.
  now injection Hs as <- <-.
Qed.

Lemma lex_number_app s v b rest :
  lex_number s = Parsed (v, b) -> stops rest = true ->
  lex_number (s ++ rest) = Parsed (v, b ++ rest).
Proof.
  unfold lex_number. intros Hs Hrest. destruct s as [|c r]; [discriminate|].
  cbn [append]. destruct (c =? "-")%char.
  - now apply lex_magnitude_app.
  - now apply (lex_magnitude_app false (String c r)).
Qed.

Lemma lex_number_head s r :
  lex_number s = Parsed r ->
  exists c t, s = String c t /\ ((c =? "-")%char || is_digit c) = true.
Proof.
  unfold lex_number. destruct s as [|c t]; [discriminate|]. intros H.
  exists c, t. split; [reflexivity|]. destruct (c =? "-")%char; [reflexivity|].
  cbn [orb]. unfold lex_magnitude in H. destruct (is_digit c); [reflexivity|discriminate].
Qed.

Lemma number_head c :
  ((c =? "-")%char || is_digit c) = true ->
  is_ws c = false /\ (c =? "]")%char = false /\ (c =? "}")%char = false
  /\ forall pe pm t, dispatch pe pm (String c t) = lex_number (String c t).
Proof.
  destruct c as [[] [] [] [] [] [] [] []]; try discriminate; intros _;
    repeat split; reflexivity.
Qed.

Lemma readsBack_finite x : readsBack x = true -> Number.isFinite x = true.
Proof. destruct x as [s m e|[]]; [reflexivity| |]; discriminate. Qed.

Lemma readsBack_lex x rest :
  readsBack x = true -> stops rest = true ->
  lex_number (Number.toString x ++ rest) = Parsed (Num x, rest).
Proof.
  unfold readsBack. intros H Hrest.
  destruct (lex_number (Number.toString x)) as [[v b]|] eqn:E; [|discriminate].
  destruct v as [| |?|y|?|?|?]; try discriminate.
  destruct b; [|discriminate].
  rewrite (lex_number_app _ _ _ _ E Hrest). cbn [append].
  assert (y = x); [|congruence].
  destruct y as [s m e|s], x as [s' m' e'|s']; cbn [Number.eqb] in H; try discriminate.
  - apply andb_true_iff in H as [H He]. apply andb_true_iff in H as [Hs Hm].
    apply Bool.eqb_prop in Hs. apply N.eqb_eq in Hm. apply Z.eqb_eq in He. congruence.
  - apply Bool.eqb_prop in H. congruence.
Qed.


(** *** The fuel of the parser never runs out *)

Lemma emit_inv out r str rest :
  emit out r = Parsed (str, rest) -> exists str', r = Parsed (str', rest).
Proof. destruct r as [[str' rest']|]; [|discriminate]. intros H. injection H as _ <-. eauto. Qed.

Lemma lex_string_shorter s : forall st str rest,
  lex_string st s = Parsed (str, rest) -> String.length rest < String.length s.
Proof.
  induction s as [|c s IH]; intros st str rest H; [discriminate|].
  assert (Hrec : forall st' out, emit out (lex_string st' s) = Parsed (str, rest) ->
                                 String.length rest < String.length (String c s)).
  { intros st' out He. apply emit_inv in He as [str' He]. apply IH in He. simpl. lia. }
  assert (Hrec' : forall st', lex_string st' s = Parsed (str, rest) ->
                              String.length rest < String.length (String c s)).
  { intros st' He. apply IH in He. simpl. lia. }
  assert (Hnow : forall out, Parsed (out, s) = Parsed (str, rest) ->
                             String.length rest < String.length (String c s)).
  { intros out He. injection He as _ <-. simpl. lia. }
  cbn [lex_string] in H. destruct st as [|pending|k acc pending|high].
  - destruct (c =? dquote)%char; [eauto|].
    destruct (c =? backslash)%char; [eauto|].
    destruct (N_of_ascii c <? 32)%N; [discriminate|eauto].
  - destruct (c =? "u")%char; [eauto|].
    destruct (simple_escape c); [eauto|discriminate].
  - destruct (hex_value c) as [d|]; [|discriminate]. cbv zeta in H.
    destruct k as [|[|k']]; [| |eauto];
      (destruct pending as [high|];
       [destruct (is_low_surrogate _); [eauto|]; destruct (is_high_surrogate _); eauto
       |destruct (is_high_surrogate _); eauto]).
  - destruct (c =? backslash)%char; [eauto|].
    destruct (c =? dquote)%char; [eauto|].
    destruct (N_of_ascii c <? 32)%N; [discriminate|eauto].
Qed.

Lemma span_length p s a b : span p s = (a, b) -> String.length b <= String.length s.
Proof.
  revert a b. induction s as [|c s IH]; intros a b H; cbn [span] in H.
  - injection H as <- <-. simpl. lia.
  - destruct (p c).
    + destruct (span p s) as [a' b'] eqn:E. injection H as <- <-.
      specialize (IH a' b' eq_refl). simpl. lia.
    + injection H as <- <-. lia.
Qed.

Lemma lex_fraction_length s f b :
  lex_fraction s = Parsed (f, b) -> String.length b <= String.length s.
Proof.
  destruct s as [|c r]; cbn [lex_fraction]; intros H.
  - injection H as <- <-. lia.
  - destruct (c =? ".")%char.
    + destruct (span is_digit r) as [a b'] eqn:E. apply span_length in E.
      destruct a; [discriminate|]. injection H as <- <-. simpl. lia.
    + injection H as <- <-. lia.
Qed.

Lemma lex_exponent_length s e b :
  lex_exponent s = Parsed (e, b) -> String.length b <= String.length s.
Proof.
  destruct s as [|c r]; cbn [lex_exponent]; intros H.
  - injection H as <- <-. lia.
  - destruct ((c =? "e")%char || (c =? "E")%char).
    + assert (Hsign : forall negative r1,
                String.length r1 <= String.length r ->
                match span is_digit r1 with
                | (EmptyString, _) => Malformed
                | (ds, rest) =>
                    Parsed (if negative : bool then (- Z.of_N (decimal_value ds))%Z
                            else Z.of_N (decimal_value ds), rest)
                end = Parsed (e, b) ->
                String.length b <= String.length (String c r)).
      { intros negative r1 Hr1 Hs. destruct (span is_digit r1) as [a b'] eqn:E.
        apply span_length in E. destruct a; [discriminate|].
        injection Hs as _ <-. simpl. lia. }
      destruct r as [|d r']; [apply (Hsign false EmptyString); [lia|exact H]|].
      destruct (d =? "-")%char; [apply (Hsign true r'); [simpl; lia|exact H]|].
      destruct (d =? "+")%char;
        [apply (Hsign false r')|apply (Hsign false (String d r'))]; try exact H; simpl; lia.
    + injection H as <- <-. lia.
Qed.

Lemma lex_magnitude_shorter negative s v rest :
  lex_magnitude negative s = Parsed (v, rest) -> String.length rest < String.length s.
Proof.
  unfold lex_magnitude. destruct s as [|c r]; [discriminate|].
  destruct (is_digit c) eqn:Hc; [|discriminate].
  assert (Hint : forall int r1,
            (if (c =? "0")%char then ("0", r) else span is_digit (String c r)) = (int, r1) ->
            String.length r1 <= String.length r).
  { intros int r1. destruct (c =? "0")%char.
    - intros H. injection H as <- <-. lia.
    - cbn [span]. rewrite Hc. destruct (span is_digit r) as [a b'] eqn:E.
      apply span_length in E. intros H. injection H as <- <-. exact E. }
  destruct (if (c =? "0")%char then ("0", r) else span is_digit (String c r)) as [int r1].
  specialize (Hint int r1 eq_refl).
  destruct (lex_fraction r1) as [[f r2]|] eqn:Ef; [|discriminate].
  apply lex_fraction_length in Ef. cbn [pbind].
  destruct (lex_exponent r2) as [[e r3]|] eqn:Ee; [|discriminate].
  apply lex_exponent_length in Ee. cbn [pbind].
  intros H. injection H as _ <-. simpl. lia.
Qed.

Lemma lex_number_shorter s v rest :
  lex_number s = Parsed (v, rest) -> String.length rest < String.length s.
Proof.
  unfold lex_number. destruct s as [|c r]; [discriminate|].
  destruct (c =? "-")%char; intros H; apply lex_magnitude_shorter in H; simpl in *; lia.
Qed.

Lemma skip_ws_length s : String.length (skip_ws s) <= String.length s.
Proof.
  induction s as [|c s IH]; [reflexivity|]. cbn [skip_ws].
  destruct (is_ws c); simpl in *; lia.
Qed.

Lemma strip_prefix_length p : forall s rest,
  p <> EmptyString -> strip_prefix p s = Some rest -> String.length rest < String.length s.
Proof.
  induction p as [|a p IH]; intros s rest Hp H; [contradiction|].
  destruct s as [|b s]; [discriminate|]. cbn [strip_prefix] in H.
  destruct (a =? b)%char; [|discriminate].
  destruct p as [|a' p].
  - injection H as <-. simpl. lia.
  - apply IH in H; [simpl in *; lia|discriminate].
Qed.

Lemma skip_ws_tail s c rest :
  skip_ws s = String c rest -> String.length rest < String.length s.
Proof. intros H. pose proof (skip_ws_length s) as Hl. rewrite H in Hl. simpl in Hl. lia. Qed.

Lemma dispatch_shorter pe pm s v rest :
  (forall r x rest', pe r = Parsed (x, rest') -> String.length rest' < String.length r) ->
  (forall r x rest', pm r = Parsed (x, rest') -> String.length rest' < String.length r) ->
  dispatch pe pm s = Parsed (v, rest) -> String.length rest < String.length s.
Proof.
  intros Hpe Hpm. unfold dispatch.
  destruct (strip_prefix "true" s) as [r|] eqn:Et.
  { intros H. injection H as _ <-. apply strip_prefix_length in Et; [exact Et|discriminate]. }
  destruct (strip_prefix "false" s) as [r|] eqn:Ef.
  { intros H. injection H as _ <-. apply strip_prefix_length in Ef; [exact Ef|discriminate]. }
  destruct (strip_prefix "null" s) as [r|] eqn:En.
  { intros H. injection H as _ <-. apply strip_prefix_length in En; [exact En|discriminate]. }
  destruct s as [|c r]; [discriminate|].
  destruct (c =? dquote)%char.
  { destruct (lex_string Plain r) as [[str r']|] eqn:E; [|discriminate].
    apply lex_string_shorter in E. cbn [pbind]. intros H. injection H as _ <-. simpl. lia. }
  destruct (c =? "[")%char.
  { destruct (skip_ws r) as [|c' r'] eqn:E; [discriminate|]. apply skip_ws_tail in E.
    destruct (c' =? "]")%char.
    - intros H. injection H as _ <-. simpl. lia.
    - destruct (pe r) as [[elems r'']|] eqn:Ee; [|discriminate]. apply Hpe in Ee.
      cbn [pbind]. intros H. injection H as _ <-. simpl. lia. }
  destruct (c =? "{")%char.
  { destruct (skip_ws r) as [|c' r'] eqn:E; [discriminate|]. apply skip_ws_tail in E.
    destruct (c' =? "}")%char.
    - intros H. injection H as _ <-. simpl. lia.
    - destruct (pm r) as [[props r'']|] eqn:Ee; [|discriminate]. apply Hpm in Ee.
      cbn [pbind]. intros H. injection H as _ <-. simpl. lia. }
  destruct ((c =? "-")%char || is_digit c); [|discriminate].
  apply lex_number_shorter.
Qed.

Lemma parse_shorter fuel :
  (forall s v rest, parse_value fuel s = Parsed (v, rest) ->
                    String.length rest < String.length s)
  /\ (forall s v rest, parse_elements fuel s = Parsed (v, rest) ->
                       String.length rest < String.length s)
  /\ (forall s v rest, parse_members fuel s = Parsed (v, rest) ->
                       String.length rest < String.length s).
Proof.
  induction fuel as [|fuel (IHv & IHe & IHm)]; [repeat split; discriminate|].
  split; [|split].
  - intros s v rest H. cbn [parse_value] in H.
    apply dispatch_shorter in H; [|exact IHe|exact IHm].
    pose proof (skip_ws_length s). lia.
  - intros s v rest H. cbn [parse_elements] in H.
    destruct (parse_value fuel s) as [[x r]|] eqn:Ev; [|discriminate]. apply IHv in Ev.
    cbn [pbind] in H. destruct (skip_ws r) as [|c r'] eqn:E; [discriminate|].
    apply skip_ws_tail in E. destruct (c =? ",")%char.
    + destruct (parse_elements fuel r') as [[xs r'']|] eqn:Ee; [|discriminate].
      apply IHe in Ee. cbn [pbind] in H. injection H as _ <-. lia.
    + destruct (c =? "]")%char; [|discriminate]. injection H as _ <-. lia.
  - intros s v rest H. cbn [parse_members] in H.
    destruct (skip_ws s) as [|c r] eqn:E; [discriminate|]. apply skip_ws_tail in E.
    destruct (c =? dquote)%char; [|discriminate].
    destruct (lex_string Plain r) as [[k r1]|] eqn:Ek; [|discriminate].
    apply lex_string_shorter in Ek. cbn [pbind] in H.
    destruct (skip_ws r1) as [|c1 r2] eqn:E1; [discriminate|]. apply skip_ws_tail in E1.
    destruct (c1 =? ":")%char; [|discriminate].
    destruct (parse_value fuel r2) as [[x r3]|] eqn:Ev; [|discriminate]. apply IHv in Ev.
    cbn [pbind] in H. destruct (skip_ws r3) as [|c3 r4] eqn:E3; [discriminate|].
    apply skip_ws_tail in E3. destruct (c3 =? ",")%char.
    + destruct (parse_members fuel r4) as [[ms r5]|] eqn:Em; [|discriminate].
      apply IHm in Em. cbn [pbind] in H. injection H as _ <-. lia.
    + destruct (c3 =? "}")%char; [|discriminate]. injection H as _ <-. lia.
Qed.

Lemma dispatch_ext pe pm pe' pm' s :
  (forall r, String.length r < String.length s -> pe r = pe' r) ->
  (forall r, String.length r < String.length s -> pm r = pm' r) ->
  dispatch pe pm s = dispatch pe' pm' s.
Proof.
  intros He Hm. unfold dispatch.
  destruct (strip_prefix "true" s); [reflexivity|].
  destruct (strip_prefix "false" s); [reflexivity|].
  destruct (strip_prefix "null" s); [reflexivity|].
  destruct s as [|c r]; [reflexivity|].
  destruct (c =? dquote)%char; [reflexivity|].
  destruct (c =? "[")%char.
  { destruct (skip_ws r) as [|c' r']; [reflexivity|].
    destruct (c' =? "]")%char; [reflexivity|]. rewrite He by (simpl; lia). reflexivity. }
  destruct (c =? "{")%char.
  { destruct (skip_ws r) as [|c' r']; [reflexivity|].
    destruct (c' =? "}")%char; [reflexivity|]. rewrite Hm by (simpl; lia). reflexivity. }
  reflexivity.
Qed.

Lemma parse_fuel fuel : forall fuel',
  (forall s, 2 * String.length s + 1 <= fuel -> 2 * String.length s + 1 <= fuel' ->
             parse_value fuel s = parse_value fuel' s)
  /\ (forall s, 2 * String.length s + 2 <= fuel -> 2 * String.length s + 2 <= fuel' ->
                parse_elements fuel s = parse_elements fuel' s)
  /\ (forall s, 2 * String.length s + 2 <= fuel -> 2 * String.length s + 2 <= fuel' ->
                parse_members fuel s = parse_members fuel' s).
Proof.
  induction fuel as [|fuel IH]; intros fuel'.
  { repeat split; intros s H; lia. }
  destruct fuel' as [|fuel'].
  { repeat split; intros s H H'; lia. }
  destruct (IH fuel') as (IHv & IHe & IHm).
  destruct (parse_shorter fuel) as (Sv & Se & Sm).
  split; [|split].
  - intros s H H'. cbn [parse_value]. pose proof (skip_ws_length s) as Hs.
    apply dispatch_ext; intros r Hr; [apply IHe|apply IHm]; lia.
  - intros s H H'. cbn [parse_elements].
    rewrite <- (IHv s) by lia.
    destruct (parse_value fuel s) as [[x r]|] eqn:Ev; [|reflexivity]. apply Sv in Ev.
    cbn [pbind]. destruct (skip_ws r) as [|c r'] eqn:E; [reflexivity|].
    apply skip_ws_tail in E. destruct (c =? ",")%char; [|reflexivity].
    rewrite <- (IHe r') by lia. reflexivity.
  - intros s H H'. cbn [parse_members].
    destruct (skip_ws s) as [|c r] eqn:E; [reflexivity|]. apply skip_ws_tail in E.
    destruct (c =? dquote)%char; [|reflexivity].
    destruct (lex_string Plain r) as [[k r1]|] eqn:Ek; [|reflexivity].
    apply lex_string_shorter in Ek. cbn [pbind].
    destruct (skip_ws r1) as [|c1 r2] eqn:E1; [reflexivity|]. apply skip_ws_tail in E1.
    destruct (c1 =? ":")%char; [|reflexivity].
    rewrite <- (IHv r2) by lia.
    destruct (parse_value fuel r2) as [[x r3]|] eqn:Ev; [|reflexivity]. apply Sv in Ev.
    cbn [pbind]. destruct (skip_ws r3) as [|c3 r4] eqn:E3; [reflexivity|].
    apply skip_ws_tail in E3. destruct (c3 =? ",")%char; [|reflexivity].
    rewrite <- (IHm r4) by lia. reflexivity.
Qed.

(** More fuel than [JSON_parse] takes changes nothing: a [Malformed] of
    [JSON_parse] is a syntax error of the text. *)
Lemma parse_value_fuel text fuel :
  2 * String.length text + 2 <= fuel ->
  parse_value fuel text = parse_value (2 * String.length text + 2) text.
Proof.
  intros H. destruct (parse_fuel fuel (2 * String.length text + 2)) as [Hv _].
  apply Hv; lia.
Qed.

(** Values *)

Lemma parse_value_S fuel s :
  parse_value (S fuel) s = dispatch (parse_elements fuel) (parse_members fuel) (skip_ws s).
Proof. reflexivity. Qed.

Lemma parse_value_blank fuel w s :
  blank w = true -> parse_value fuel (w ++ s) = parse_value fuel s.
Proof.
  intros H. destruct fuel; [reflexivity|]. rewrite !parse_value_S.
  now rewrite skip_ws_blank.
Qed.

Lemma parse_elements_S fuel s :
  parse_elements (S fuel) s
  = pbind (parse_value fuel s) (fun '(v, rest) =>
      match skip_ws rest with
      | String c rest' =>
          if (c =? ",")%char then
            pbind (parse_elements fuel rest') (fun '(vs, rest'') => Parsed (v :: vs, rest''))
          else if (c =? "]")%char then Parsed ([v], rest')
          else Malformed
      | EmptyString => Malformed
      end).
Proof. reflexivity. Qed.

Lemma parse_members_S fuel s :
  parse_members (S fuel) s
  = match skip_ws s with
    | String c rest =>
        if (c =? dquote)%char then
          pbind (lex_string Plain rest) (fun '(k, rest1) =>
            match skip_ws rest1 with
            | String c1 rest2 =>
                if (c1 =? ":")%char then
                  pbind (parse_value fuel rest2) (fun '(v, rest3) =>
                    match skip_ws rest3 with
                    | String c3 rest4 =>
                        if (c3 =? ",")%char then
                          pbind (parse_members fuel rest4)
                                (fun '(ms, rest5) => Parsed ((k, v) :: ms, rest5))
                        else if (c3 =? "}")%char then Parsed ([(k, v)], rest4)
                        else Malformed
                    | EmptyString => Malformed
                    end)
                else Malformed
            | EmptyString => Malformed
            end)
        else Malformed
    | EmptyString => Malformed
    end.
Proof. reflexivity. Qed.

Lemma dispatch_dquote pe pm r :
  dispatch pe pm (String dquote r)
  = pbind (lex_string Plain r) (fun '(str, rest') => Parsed (Str str, rest')).
Proof. reflexivity. Qed.

Lemma dispatch_bracket pe pm r :
  dispatch pe pm (String "[" r)
  = match skip_ws r with
    | String c' rest' =>
        if (c' =? "]")%char then Parsed (Arr [], rest')
        else pbind (pe r) (fun '(elems, rest') => Parsed (Arr elems, rest'))
    | EmptyString => Malformed
    end.
Proof. reflexivity. Qed.

Lemma dispatch_brace pe pm r :
  dispatch pe pm (String "{" r)
  = match skip_ws r with
    | String c' rest' =>
        if (c' =? "}")%char then Parsed (Obj [], rest')
        else pbind (pm r)
               (fun '(props, rest') => Parsed (Obj (List.fold_left define props []), rest'))
    | EmptyString => Malformed
    end.
Proof. reflexivity. Qed.

Lemma blank_lead gap indent : blank indent = true -> blank (lead gap indent) = true.
Proof. intros H. unfold lead. destruct (String.eqb gap EmptyString); [reflexivity|]. simpl. exact H. Qed.

Lemma wrap_cons opening closing gap indent stepback x partial :
  wrap opening closing gap indent stepback (x :: partial)
  = opening ++ lead gap indent
      ++ String.concat (String "," (lead gap indent)) (x :: partial)
      ++ lead gap stepback ++ closing.
Proof.
  unfold wrap, lead. destruct (String.eqb gap EmptyString); reflexivity.
Qed.

Lemma concat_cons2 sep x y l :
  String.concat sep (x :: y :: l) = x ++ sep ++ String.concat sep (y :: l).
Proof. reflexivity. Qed.

Lemma strP_Arr gap indent elems :
  strP gap indent (Arr elems)
  = wrap "[" "]" gap (indent ++ gap) indent (List.map (strP gap (indent ++ gap)) elems).
Proof. reflexivity. Qed.

Lemma ser_some gap indent v :
  is_json v = true -> SerializeJSONProperty gap indent v = Some (strP gap indent v).
Proof.
  unfold strP. destruct v as [| |[]| | | |]; simpl; intros H; try reflexivity; discriminate.
Qed.

Lemma strP_Num gap indent x :
  readsBack x = true -> strP gap indent (Num x) = Number.toString x.
Proof.
  intros H. unfold strP. cbn [SerializeJSONProperty]. now rewrite (readsBack_finite x H).
Qed.

Lemma stops_after w c r :
  blank w = true -> stops (String c r) = true -> stops (w ++ String c r) = true.
Proof.
  destruct w as [|d w]; [auto|]. cbn [blank append stops]. intros H _.
  apply andb_true_iff in H as [H _]. unfold is_ws in H.
  destruct d as [[] [] [] [] [] [] [] []]; try discriminate; reflexivity.
Qed.

Lemma flat_map_member gap indent props :
  List.forallb (fun p => canonical (fst p) && is_json (snd p)) props = true ->
  List.flat_map
    (fun p => match SerializeJSONProperty gap indent (snd p) with
              | Some text =>
                  [QuoteJSONString (fst p) ++ ":"
                     ++ (if String.eqb gap EmptyString then EmptyString else " ") ++ text]
              | None => []
              end) props
  = List.map (member gap indent) props.
Proof.
  induction props as [|p props IH]; [reflexivity|].
  cbn [List.forallb List.flat_map List.map]. intros H.
  apply andb_true_iff in H as [Hp Hrest]. apply andb_true_iff in Hp as [_ Hp].
  rewrite (ser_some _ _ _ Hp). rewrite IH by exact Hrest. reflexivity.
Qed.

Lemma strP_Obj gap indent props :
  List.forallb (fun p => canonical (fst p) && is_json (snd p)) props = true ->
  strP gap indent (Obj props)
  = wrap "{" "}" gap (indent ++ gap) indent (List.map (member gap (indent ++ gap)) props).
Proof.
  intros H. unfold strP. cbn [SerializeJSONProperty]. now rewrite flat_map_member.
Qed.

(** The first character of the text of a value. *)
Lemma strP_head gap indent v :
  is_json v = true ->
  exists c tail, strP gap indent v = String c tail
                 /\ is_ws c = false /\ (c =? "]")%char = false /\ (c =? "}")%char = false.
Proof.
  destruct v as [| |[]|x|s|elems|props]; intros H; try discriminate.
  - now exists "n"%char, "ull".
  - now exists "t"%char, "rue".
  - now exists "f"%char, "alse".
  - cbn [is_json] in H. rewrite strP_Num by exact H.
    pose proof (readsBack_lex x EmptyString H eq_refl) as Hlex.
    rewrite append_nil_r in Hlex. apply lex_number_head in Hlex as (c & t & -> & Hc).
    destruct (number_head c Hc) as (Hws & Hb & Hbr & _). now exists c, t.
  - eexists dquote, _. unfold strP. cbn. eauto.
  - rewrite strP_Arr. destruct (List.map _ elems).
    + now exists "["%char, "]".
    + rewrite wrap_cons. eexists "["%char, _. cbn. eauto.
  - cbn in H. apply andb_true_iff in H as [_ H]. rewrite strP_Obj by exact H.
    destruct (List.map _ props).
    + now exists "{"%char, "}".
    + rewrite wrap_cons. eexists "{"%char, _. cbn. eauto.
Qed.

Lemma skip_ws_head c tail : is_ws c = false -> skip_ws (String c tail) = String c tail.
Proof. intros H. simpl. now rewrite H. Qed.

Lemma skip_ws_lead w c tail :
  blank w = true -> is_ws c = false -> skip_ws (w ++ String c tail) = String c tail.
Proof. intros Hw Hc. rewrite skip_ws_blank by exact Hw. now apply skip_ws_head. Qed.

Lemma list_sum_cons a l : list_sum (a :: l) = a + list_sum l.
Proof. reflexivity. Qed.

Lemma list_sum_nil : list_sum [] = 0.
Proof. reflexivity. Qed.

Lemma parse_elements_strP gap indent pre post elems :
  blank pre = true -> blank post = true ->
  Forall (parses_back gap indent) elems ->
  List.forallb is_json elems = true ->
  elems <> [] ->
  forall rest fuel,
    list_sum (List.map (fun x => S (size x)) elems) <= fuel ->
    parse_elements fuel
      (pre ++ String.concat (String "," pre) (List.map (strP gap indent) elems)
           ++ post ++ String "]" rest)
    = Parsed (elems, rest).
Proof.
  intros Hpre Hpost IH. induction IH as [|x l Hx _ IHl]; intros Hjson Hne rest fuel Hfuel;
    [contradiction|].
  cbn [List.forallb] in Hjson. apply andb_true_iff in Hjson as [Hxj Hlj].
  cbn [List.map] in Hfuel. rewrite list_sum_cons in Hfuel.
  destruct fuel as [|fuel]; [lia|].
  rewrite parse_elements_S, parse_value_blank by exact Hpre.
  destruct l as [|y l].
  - cbn [List.map String.concat].
    rewrite (Hx Hxj); [|now apply stops_after|lia]. cbn [pbind].
    rewrite skip_ws_lead by auto. reflexivity.
  - cbn [List.map]. rewrite concat_cons2. rewrite !append_assoc.
    rewrite (Hx Hxj); [|reflexivity|lia]. cbn [pbind append].
    rewrite skip_ws_head by reflexivity. cbn [Ascii.eqb Bool.eqb].
    rewrite IHl; [reflexivity|exact Hlj|discriminate|lia].
Qed.

Lemma put_fresh k v props : has_prop k props = false -> put k v props = (props ++ [(k, v)])%list.
Proof.
  induction props as [|[k' v'] props IH]; simpl; intros H; [reflexivity|].
  apply orb_false_iff in H as [Hk H]. rewrite Hk. now rewrite IH.
Qed.

Lemma has_prop_app k a b : has_prop k (a ++ b) = has_prop k a || has_prop k b.
Proof.
  induction a as [|[k' v'] a IH]; simpl; [reflexivity|]. now rewrite IH, orb_assoc.
Qed.

Lemma has_prop_sym_false k k' : (k' =? k)%string = false -> (k =? k')%string = false.
Proof. rewrite String.eqb_sym. auto. Qed.

Lemma insert_index_last k v acc :
  List.forallb (fun p => key_before (fst p) k) acc = true -> is_integer_key k = true ->
  insert_index k v acc = (acc ++ [(k, v)])%list.
Proof.
  intros Hall Hk. induction acc as [|[k' v'] acc IH]; [reflexivity|].
  cbn [List.forallb fst] in Hall. apply andb_true_iff in Hall as [Hb Hall].
  unfold key_before in Hb. rewrite Hk in Hb.
  cbn [insert_index app]. rewrite Hb. now rewrite IH.
Qed.

Lemma fold_define_ordered props : forall acc,
  nodup_keys (acc ++ props) = true -> key_order (acc ++ props) = true ->
  List.fold_left define props acc = (acc ++ props)%list.
Proof.
  induction props as [|[k v] props IH]; intros acc Hnd Hord; cbn [List.fold_left].
  - now rewrite app_nil_r.
  - assert (Hacc : has_prop k acc = false
                   /\ List.forallb (fun p => key_before (fst p) k) acc = true).
    { clear IH. induction acc as [|[k' v'] acc IHacc]; [split; reflexivity|].
      cbn [app nodup_keys key_order] in Hnd, Hord.
      apply andb_true_iff in Hnd as [Hk' Hnd]. apply andb_true_iff in Hord as [Hb Hord].
      destruct (IHacc Hnd Hord) as [IH1 IH2].
      apply negb_true_iff in Hk'. rewrite has_prop_app in Hk'.
      apply orb_false_iff in Hk' as [_ Hk']. cbn [has_prop] in Hk'.
      apply orb_false_iff in Hk' as [Hk' _].
      rewrite forallb_app in Hb. apply andb_true_iff in Hb as [_ Hb].
      cbn [List.forallb fst] in Hb. apply andb_true_iff in Hb as [Hb _].
      split.
      - cbn [has_prop]. rewrite String.eqb_sym, Hk'. exact IH1.
      - cbn [List.forallb fst]. now rewrite Hb, IH2. }
    destruct Hacc as [Hfresh Hbefore].
    assert (Hdef : define acc (k, v) = (acc ++ [(k, v)])%list).
    { unfold define. cbn [fst snd]. rewrite Hfresh. cbn [negb]. rewrite andb_true_r.
      destruct (is_integer_key k) eqn:Hk.
      - now apply insert_index_last.
      - now apply put_fresh. }
    rewrite Hdef. rewrite IH; rewrite <- app_assoc; [reflexivity|exact Hnd|exact Hord].
Qed.

Lemma parse_members_strP gap indent pre post props :
  blank pre = true -> blank post = true ->
  Forall (fun p => parses_back gap indent (snd p)) props ->
  List.forallb (fun p => canonical (fst p) && is_json (snd p)) props = true ->
  props <> [] ->
  forall rest fuel,
    list_sum (List.map (fun p => S (size (snd p))) props) <= fuel ->
    parse_members fuel
      (pre ++ String.concat (String "," pre) (List.map (member gap indent) props)
           ++ post ++ String "}" rest)
    = Parsed (props, rest).
Proof.
  intros Hpre Hpost IH. induction IH as [|[k x] l Hx _ IHl]; intros Hjson Hne rest fuel Hfuel;
    [contradiction|].
  cbn [List.forallb fst snd] in Hjson, Hx.
  apply andb_true_iff in Hjson as [Hxj Hlj]. apply andb_true_iff in Hxj as [Hk Hxj].
  cbn [List.map snd] in Hfuel. rewrite list_sum_cons in Hfuel.
  destruct fuel as [|fuel]; [lia|].
  assert (Hsp : blank (if String.eqb gap EmptyString then EmptyString else " ") = true)
    by (destruct (String.eqb gap EmptyString); reflexivity).
  rewrite parse_members_S.
  assert (Hmember : forall tail,
    member gap indent (k, x) ++ tail
    = String dquote (quote_chars k ++ String dquote
        (String ":" ((if String.eqb gap EmptyString then EmptyString else " ")
                       ++ strP gap indent x ++ tail)))).
  { intros tail. unfold member, QuoteJSONString. cbn [fst snd].
    repeat (rewrite append_assoc || cbn [append]). reflexivity. }
  destruct l as [|y l].
  - cbn [List.map String.concat]. rewrite Hmember.
    rewrite skip_ws_lead by auto. cbn [Ascii.eqb Bool.eqb dquote].
    rewrite lex_quote_chars by exact Hk. cbn [pbind].
    rewrite skip_ws_head by reflexivity. cbn [Ascii.eqb Bool.eqb].
    rewrite parse_value_blank by exact Hsp.
    rewrite (Hx Hxj); [|now apply stops_after|lia]. cbn [pbind].
    rewrite skip_ws_lead by auto. reflexivity.
  - cbn [List.map]. rewrite concat_cons2. rewrite !append_assoc. rewrite Hmember.
    rewrite skip_ws_lead by auto. cbn [Ascii.eqb Bool.eqb dquote].
    rewrite lex_quote_chars by exact Hk. cbn [pbind].
    rewrite skip_ws_head by reflexivity. cbn [Ascii.eqb Bool.eqb].
    rewrite parse_value_blank by exact Hsp.
    rewrite (Hx Hxj); [|reflexivity|lia]. cbn [pbind append].
    rewrite skip_ws_head by reflexivity. cbn [Ascii.eqb Bool.eqb].
    rewrite IHl; [reflexivity|exact Hlj|discriminate|lia].
Qed.

Lemma size_pos v : 1 <= size v.
Proof. destruct v; simpl; lia. Qed.

(** Reading back the text of a value yields the value and the text that
    follows it. *)
Lemma parse_strP gap v :
  blank gap = true ->
  forall indent, blank indent = true -> parses_back gap indent v.
Proof.
  intros Hgap.
  induction v as [| |b|x|s|elems IH|props IH] using value_induction;
    intros indent Hindent Hjson rest fuel Hstop Hfuel;
    try discriminate;
    (destruct fuel as [|fuel]; [pose proof (size_pos (Arr [])); simpl in Hfuel; lia|]);
    rewrite parse_value_S.
  - reflexivity.
  - destruct b; reflexivity.
  - cbn [is_json] in Hjson. rewrite strP_Num by exact Hjson.
    pose proof (readsBack_lex x rest Hjson Hstop) as Hlex.
    pose proof (readsBack_lex x EmptyString Hjson eq_refl) as Hhead.
    rewrite append_nil_r in Hhead. apply lex_number_head in Hhead as (c & t & Hc & Hd).
    rewrite Hc in Hlex |- *. cbn [append] in Hlex |- *.
    destruct (number_head c Hd) as (Hws & _ & _ & Hdis).
    rewrite skip_ws_head by exact Hws. rewrite Hdis. exact Hlex.
  - cbn [is_json] in Hjson.
    unfold strP. cbn [SerializeJSONProperty]. unfold QuoteJSONString. cbn [append].
    rewrite skip_ws_head by reflexivity. rewrite dispatch_dquote.
    rewrite append_assoc. cbn [append]. rewrite lex_quote_chars by exact Hjson. reflexivity.
  - rewrite strP_Arr. cbn [is_json] in Hjson. cbn [size] in Hfuel.
    assert (Hindent' : blank (indent ++ gap) = true) by now apply blank_app.
    destruct elems as [|x elems].
    + reflexivity.
    + cbn [List.map]. rewrite wrap_cons. cbn [append].
      rewrite skip_ws_head by reflexivity. rewrite dispatch_bracket.
      destruct (strP_head gap (indent ++ gap) x) as (c & tail & Hc & Hws & Hb & _).
      { cbn [List.forallb] in Hjson. now apply andb_true_iff in Hjson as [? _]. }
      assert (Hskip : exists tail',
                 skip_ws ((lead gap (indent ++ gap)
                   ++ String.concat (String "," (lead gap (indent ++ gap)))
                        (strP gap (indent ++ gap) x :: List.map (strP gap (indent ++ gap)) elems)
                   ++ lead gap indent ++ "]") ++ rest) = String c tail').
      { rewrite append_assoc. rewrite skip_ws_blank by now apply blank_lead.
        destruct (List.map _ elems); cbn [String.concat]; rewrite Hc; cbn [append];
          rewrite skip_ws_head by exact Hws; eauto. }
      destruct Hskip as [tail' ->]. rewrite Hb.
      rewrite !append_assoc. cbn [append].
      change (strP gap (indent ++ gap) x :: List.map (strP gap (indent ++ gap)) elems)
        with (List.map (strP gap (indent ++ gap)) (x :: elems)).
      rewrite (parse_elements_strP gap (indent ++ gap)).
      * reflexivity.
      * now apply blank_lead.
      * now apply blank_lead.
      * eapply Forall_impl; [exact IH|]. intros y Hy. now apply Hy.
      * exact Hjson.
      * discriminate.
      * lia.
  - cbn [is_json] in Hjson. apply andb_true_iff in Hjson as [Hnd Hjson].
    rewrite strP_Obj by exact Hjson. cbn [size] in Hfuel.
    assert (Hindent' : blank (indent ++ gap) = true) by now apply blank_app.
    destruct props as [|[k x] props].
    + reflexivity.
    + cbn [List.map]. rewrite wrap_cons. cbn [append].
      rewrite skip_ws_head by reflexivity. rewrite dispatch_brace.
      assert (Hskip : exists tail',
                 skip_ws ((lead gap (indent ++ gap)
                   ++ String.concat (String "," (lead gap (indent ++ gap)))
                        (member gap (indent ++ gap) (k, x)
                           :: List.map (member gap (indent ++ gap)) props)
                   ++ lead gap indent ++ "}") ++ rest) = String dquote tail').
      { rewrite append_assoc. rewrite skip_ws_blank by now apply blank_lead.
        unfold member at 1, QuoteJSONString.
        destruct (List.map _ props); cbn [String.concat fst append];
          rewrite skip_ws_head by reflexivity; eauto. }
      destruct Hskip as [tail' ->]. cbn [Ascii.eqb Bool.eqb dquote].
      rewrite !append_assoc. cbn [append].
      change (member gap (indent ++ gap) (k, x) :: List.map (member gap (indent ++ gap)) props)
        with (List.map (member gap (indent ++ gap)) ((k, x) :: props)).
      rewrite (parse_members_strP gap (indent ++ gap)).
      * cbn [pbind]. apply andb_true_iff in Hnd as [Hnd Hord].
        rewrite fold_define_ordered; [reflexivity|exact Hnd|exact Hord].
      * now apply blank_lead.
      * now apply blank_lead.
      * eapply Forall_impl; [exact IH|]. intros y Hy. now apply Hy.
      * exact Hjson.
      * discriminate.
      * lia.
Qed.

Lemma concat_length_lower {A : Type} (g : A -> nat) (f : A -> string) sep (l : list A) :
  1 <= String.length sep ->
  Forall (fun x => g x <= String.length (f x)) l ->
  list_sum (List.map (fun x => S (g x)) l) <= S (String.length (String.concat sep (List.map f l))).
Proof.
  intros Hsep H. induction H as [|x l Hx Hl IH]; [simpl; lia|].
  cbn [List.map]. rewrite list_sum_cons. destruct l as [|y l].
  - cbn [List.map String.concat]. rewrite list_sum_nil. lia.
  - cbn [List.map] in IH |- *. rewrite concat_cons2, !append_length. lia.
Qed.

Lemma wrap_length_lower opening closing gap indent stepback partial :
  String.length opening + String.length (String.concat (String "," (lead gap indent)) partial)
    + String.length closing
  <= String.length (wrap opening closing gap indent stepback partial).
Proof.
  destruct partial as [|x partial].
  - cbn [wrap String.concat]. rewrite append_length. simpl. lia.
  - rewrite wrap_cons, !append_length. lia.
Qed.

Lemma size_le_length gap v :
  is_json v = true -> forall indent, size v <= String.length (strP gap indent v).
Proof.
  induction v as [| |b|x|s|elems IH|props IH] using value_induction; intros Hjson indent;
    try discriminate.
  - simpl. lia.
  - destruct b; simpl; lia.
  - destruct (strP_head gap indent (Num x) Hjson) as (c & t & -> & _). simpl. lia.
  - unfold strP, QuoteJSONString. simpl. lia.
  - rewrite strP_Arr. cbn [is_json] in Hjson. cbn [size].
    pose proof (wrap_length_lower "[" "]" gap (indent ++ gap) indent
                  (List.map (strP gap (indent ++ gap)) elems)) as Hw.
    pose proof (concat_length_lower size (strP gap (indent ++ gap))
                  (String "," (lead gap (indent ++ gap))) elems) as Hc.
    cbn [String.length] in Hw, Hc.
    assert (Hall : Forall (fun x => size x <= String.length (strP gap (indent ++ gap) x)) elems).
    { rewrite Forall_forall in IH |- *. intros x Hx. apply IH; [exact Hx|].
      rewrite forallb_forall in Hjson. apply Hjson. now apply list_elem_of_In. }
    specialize (Hc ltac:(lia) Hall). lia.
  - cbn [is_json] in Hjson. apply andb_true_iff in Hjson as [_ Hjson].
    rewrite strP_Obj by exact Hjson. cbn [size].
    pose proof (wrap_length_lower "{" "}" gap (indent ++ gap) indent
                  (List.map (member gap (indent ++ gap)) props)) as Hw.
    pose proof (concat_length_lower (fun p => size (snd p)) (member gap (indent ++ gap))
                  (String "," (lead gap (indent ++ gap))) props) as Hc.
    cbn [String.length] in Hw, Hc.
    assert (Hall : Forall (fun p => size (snd p) <= String.length (member gap (indent ++ gap) p))
                          props).
    { rewrite Forall_forall in IH |- *. intros p Hp. unfold member. rewrite !append_length.
      assert (size (snd p) <= String.length (strP gap (indent ++ gap) (snd p))); [|lia].
      apply IH; [exact Hp|].
      rewrite forallb_forall in Hjson. apply list_elem_of_In, Hjson in Hp.
      now apply andb_true_iff in Hp as [_ ?]. }
    specialize (Hc ltac:(lia) Hall). lia.
Qed.

(** Parsing the text that [JSON.stringify] gives for a value, with or
    without indentation, returns the value. *)
Theorem JSON_parse_stringify gap v :
  blank gap = true -> is_json v = true ->
  exists text, JSON_stringify v gap = Some text /\ JSON_parse text = Parsed v.
Proof.
  intros Hgap Hjson. exists (strP gap EmptyString v). split.
  - unfold JSON_stringify. now apply ser_some.
  - unfold JSON_parse.
    pose proof (parse_strP gap v Hgap EmptyString eq_refl Hjson EmptyString) as H.
    rewrite append_nil_r in H. rewrite H; [reflexivity|reflexivity|].
    pose proof (size_le_length gap v Hjson EmptyString). lia.
Qed.


(** *** The canonical encoding is unambiguous *)


Lemma ser_none gap indent v : SerializeJSONProperty gap indent v = None -> v = Undefined.
Proof. destruct v as [| |[]| | | |]; simpl; intros H; try discriminate. reflexivity. Qed.

(** Properties that hold [undefined] are left out of the text. *)
Lemma ser_Obj_defined gap indent props :
  SerializeJSONProperty gap indent (Obj props)
  = SerializeJSONProperty gap indent
      (Obj (List.filter (fun p => defined (snd p)) props)).
Proof.
  cbn [SerializeJSONProperty]. do 2 f_equal.
  induction props as [|[k v] props IH]; [reflexivity|].
  cbn [List.flat_map List.filter snd]. rewrite IH.
  destruct v; reflexivity.
Qed.

Lemma has_prop_filter k g props :
  has_prop k props = false -> has_prop k (List.filter g props) = false.
Proof.
  induction props as [|[k' v'] props IH]; [reflexivity|]. cbn [has_prop List.filter].
  intros H. apply orb_false_iff in H as [Hk H].
  destruct (g (k', v')); cbn [has_prop]; rewrite ?Hk; auto.
Qed.

Lemma nodup_keys_filter g props :
  nodup_keys props = true -> nodup_keys (List.filter g props) = true.
Proof.
  induction props as [|[k v] props IH]; [reflexivity|]. cbn [nodup_keys List.filter].
  intros H. apply andb_true_iff in H as [Hk H]. apply negb_true_iff in Hk.
  destruct (g (k, v)); cbn [nodup_keys]; auto.
  rewrite has_prop_filter by exact Hk. now rewrite IH.
Qed.

Lemma lookup_absent k props : has_prop k props = false -> lookup_prop k props = Undefined.
Proof.
  induction props as [|[k' v'] props IH]; [reflexivity|]. cbn [has_prop lookup_prop].
  intros H. apply orb_false_iff in H as [Hk H]. rewrite Hk. auto.
Qed.

Lemma lookup_filter_defined k props :
  nodup_keys props = true ->
  lookup_prop k (List.filter (fun p => defined (snd p)) props) = lookup_prop k props.
Proof.
  induction props as [|[k' v'] props IH]; [reflexivity|]. cbn [nodup_keys List.filter snd].
  intros H. apply andb_true_iff in H as [Hk H]. apply negb_true_iff in Hk.
  destruct (defined v') eqn:Hd; cbn [lookup_prop]; destruct (String.eqb k' k) eqn:E; auto.
  apply String.eqb_eq in E. subst k'. destruct v'; try discriminate.
  apply lookup_absent. now apply has_prop_filter.
Qed.

Lemma forallb_filter {A : Type} (f g : A -> bool) l :
  List.forallb f l = true -> List.forallb f (List.filter g l) = true.
Proof.
  induction l as [|x l IH]; [reflexivity|]. cbn [List.forallb List.filter].
  intros H. apply andb_true_iff in H as [Hx H].
  destruct (g x); cbn [List.forallb]; rewrite ?Hx; auto.
Qed.

Lemma key_order_filter g props :
  key_order props = true -> key_order (List.filter g props) = true.
Proof.
  induction props as [|[k v] props IH]; [reflexivity|]. cbn [key_order List.filter].
  intros H. apply andb_true_iff in H as [Hk H].
  destruct (g (k, v)); cbn [key_order]; auto.
  rewrite forallb_filter by exact Hk. now rewrite IH.
Qed.

Lemma is_json_filter_defined props :
  nodup_keys props = true -> key_order props = true ->
  Forall (fun p => canonical (fst p) = true /\ representable (snd p) = true) props ->
  is_json (Obj (List.filter (fun p => defined (snd p)) props)) = true.
Proof.
  intros Hnd Hord H. cbn [is_json]. rewrite nodup_keys_filter by exact Hnd.
  rewrite key_order_filter by exact Hord. cbn [andb].
  clear Hnd Hord. induction H as [|[k v] props [Hk Hv] _ IH]; [reflexivity|].
  cbn [List.filter snd fst] in *. destruct v; cbn [defined]; auto;
    cbn [List.forallb fst snd]; rewrite Hk, IH, andb_true_r; cbn [andb]; exact Hv.
Qed.




(** *** Tampering with a hashed field *)




(** *** Every chain of the page can be exported *)

Lemma has_prop_put k' k v props :
  has_prop k' (put k v props) = has_prop k' props || String.eqb k k'.
Proof.
  induction props as [|[k0 v0] props IH]; cbn [put has_prop].
  - now rewrite orb_false_r.
  - destruct (String.eqb k0 k) eqn:E; cbn [has_prop].
    + apply String.eqb_eq in E. subst k0.
      destruct (String.eqb k k'); now rewrite ?orb_true_r, ?orb_false_r.
    + rewrite IH. now rewrite orb_assoc.
Qed.

Lemma nodup_keys_put k v props :
  nodup_keys props = true -> nodup_keys (put k v props) = true.
Proof.
  induction props as [|[k0 v0] props IH]; cbn [put nodup_keys]; [reflexivity|].
  intros H. apply andb_true_iff in H as [Hk H].
  destruct (String.eqb k0 k) eqn:E; cbn [nodup_keys].
  - apply String.eqb_eq in E. subst k0. now rewrite Hk, H.
  - rewrite has_prop_put. apply negb_true_iff in Hk. rewrite Hk.
    rewrite String.eqb_sym, E. cbn. now apply IH.
Qed.

Lemma forallb_put (P : string * value -> bool) k v props :
  P (k, v) = true -> List.forallb P props = true -> List.forallb P (put k v props) = true.
Proof.
  intros Hkv. induction props as [|[k0 v0] props IH]; cbn [put List.forallb].
  - now rewrite Hkv.
  - intros H. apply andb_true_iff in H as [H0 H].
    destruct (String.eqb k0 k); cbn [List.forallb].
    + now rewrite Hkv, H.
    + now rewrite H0, IH.
Qed.

Lemma is_json_representable v : is_json v = true -> representable v = true.
Proof. destruct v; auto. Qed.

Lemma is_json_exportable v : is_json v = true -> exportable v = true.
Proof.
  destruct v as [| |b|x|s|elems|props]; auto. cbn [is_json exportable].
  intros H. apply andb_true_iff in H as [Hnd H]. rewrite Hnd. cbn [andb].
  rewrite forallb_forall in H |- *. intros p Hp. specialize (H p Hp).
  apply andb_true_iff in H as [Hk Hv]. rewrite Hk. now apply is_json_representable.
Qed.

Lemma forallb_key_before_put k0 k v props :
  key_before k0 k = true ->
  List.forallb (fun p => key_before k0 (fst p)) props = true ->
  List.forallb (fun p => key_before k0 (fst p)) (put k v props) = true.
Proof. intros Hk. now apply (forallb_put (fun p => key_before k0 (fst p))). Qed.

Lemma key_order_put k v props :
  is_integer_key k = false -> key_order props = true -> key_order (put k v props) = true.
Proof.
  intros Hk. induction props as [|[k0 v0] props IH]; cbn [put key_order]; [reflexivity|].
  intros H. apply andb_true_iff in H as [H0 H].
  destruct (String.eqb k0 k) eqn:E; cbn [key_order].
  - apply String.eqb_eq in E. subst k0. now rewrite H0, H.
  - rewrite forallb_key_before_put; [now rewrite IH|unfold key_before; now rewrite Hk|exact H0].
Qed.

(** *** The chains of the page *)

Lemma loadLedgerFromFile_chain text st st' :
  loadLedgerFromFile text st = st' ->
  blockchain st' = blockchain st
  \/ exists elems, JSON_parse text = Parsed (Arr elems) /\ blockchain st' = elems.
Proof.
  unfold loadLedgerFromFile. intros H.
  destruct (JSON_parse text) as [parsed|] eqn:Hp.
  - destruct parsed as [| |x|x|x|elems|props];
      try (left; subst st'; reflexivity).
    right. exists elems. split; [reflexivity|].
    destruct (renderLedger _); [|subst st'; reflexivity].
    pose proof (updateStats_blockchain (set_blockchain elems st)) as Hst.
    destruct (updateStats _) as [[u|e] st2]; subst st'; exact Hst.
  - left. subst st'. reflexivity.
Qed.

(** *** Export, then import *)

Lemma exportable_dropUndefined b : exportable b = true -> is_json (dropUndefined b) = true.
Proof.
  destruct b as [| |x|x|x|elems|props]; auto. cbn [exportable dropUndefined].
  intros H. apply andb_true_iff in H as [Hnd H]. apply andb_true_iff in Hnd as [Hnd Hord].
  apply is_json_filter_defined; [exact Hnd|exact Hord|].
  rewrite Forall_forall. rewrite forallb_forall in H. intros p Hp.
  now apply list_elem_of_In, H, andb_true_iff in Hp as [Hk Hv].
Qed.

Lemma strP_dropUndefined gap indent b :
  strP gap indent (dropUndefined b) = strP gap indent b.
Proof.
  destruct b as [| |x|x|x|elems|props]; try reflexivity.
  unfold strP, dropUndefined. now rewrite <- ser_Obj_defined.
Qed.

Lemma is_json_defined v : is_json v = true -> defined v = true.
Proof. destruct v; auto. Qed.

Lemma dropUndefined_json b : is_json b = true -> dropUndefined b = b.
Proof.
  destruct b as [| |x|x|x|elems|props]; auto. cbn [is_json dropUndefined].
  intros H. apply andb_true_iff in H as [_ H]. f_equal.
  induction props as [|[k v] props IH]; [reflexivity|].
  cbn [List.forallb List.filter fst snd] in *.
  apply andb_true_iff in H as [Hkv H]. apply andb_true_iff in Hkv as [_ Hv].
  rewrite (is_json_defined _ Hv). now rewrite IH.
Qed.

(** Reading a field of a block ignores the properties JSON leaves out. *)
Lemma Get_dropUndefined b f : exportable b = true -> Get (dropUndefined b) f = Get b f.
Proof.
  destruct b as [| |x|x|x|elems|props]; auto. cbn [exportable dropUndefined Get].
  intros H. apply andb_true_iff in H as [Hnd _]. apply andb_true_iff in Hnd as [Hnd _].
  now rewrite lookup_filter_defined.
Qed.

Lemma ledgerText_strP chain : ledgerText chain = strP "  " EmptyString (Arr chain).
Proof. reflexivity. Qed.

Lemma ledgerText_parse chain :
  List.forallb exportable chain = true ->
  JSON_parse (ledgerText chain) = Parsed (Arr (List.map dropUndefined chain)).
Proof.
  intros Hall.
  assert (Hjson : is_json (Arr (List.map dropUndefined chain)) = true).
  { cbn [is_json]. rewrite forallb_forall in Hall |- *. intros b Hb.
    apply in_map_iff in Hb as (b0 & <- & Hb0). now apply exportable_dropUndefined, Hall. }
  destruct (JSON_parse_stringify "  " _ eq_refl Hjson) as (text & Htext & Hparse).
  unfold JSON_stringify in Htext. rewrite ser_some in Htext by exact Hjson.
  injection Htext as <-.
  rewrite ledgerText_strP, strP_Arr.
  rewrite strP_Arr, List.map_map in Hparse.
  erewrite List.map_ext in Hparse; [exact Hparse|].
  intros b. apply strP_dropUndefined.
Qed.

(** C8 (amended). Round trip: for every chain of blocks that JSON carries
    (objects, arrays, strings, booleans, [null], and numbers that are
    denoted by their decimal text, which leaves out the infinities and the
    negative zero; a property of a block may hold [undefined]), the text
    [downloadLedger] writes is read back by [loadLedgerFromFile] as the same
    blocks in the same order. A block comes back without the properties that
    hold [undefined], which JSON leaves out, so that each of its fields reads
    as on the original; a chain of JSON data (such as the chains built from
    the empty chain, see [page_built_json]) comes back identical. *)
Theorem export_import_roundtrip st st0 :
  List.forallb exportable (blockchain st) = true ->
  downloads (downloadLedger st) = (downloads st ++ [ledgerText (blockchain st)])%list
  /\ exists st',
       loadLedgerFromFile (ledgerText (blockchain st)) st0 = st'
       /\ blockchain st' = List.map dropUndefined (blockchain st)
       /\ (forall b f, In b (blockchain st) -> Get (dropUndefined b) f = Get b f)
       /\ (List.forallb is_json (blockchain st) = true -> blockchain st' = blockchain st).
Proof.
  intros Hreach. split; [reflexivity|].
  assert (Hload : exists st',
             loadLedgerFromFile (ledgerText (blockchain st)) st0 = st'
             /\ blockchain st' = List.map dropUndefined (blockchain st)).
  { unfold loadLedgerFromFile. rewrite (ledgerText_parse _ Hreach).
    destruct (renderLedger _); [|eexists; split; reflexivity].
    pose proof (updateStats_blockchain
                  (set_blockchain (List.map dropUndefined (blockchain st)) st0)) as Hst.
    destruct (updateStats _) as [[u|e] st2]; eexists; (split; [reflexivity|exact Hst]). }
  destruct Hload as (st' & Hload & Hchain). exists st'.
  split; [exact Hload|]. split; [exact Hchain|]. split.
  - intros b f Hb. apply Get_dropUndefined.
    rewrite forallb_forall in Hreach. now apply Hreach.
  - intros Hjson. rewrite Hchain. rewrite forallb_forall in Hjson.
    rewrite <- (List.map_id (blockchain st)) at 2. apply List.map_ext_in.
    intros b Hb. now apply dropUndefined_json, Hjson.
Qed.

(** ** The text of a digest *)

Lemma hex2_eval b :
  slice_last2 ("00" ++ toString16 b)
  = String (hexDigit (Byte.to_N b / 16)) (String (hexDigit (Byte.to_N b mod 16)) EmptyString).
Proof. destruct b; reflexivity. Qed.

Lemma concat_empty_cons (x : string) xs :
  String.concat EmptyString (x :: xs) = x ++ String.concat EmptyString xs.
Proof. destruct xs; cbn [String.concat]; [now rewrite append_nil_r|reflexivity]. Qed.

Lemma hexDigit_lower n : (n < 16)%N -> lowerHex (String (hexDigit n) EmptyString) = true.
Proof.
  intros H.
  assert (Hn : In n [0; 1; 2; 3; 4; 5; 6; 7; 8; 9; 10; 11; 12; 13; 14; 15]%N).
  { cbn [In]. lia. }
  cbn [In] in Hn. repeat (destruct Hn as [<-|Hn]; [reflexivity|]). destruct Hn.
Qed.

Lemma to_N_lt b : (Byte.to_N b < 256)%N.
Proof. destruct b; reflexivity. Qed.

Lemma hex_of_bytes_eval (bytes : list byte) :
  String.concat EmptyString (List.map (fun b => slice_last2 ("00" ++ toString16 b)) bytes)
  = List.fold_right
      (fun b rest => String (hexDigit (Byte.to_N b / 16))
                       (String (hexDigit (Byte.to_N b mod 16)) rest))
      EmptyString bytes.
Proof.
  induction bytes as [|b bytes IH]; [reflexivity|].
  cbn [List.map List.fold_right]. rewrite concat_empty_cons, hex2_eval, IH. reflexivity.
Qed.

Lemma digit_pair_inj b b' :
  hexDigit (Byte.to_N b / 16) = hexDigit (Byte.to_N b' / 16) ->
  hexDigit (Byte.to_N b mod 16) = hexDigit (Byte.to_N b' mod 16) -> b = b'.
Proof.
  intros Hhi Hlo.
  pose proof (to_N_lt b) as Hb. pose proof (to_N_lt b') as Hb'.
  apply (f_equal hex_value) in Hhi, Hlo.
  rewrite !hex_value_hexDigit in Hhi, Hlo
    by first [apply N.mod_lt; discriminate | apply N.Div0.div_lt_upper_bound; lia].
  injection Hhi as Hhi. injection Hlo as Hlo.
  assert (Hn : Byte.to_N b = Byte.to_N b').
  { rewrite (N.div_mod (Byte.to_N b) 16), (N.div_mod (Byte.to_N b') 16) by discriminate.
    congruence. }
  apply (f_equal Byte.of_N) in Hn. rewrite !Byte.of_to_N in Hn. congruence.
Qed.

(** *** Chains built without an import are JSON data *)

Lemma lowerHex_plain s : lowerHex s = true -> canonical s = true.
Proof.
  induction s as [|c1 s IH]; [reflexivity|]. cbn [lowerHex].
  intros H. apply andb_true_iff in H as [Hc Hs]. specialize (IH Hs).
  cbn [canonical]. destruct s as [|c2 [|c3 rest]]; try exact IH.
  assert (Hno : surrogate c1 c2 c3 = false); [|now rewrite Hno].
  unfold surrogate. destruct (N.eqb_spec (N_of_ascii c1) 237) as [E|]; [|reflexivity].
  exfalso. unfold is_digit in Hc. rewrite E in Hc. discriminate.
Qed.

Lemma sha256_canonical message : canonical (sha256 digest message) = true.
Proof.
  apply lowerHex_plain. unfold sha256. rewrite hex_of_bytes_eval.
  generalize (digest (TextEncoder_encode message)) as bytes.
  induction bytes as [|b bytes IH]; [reflexivity|].
  cbn [List.fold_right].
  pose proof (to_N_lt b) as Hb.
  assert (Hhi : (Byte.to_N b / 16 < 16)%N) by (apply N.Div0.div_lt_upper_bound; lia).
  assert (Hlo : (Byte.to_N b mod 16 < 16)%N) by (apply N.mod_lt; discriminate).
  apply hexDigit_lower in Hhi, Hlo. cbn [lowerHex] in *.
  rewrite andb_true_r in Hhi, Hlo. now rewrite Hhi, Hlo, IH.
Qed.

Lemma is_json_put k v props :
  is_integer_key k = false -> canonical k = true -> is_json v = true ->
  is_json (Obj props) = true -> is_json (Obj (put k v props)) = true.
Proof.
  intros Hk Hc Hv. cbn [is_json]. intros H. apply andb_true_iff in H as [Hnd H].
  apply andb_true_iff in Hnd as [Hnd Hord].
  rewrite nodup_keys_put by exact Hnd. rewrite key_order_put by assumption. cbn [andb].
  apply forallb_put; [|exact H]. cbn [fst snd]. now rewrite Hc, Hv.
Qed.

Lemma lookup_json k props s :
  List.forallb (fun p => canonical (fst p) && is_json (snd p)) props = true ->
  lookup_prop k props = Str s -> canonical s = true.
Proof.
  induction props as [|[k0 v0] props IH]; cbn [List.forallb lookup_prop fst snd];
    [discriminate|].
  intros H. apply andb_true_iff in H as [H0 H]. apply andb_true_iff in H0 as [_ H0].
  destruct (String.eqb k0 k); [intros ->; exact H0|auto].
Qed.

Lemma tailHash_sealedJson chain previousHash :
  Forall sealedJson chain ->
  tailHash chain = Normal previousHash ->
  exists h, previousHash = Str h /\ canonical h = true.
Proof.
  intros Hall. unfold tailHash.
  destruct chain as [|b0 chain0] using rev_ind.
  - cbn. intros H. injection H as <-. eauto.
  - rewrite last_last. apply Forall_app in Hall as [_ Hb].
    apply Forall_cons in Hb as [(Hjson & props & h & -> & Hcur) _].
    cbn [truthy Get]. rewrite Hcur. intros H. injection H as <-.
    exists h. split; [reflexivity|]. cbn [is_json] in Hjson.
    apply andb_true_iff in Hjson as [_ Hjson]. eapply lookup_json; eauto.
Qed.

Lemma addBlock_sealedJson record userSecret now st :
  is_json (Obj record) = true -> canonical now = true ->
  Forall sealedJson (blockchain st) ->
  Forall sealedJson (blockchain (snd (addBlock (Literal record) userSecret now st))).
Proof.
  intros Hr Hnow Hall.
  destruct (addBlock_chain record userSecret now st)
    as [Heq|(previousHash & signature & currentHash & Hprev & Hsig & Hhash & Heq)];
    rewrite Heq; [exact Hall|].
  apply Forall_app. split; [exact Hall|]. apply Forall_cons. split; [|apply Forall_nil; exact I].
  destruct (tailHash_sealedJson _ _ Hall Hprev) as (h & -> & Hh).
  assert (Hs : canonical signature = true).
  { unfold signRecord in Hsig. destruct (toSign _ _); [|discriminate].
    injection Hsig as <-. apply sha256_canonical. }
  assert (Hc : canonical currentHash = true).
  { unfold calculateHash in Hhash. destruct (canonicalText _); [|discriminate].
    injection Hhash as <-. apply sha256_canonical. }
  split.
  - unfold sealedBlock.
    repeat (apply is_json_put; [reflexivity|reflexivity|assumption|]). exact Hr.
  - eexists _, currentHash. split; [reflexivity|]. apply lookup_put_eq.
Qed.

Lemma run_sealedJson op st st' :
  isUpload op = false -> textOp op = true -> run op st = st' ->
  Forall sealedJson (blockchain st) -> Forall sealedJson (blockchain st').
Proof.
  intros Hop Htext Hrun IH. destruct op; try discriminate; cbn [run] in Hrun;
    cbn [textOp] in Htext; subst st'.
  - apply andb_true_iff in Htext as [Htext Hn]. apply andb_true_iff in Htext as [Htext Ho].
    apply andb_true_iff in Htext as [Hi Hd].
    unfold registerProperty_click.
    destruct (negb _); [exact IH|].
    destruct (find _ _) as [alreadyExists|]; [|exact IH].
    destruct (truthy alreadyExists); [exact IH|].
    destruct (_ && _); [|exact IH].
    match goal with |- context [addBlock (Literal ?r) ?s ?n ?st] =>
      assert (Hr : is_json (Obj r) = true) by (cbn; now rewrite Hi, Hd, Ho);
      pose proof (addBlock_sealedJson r s n st Hr Hn IH) as Hadd;
      destruct (addBlock (Literal r) s n st) as [[u|e] st1] end; exact Hadd.
  - apply andb_true_iff in Htext as [Htext Hn]. apply andb_true_iff in Htext as [Htext Hr'].
    apply andb_true_iff in Htext as [Hi Ho].
    unfold transferProperty_click.
    destruct (negb _); [exact IH|].
    destruct (_ && _); [|exact IH].
    destruct (find _ _) as [found|]; [|exact IH].
    destruct (negb (truthy found)); [exact IH|].
    match goal with |- context [addBlock (Literal ?r) ?s ?n ?st] =>
      assert (Hr : is_json (Obj r) = true) by (cbn; now rewrite Hi, Ho, Hr');
      pose proof (addBlock_sealedJson r s n st Hr Hn IH) as Hadd;
      destruct (addBlock (Literal r) s n st) as [[u|e] st1] end; exact Hadd.
  - unfold showTimeline_click.
    destruct (negb _); [exact IH|]. now rewrite showTimeline_state.
  - unfold validateChain_click.
    destruct (negb _); [exact IH|]. unfold validateChain.
    destruct (bind _ _); exact IH.
  - unfold downloadLedger_click.
    destruct (_ =? _)%nat; exact IH.
Qed.

(** Whatever the user does short of an import, the chain is JSON data. *)
Lemma page_built_json ops st :
  List.forallb (fun op => negb (isUpload op) && textOp op) ops = true ->
  runAll ops initial = st ->
  List.forallb is_json (blockchain st) = true.
Proof.
  intros Hops Hrun.
  assert (H : Forall sealedJson (blockchain st)).
  { assert (Hinit : Forall sealedJson (blockchain initial)) by (apply Forall_nil; exact I).
    revert Hinit Hrun. generalize initial as st0. revert Hops.
    induction ops as [|op ops IH]; intros Hops st0 Hinit Hrun; cbn [runAll] in Hrun.
    - now subst st.
    - cbn [List.forallb] in Hops. apply andb_true_iff in Hops as [Hop Hops].
      apply andb_true_iff in Hop as [Hop Htext]. apply negb_true_iff in Hop.
      apply (IH Hops (run op st0)); [|exact Hrun]. eapply run_sealedJson; eauto. }
  rewrite forallb_forall. intros b Hb. rewrite Forall_forall in H.
  apply list_elem_of_In in Hb. now destruct (H b Hb).
Qed.

(** X1. [sha256] returns two characters for every byte of the digest, all of
    them digits or the letters a to f. *)
Theorem sha256_format digest message :
  String.length (sha256 digest message) = 2 * length (digest (TextEncoder_encode message))
  /\ lowerHex (sha256 digest message) = true.
Proof.
  unfold sha256. rewrite hex_of_bytes_eval.
  generalize (digest (TextEncoder_encode message)) as bytes.
  induction bytes as [|b bytes [IHlen IHhex]]; [split; reflexivity|].
  cbn [List.fold_right String.length length]. split; [lia|].
  pose proof (to_N_lt b) as Hb.
  assert (Hhi : (Byte.to_N b / 16 < 16)%N) by (apply N.Div0.div_lt_upper_bound; lia).
  assert (Hlo : (Byte.to_N b mod 16 < 16)%N) by (apply N.mod_lt; discriminate).
  apply hexDigit_lower in Hhi, Hlo. cbn [lowerHex] in *.
  rewrite andb_true_r in Hhi, Hlo. now rewrite Hhi, Hlo, IHhex.
Qed.

(** X2. The text [sha256] returns determines the digest bytes: two messages
    get the same text exactly when the digest function gives them the same
    bytes, so that the hexadecimal rendering adds no collision of its own. *)
Theorem sha256_hex_faithful digest message message' :
  sha256 digest message = sha256 digest message'
  <-> digest (TextEncoder_encode message) = digest (TextEncoder_encode message').
Proof.
  unfold sha256. rewrite !hex_of_bytes_eval.
  generalize (digest (TextEncoder_encode message)) as l.
  generalize (digest (TextEncoder_encode message')) as l'.
  intros l' l. split; [|now intros ->].
  revert l'. induction l as [|b l IH]; intros [|b' l'] H; cbn [List.fold_right] in H;
    try discriminate; [reflexivity|].
  injection H as Hhi Hlo Hrest. f_equal; [now apply digit_pair_inj|now apply IH].
Qed.

(** With SHA-256 the digest has 32 bytes. *)

Lemma be_bytes_length n x : length (SHA256.be_bytes n x) = n.
Proof. induction n as [|n IH]; cbn [SHA256.be_bytes length]; [reflexivity|now rewrite IH]. Qed.

Lemma round_length st k : length (fst st) = 8 -> length (fst (SHA256.round st k)) = 8.
Proof.
  destruct st as [h w]. cbn [fst].
  destruct h as [|a [|b [|c [|d [|e [|f [|g [|hh [|x h]]]]]]]]]; try discriminate.
  reflexivity.
Qed.

Lemma fold_round_length ks : forall st,
  length (fst st) = 8 -> length (fst (List.fold_left SHA256.round ks st)) = 8.
Proof.
  induction ks as [|k ks IH]; intros st H; [exact H|].
  cbn [List.fold_left]. apply IH. now apply round_length.
Qed.

Lemma compress_length h block : length h = 8 -> length (SHA256.compress h block) = 8.
Proof.
  intros H. unfold SHA256.compress.
  pose proof (fold_round_length SHA256.K (h, SHA256.words 16 block) H) as Hf.
  destruct (List.fold_left _ _ _) as [h' w]. cbn [fst] in Hf.
  rewrite length_map, length_combine. lia.
Qed.

Lemma blocks_length n : forall h bs, length h = 8 -> length (SHA256.blocks n h bs) = 8.
Proof.
  induction n as [|n IH]; intros h bs H; cbn [SHA256.blocks]; [exact H|].
  destruct bs; [exact H|]. apply IH. now apply compress_length.
Qed.

Lemma digest_length msg : length (SHA256.digest msg) = 32.
Proof.
  unfold SHA256.digest, SHA256.digestN. rewrite length_map.
  pose proof (blocks_length (length (SHA256.pad (List.map Byte.to_N msg))) SHA256.H0
                (SHA256.pad (List.map Byte.to_N msg)) eq_refl) as H.
  destruct (SHA256.blocks _ _ _)
    as [|a [|b [|c [|d [|e [|f [|g [|hh [|x h]]]]]]]]]; try discriminate.
  reflexivity.
Qed.

(** X3. With SHA-256 as the digest function, [sha256] returns a text of
    exactly 64 characters, whatever the message. *)
Theorem sha256_length_64 message : String.length (sha256 SHA256.digest message) = 64.
Proof.
  unfold sha256. rewrite hex_of_bytes_eval.
  pose proof (digest_length (TextEncoder_encode message)) as H.
  revert H. generalize (SHA256.digest (TextEncoder_encode message)) as bytes.
  intros bytes.
  assert (Hlen : forall l : list byte,
            String.length
              (List.fold_right
                 (fun b rest => String (hexDigit (Byte.to_N b / 16))
                                  (String (hexDigit (Byte.to_N b mod 16)) rest))
                 EmptyString l) = 2 * length l).
  { induction l as [|b l IH]; [reflexivity|]. cbn [List.fold_right String.length length].
    rewrite IH. lia. }
  rewrite Hlen. intros ->. reflexivity.
Qed.

(** ** The text that is signed *)

Lemma toSign_Str props propertyID owner action timestamp secret :
  lookup_prop "propertyID" props = Str propertyID ->
  lookup_prop "owner" props = Str owner ->
  lookup_prop "action" props = Str action ->
  lookup_prop "timestamp" props = Str timestamp ->
  toSign (Obj props) secret
  = Normal (propertyID ++ "|" ++ owner ++ "|" ++ action ++ "|" ++ timestamp ++ "|" ++ secret).
Proof. intros H1 H2 H3 H4. unfold toSign. cbn [Get]. now rewrite H1, H2, H3, H4. Qed.

Lemma bar_split a a' x y :
  barFree a = true -> barFree a' = true ->
  a ++ String "|" x = a' ++ String "|" y -> a = a' /\ x = y.
Proof.
  revert a'. induction a as [|c a IH]; intros [|c' a'] Ha Ha' H; cbn in *.
  - injection H as ->. now split.
  - injection H as <- _. rewrite Ascii.eqb_refl in Ha'. discriminate.
  - injection H as -> _. rewrite Ascii.eqb_refl in Ha. discriminate.
  - injection H as -> H. apply andb_true_iff in Ha as [_ Ha]. apply andb_true_iff in Ha' as [_ Ha'].
    destruct (IH a' Ha Ha' H) as [-> ->]. now split.
Qed.

(** X4. [signRecord] joins the fields and the secret with a bar that it does
    not escape: a bar moved from one field into its neighbour, or from the
    time stamp into the secret, leaves the signature as it was. *)
Theorem signRecord_separator props a b c timestamp x secret :
  signRecord (Obj (put "propertyID" (Str (a ++ "|" ++ b)) (put "owner" (Str c) props))) secret
  = signRecord (Obj (put "propertyID" (Str a) (put "owner" (Str (b ++ "|" ++ c)) props))) secret
  /\ signRecord (Obj (put "timestamp" (Str (timestamp ++ "|" ++ x)) props)) secret
     = signRecord (Obj (put "timestamp" (Str timestamp) props)) (x ++ "|" ++ secret).
Proof.
  unfold signRecord, toSign. cbn [Get]. split.
  - rewrite !lookup_put_eq.
    rewrite !(lookup_put_ne "propertyID" "owner") by discriminate.
    rewrite !lookup_put_eq.
    rewrite !(lookup_put_ne "propertyID" "action"), !(lookup_put_ne "owner" "action")
      by discriminate.
    rewrite !(lookup_put_ne "propertyID" "timestamp"), !(lookup_put_ne "owner" "timestamp")
      by discriminate.
    cbn [bind ToString].
    destruct (ToString (lookup_prop "action" props)) as [action|]; cbn [bind]; [|reflexivity].
    destruct (ToString (lookup_prop "timestamp" props)) as [t|]; cbn [bind]; [|reflexivity].
    do 2 f_equal. now rewrite !append_assoc.
  - rewrite !lookup_put_eq.
    rewrite !(lookup_put_ne "timestamp" "propertyID"), !(lookup_put_ne "timestamp" "owner"),
      !(lookup_put_ne "timestamp" "action") by discriminate.
    cbn [bind].
    destruct (ToString (lookup_prop "propertyID" props)) as [p|]; cbn [bind]; [|reflexivity].
    destruct (ToString (lookup_prop "owner" props)) as [o|]; cbn [bind]; [|reflexivity].
    destruct (ToString (lookup_prop "action" props)) as [action|]; cbn [bind]; [|reflexivity].
    cbn [ToString bind]. do 2 f_equal. now rewrite !append_assoc.
Qed.

(** X5. When the four signed fields of two blocks are strings without a
    bar, equal texts to sign mean equal fields and equal secrets. *)
Theorem toSign_injective b b' secret secret' :
  (forall f, In f signedFields -> exists x, Get b f = Normal (Str x) /\ barFree x = true) ->
  (forall f, In f signedFields -> exists x, Get b' f = Normal (Str x) /\ barFree x = true) ->
  toSign b secret = toSign b' secret' ->
  (forall f, In f signedFields -> Get b f = Get b' f) /\ secret = secret'.
Proof.
  intros H H' Heq.
  destruct (H "propertyID") as (p & Hp & Hpb); [simpl; tauto|].
  destruct (H "owner") as (o & Ho & Hob); [simpl; tauto|].
  destruct (H "action") as (a & Ha & Hab); [simpl; tauto|].
  destruct (H "timestamp") as (t & Ht & Htb); [simpl; tauto|].
  destruct (H' "propertyID") as (p' & Hp' & Hpb'); [simpl; tauto|].
  destruct (H' "owner") as (o' & Ho' & Hob'); [simpl; tauto|].
  destruct (H' "action") as (a' & Ha' & Hab'); [simpl; tauto|].
  destruct (H' "timestamp") as (t' & Ht' & Htb'); [simpl; tauto|].
  unfold toSign in Heq. rewrite Hp, Ho, Ha, Ht, Hp', Ho', Ha', Ht' in Heq.
  cbn [bind ToString] in Heq. injection Heq as Heq.
  apply bar_split in Heq as [-> Heq]; auto.
  apply bar_split in Heq as [-> Heq]; auto.
  apply bar_split in Heq as [-> Heq]; auto.
  apply bar_split in Heq as [-> Heq]; auto.
  split; [|exact Heq].
  intros f Hf. cbn [signedFields In] in Hf.
  destruct Hf as [<-|[<-|[<-|[<-|[]]]]]; congruence.
Qed.

(** ** The fields the validator reads *)

Lemma calculateHash_agree b b' :
  (forall g, In g hashedFields -> Get b' g = Get b g) -> calculateHash b' = calculateHash b.
Proof.
  intros H. unfold calculateHash, canonicalText.
  rewrite !(H _) by (simpl; tauto). reflexivity.
Qed.

Lemma signRecord_agree b b' secret :
  (forall g, In g signedFields -> Get b' g = Get b g) ->
  signRecord b' secret = signRecord b secret.
Proof.
  intros H. unfold signRecord, toSign.
  rewrite !(H _) by (simpl; tauto). reflexivity.
Qed.

Lemma checkBlock_fields chain chain' secret i :
  (forall j g, In g readFields ->
     Get (List.nth j chain' Undefined) g = Get (List.nth j chain Undefined) g) ->
  checkBlock chain' secret i = checkBlock chain secret i.
Proof.
  intros H. unfold checkBlock, linkedToPrevious.
  rewrite (calculateHash_agree (List.nth i chain Undefined) (List.nth i chain' Undefined))
    by (intros g Hg; apply H; unfold readFields; apply in_or_app; now left).
  rewrite (signRecord_agree (List.nth i chain Undefined) (List.nth i chain' Undefined))
    by (intros g Hg; apply H; unfold readFields; simpl in *; tauto).
  rewrite !(H _ _) by (simpl; tauto). reflexivity.
Qed.

Lemma validateFrom_ext chain chain' secret count : forall i,
  (forall j, checkBlock chain' secret j = checkBlock chain secret j) ->
  validateFrom chain' secret count i = validateFrom chain secret count i.
Proof.
  induction count as [|count IH]; intros i H; cbn [validateFrom]; [reflexivity|].
  rewrite H. destruct (checkBlock chain secret i) as [[r|]|e]; cbn [bind]; auto.
Qed.

Lemma validate_fields chain chain' secret :
  Forall2 (fun b b' => forall g, In g readFields -> Get b' g = Get b g) chain chain' ->
  validate chain' secret = validate chain secret.
Proof.
  intros H. unfold validate. rewrite <- (Forall2_length _ _ _ H).
  destruct (_ =? _)%nat; [reflexivity|].
  apply validateFrom_ext. intros j. apply checkBlock_fields. intros i g Hg.
  rewrite !nth_lookup.
  destruct (chain !! i) as [b|] eqn:Hb.
  - destruct (Forall2_lookup_l _ _ _ _ _ H Hb) as (b' & -> & Hbb'). cbn. now apply Hbb'.
  - apply lookup_ge_None in Hb. rewrite (Forall2_length _ _ _ H) in Hb.
    apply lookup_ge_None in Hb. now rewrite Hb.
Qed.

(** X6. The verdict of [validateChain] depends on nine fields of each block
    only (the seven hashed ones, [currentHash] and [signature]): two chains
    of the same length whose blocks agree on these fields get the same
    verdict, whatever else the blocks hold. *)
Theorem validateChain_reads_fields secret st chain' :
  Forall2 (fun b b' => forall g, In g readFields -> Get b' g = Get b g) (blockchain st) chain' ->
  fst (validateChain secret (set_blockchain chain' st)) = fst (validateChain secret st).
Proof.
  intros H. unfold validateChain. cbn [fst set_blockchain blockchain].
  now rewrite (validate_fields _ _ _ H).
Qed.

Lemma loadLedgerFromFile_Arr text elems st st' :
  JSON_parse text = Parsed (Arr elems) ->
  loadLedgerFromFile text st = st' -> blockchain st' = elems.
Proof.
  unfold loadLedgerFromFile. intros -> H.
  destruct (renderLedger _); [|subst st'; reflexivity].
  pose proof (updateStats_blockchain (set_blockchain elems st)) as Hst.
  destruct (updateStats _) as [[u|e] st2]; subst st'; exact Hst.
Qed.

(** X7. Export and import keep the verdict: a chain of blocks that JSON
    carries (see C8; the chains built through the forms are of this kind),
    written by [downloadLedger] and read back by [loadLedgerFromFile],
    validates under every secret as the original does. *)
Theorem validation_survives_roundtrip secret st st0 st' :
  List.forallb exportable (blockchain st) = true ->
  loadLedgerFromFile (ledgerText (blockchain st)) st0 = st' ->
  fst (validateChain secret st') = fst (validateChain secret st).
Proof.
  intros Hreach Hload.
  pose proof (loadLedgerFromFile_Arr _ _ _ _ (ledgerText_parse _ Hreach) Hload) as Hchain.
  unfold validateChain. cbn [fst]. rewrite Hchain.
  rewrite (validate_fields (blockchain st)); [reflexivity|].
  apply Forall2_fmap_r, Forall_Forall2_diag.
  rewrite forallb_forall in Hreach. apply List.Forall_forall.
  intros b Hb g _. apply Get_dropUndefined. now apply Hreach.
Qed.

(** ** The texts of the outcomes *)

Lemma decimal_digits n : all_digits (decimal n) = true.
Proof.
  unfold decimal. generalize (Nat.to_uint n) as d.
  induction d; cbn [NilEmpty.string_of_uint all_digits]; auto.
Qed.

Lemma decimal_inj n m : decimal n = decimal m -> n = m.
Proof.
  unfold decimal. intros H.
  apply (f_equal NilEmpty.uint_of_string) in H. rewrite !NilEmpty.usu in H.
  injection H as H. apply (f_equal Nat.of_uint) in H.
  now rewrite !DecimalNat.Unsigned.of_to in H.
Qed.

Lemma digits_prefix_inj s t c d x y :
  all_digits s = true -> all_digits t = true -> is_digit c = false -> is_digit d = false ->
  s ++ String c x = t ++ String d y -> s = t.
Proof.
  revert t. induction s as [|a s IH]; intros [|b t] Hs Ht Hc Hd H; cbn in *.
  - reflexivity.
  - injection H as -> _. apply andb_true_iff in Ht as [Ht _]. congruence.
  - injection H as -> _. apply andb_true_iff in Hs as [Hs _]. congruence.
  - injection H as -> H. apply andb_true_iff in Hs as [_ Hs]. apply andb_true_iff in Ht as [_ Ht].
    f_equal. eapply IH; eauto.
Qed.

Lemma message_inj r r' : message r = message r' -> r = r'.
Proof.
  destruct r as [| |i|i|i], r' as [| |j|j|j]; cbn [message]; intros H;
    try reflexivity; try (simpl in H; discriminate).
  - apply append_inv_head, append_inv_tail, decimal_inj in H. f_equal. lia.
  - apply append_inv_head in H.
    apply digits_prefix_inj in H; auto using decimal_digits.
    apply decimal_inj in H. now subst.
  - apply append_inv_head, append_inv_tail, decimal_inj in H. f_equal. lia.
Qed.

(** X8. The text [validateChain] returns tells the outcome and the block:
    two outcomes have the same text only if they are the same outcome at the
    same block. *)
Theorem message_distinct r r' : message r = message r' <-> r = r'.
Proof. split; [apply message_inj | now intros ->]. Qed.

Lemma validateChain_message secret st r :
  fst (validateChain secret st) = Normal (message r) <-> validate (blockchain st) secret = Normal r.
Proof.
  unfold validateChain. cbn [fst].
  destruct (validate (blockchain st) secret) as [r'|e]; cbn [bind]; split; intros H;
    try discriminate.
  - injection H as H. apply message_inj in H. now subst.
  - now injection H as ->.
Qed.

(** ** What a valid verdict means *)

Lemma checkBlock_None_iff chain secret i b :
  chain !! i = Some b ->
  checkBlock chain secret i = Normal None
  <-> exists h signature,
        calculateHash b = Normal h /\ Get b "currentHash" = Normal (Str h)
        /\ linkedToPrevious chain i b = Normal true
        /\ signRecord b secret = Normal signature
        /\ Get b "signature" = Normal (Str signature).
Proof.
  intros Hb. split.
  - unfold checkBlock. rewrite (nth_lookup_Some_eq _ _ _ Hb).
    destruct (calculateHash b) as [h|]; cbn [bind]; [|discriminate].
    destruct (Get b "currentHash") as [stored|]; cbn [bind]; [|discriminate].
    destruct (strict_eq (Str h) stored) eqn:Eh; cbn [negb]; [|discriminate].
    apply strict_eq_str in Eh. subst stored.
    destruct (linkedToPrevious chain i b) as [[|]|]; cbn [bind negb]; try discriminate.
    destruct (signRecord b secret) as [expected|]; cbn [bind]; [|discriminate].
    destruct (Get b "signature") as [signature|]; cbn [bind]; [|discriminate].
    destruct (strict_eq (Str expected) signature) eqn:Es; cbn [negb]; [|discriminate].
    apply strict_eq_str in Es. subst signature. intros _. now exists h, expected.
  - intros (h & signature & Hh & Hcur & Hlink & Hsign & Hsig).
    rewrite (checkBlock_eval _ _ _ _ h (Str h) true signature (Str signature) Hb); auto.
    cbn [strict_eq]. now rewrite !String.eqb_refl.
Qed.

Lemma checkBlock_failure chain secret i r :
  checkBlock chain secret i = Normal (Some r) ->
  r = HashMismatch i \/ r = BrokenLink i \/ r = SignatureInvalid i.
Proof.
  unfold checkBlock.
  destruct (calculateHash _) as [h|]; cbn [bind]; [|discriminate].
  destruct (Get _ "currentHash") as [stored|]; cbn [bind]; [|discriminate].
  destruct (negb (strict_eq (Str h) stored)); [intros H; injection H as <-; auto|].
  destruct (linkedToPrevious _ _ _) as [[|]|]; cbn [bind negb]; try discriminate.
  2:{ intros H; injection H as <-; auto. }
  destruct (signRecord _ _) as [expected|]; cbn [bind]; [|discriminate].
  destruct (Get _ "signature") as [signature|]; cbn [bind]; [|discriminate].
  destruct (negb _); [intros H; injection H as <-; auto|discriminate].
Qed.

Lemma validateFrom_Valid_inv chain secret count : forall i,
  validateFrom chain secret count i = Normal Valid ->
  forall j, i <= j < i + count -> checkBlock chain secret j = Normal None.
Proof.
  induction count as [|count IH]; intros i H j Hj; [lia|].
  cbn [validateFrom] in H.
  destruct (checkBlock chain secret i) as [[r|]|e] eqn:E; cbn [bind] in H; try discriminate.
  - injection H as ->. apply checkBlock_failure in E as [E|[E|E]]; discriminate.
  - destruct (decide (j = i)) as [->|Hne]; [exact E|]. apply (IH (S i) H). lia.
Qed.

Lemma validate_Valid_checks chain secret :
  validate chain secret = Normal Valid
  <-> chain <> [] /\ forall j, j < length chain -> checkBlock chain secret j = Normal None.
Proof.
  unfold validate. split.
  - destruct chain as [|b chain]; [discriminate|]. cbn [length Nat.eqb].
    intros H. split; [discriminate|]. intros j Hj.
    apply (validateFrom_Valid_inv _ _ _ _ H). cbn [length] in Hj. lia.
  - intros [Hne H]. destruct chain as [|b chain]; [contradiction|]. cbn [length Nat.eqb].
    apply validateFrom_pass. intros j Hj. apply H. cbn [length]. lia.
Qed.

Lemma linkedToPrevious_O chain b : linkedToPrevious chain 0 b = Normal true.
Proof. reflexivity. Qed.

Lemma linkedToPrevious_S chain i b p :
  chain !! i = Some p ->
  linkedToPrevious chain (S i) b
  = (let* previousHash := Get b "previousHash" in
     let* previousCurrentHash := Get p "currentHash" in
     Normal (strict_eq previousHash previousCurrentHash)).
Proof.
  intros Hp. unfold linkedToPrevious. cbn [Nat.ltb Nat.leb].
  replace (S i - 1) with i by lia. now rewrite (nth_lookup_Some_eq _ _ _ Hp).
Qed.

(** A block linked to a predecessor that stores a digest stores that digest. *)
Lemma linked_previous chain i b p hp :
  chain !! i = Some p -> Get p "currentHash" = Normal (Str hp) ->
  linkedToPrevious chain (S i) b = Normal true ->
  Get b "previousHash" = Get p "currentHash".
Proof.
  intros Hp Hcur Hlink. rewrite (linkedToPrevious_S _ _ _ _ Hp), Hcur in Hlink. rewrite Hcur.
  destruct (Get b "previousHash") as [x|]; cbn [bind] in Hlink; [|discriminate].
  injection Hlink as Hlink. apply strict_eq_str_r in Hlink. now subst.
Qed.

(** X9. [validateChain] answers that the chain is valid exactly when the
    chain is not empty and every block stores the digest recomputed from its
    fields, stores the signature derived from its fields and the supplied
    secret, and, after the first block, stores as [previousHash] the
    [currentHash] of the block before it. *)
Theorem valid_verdict_meaning secret st :
  fst (validateChain secret st) = Normal (message Valid)
  <-> blockchain st <> []
      /\ forall i b, blockchain st !! i = Some b ->
           blockOK secret (previousOf (blockchain st) i) b.
Proof.
  rewrite validateChain_message, validate_Valid_checks.
  generalize (blockchain st) as chain. intros chain.
  split; intros [Hne H]; (split; [exact Hne|]).
  - intros i b Hb.
    pose proof (H i (lookup_lt_Some _ _ _ Hb)) as Hi.
    apply (checkBlock_None_iff _ _ _ _ Hb) in Hi
      as (h & signature & Hh & Hcur & Hlink & Hsign & Hsig).
    exists h, signature. repeat (split; [assumption|]).
    destruct i as [|i]; cbn [previousOf]; [exact I|].
    destruct (chain !! i) as [p|] eqn:Hp; [|exact I].
    assert (Hil : i < length chain) by (apply lookup_lt_Some in Hp; exact Hp).
    pose proof (H i Hil) as Hpi.
    apply (checkBlock_None_iff _ _ _ _ Hp) in Hpi as (hp & _ & _ & Hpcur & _).
    exact (linked_previous _ _ _ _ _ Hp Hpcur Hlink).
  - intros j Hj. destruct (lookup_lt_is_Some_2 chain j Hj) as [b Hb].
    apply (checkBlock_None_iff _ _ _ _ Hb).
    destruct (H j b Hb) as (h & signature & Hh & Hcur & Hsign & Hsig & Hprev).
    exists h, signature. repeat (split; [assumption|]). split; [|now split].
    destruct j as [|j]; [reflexivity|]. cbn [previousOf] in Hprev.
    assert (Hjl : j < length chain) by lia.
    destruct (lookup_lt_is_Some_2 chain j Hjl) as [p Hp]. rewrite Hp in Hprev.
    rewrite (linkedToPrevious_S _ _ _ _ Hp).
    destruct (H j p Hp) as (hp & _ & _ & Hpcur & _).
    rewrite Hprev, Hpcur. cbn [bind strict_eq]. now rewrite String.eqb_refl.
Qed.

Lemma checkBlock_segment pre seg post secret j :
  j < length seg ->
  checkBlock (pre ++ seg ++ post)%list secret (length pre + j) = Normal None ->
  checkBlock seg secret j = Normal None.
Proof.
  intros Hj.
  destruct (lookup_lt_is_Some_2 seg j Hj) as [b Hb].
  assert (Hb' : ((pre ++ seg ++ post)%list : list value) !! (length pre + j) = Some b).
  { rewrite lookup_app_r by lia. replace (length pre + j - length pre) with j by lia.
    now apply lookup_app_l_Some. }
  rewrite (checkBlock_None_iff _ _ _ _ Hb'), (checkBlock_None_iff _ _ _ _ Hb).
  intros (h & signature & Hh & Hcur & Hlink & Hsign & Hsig).
  exists h, signature. repeat (split; [assumption|]). split; [|now split].
  destruct j as [|j]; [reflexivity|].
  assert (Hjl : j < length seg) by lia.
  destruct (lookup_lt_is_Some_2 seg j Hjl) as [p Hp].
  assert (Hp' : ((pre ++ seg ++ post)%list : list value) !! (length pre + j) = Some p).
  { rewrite lookup_app_r by lia. replace (length pre + j - length pre) with j by lia.
    now apply lookup_app_l_Some. }
  replace (length pre + S j) with (S (length pre + j)) in Hlink by lia.
  rewrite (linkedToPrevious_S _ _ _ _ Hp') in Hlink.
  now rewrite (linkedToPrevious_S _ _ _ _ Hp).
Qed.

(** X10. Every run of consecutive blocks of a valid chain is a valid chain
    by itself: [validateChain] does not ask the first block to point at the
    sentinel, nor the chain to be complete, so that blocks cut off at either
    end go unnoticed. *)
Theorem valid_segment secret st pre seg post :
  blockchain st = (pre ++ seg ++ post)%list -> seg <> [] ->
  fst (validateChain secret st) = Normal (message Valid) ->
  fst (validateChain secret (set_blockchain seg st)) = Normal (message Valid).
Proof.
  intros Hchain Hne. rewrite !validateChain_message, !validate_Valid_checks.
  cbn [set_blockchain blockchain]. rewrite Hchain.
  intros [_ H]. split; [exact Hne|]. intros j Hj.
  apply (checkBlock_segment pre seg post); [exact Hj|].
  apply H. rewrite !length_app. lia.
Qed.

Lemma validateFrom_failure_inv chain secret count : forall i r,
  validateFrom chain secret count i = Normal r -> r <> Valid ->
  exists k, i <= k < i + count
            /\ (forall j, i <= j < k -> checkBlock chain secret j = Normal None)
            /\ checkBlock chain secret k = Normal (Some r).
Proof.
  induction count as [|count IH]; intros i r H Hr; cbn [validateFrom] in H.
  - injection H as <-. contradiction.
  - destruct (checkBlock chain secret i) as [[r'|]|e] eqn:E; cbn [bind] in H; try discriminate.
    + injection H as ->. exists i. split; [lia|]. split; [intros j Hj; lia|exact E].
    + destruct (IH (S i) r H Hr) as (k & Hk & Hpass & Hfail).
      exists k. split; [lia|]. split; [|exact Hfail].
      intros j Hj. destruct (decide (j = i)) as [->|Hne]; [exact E|]. apply Hpass. lia.
Qed.

Lemma checks_blockOK chain secret i :
  i <= length chain ->
  (forall j, j < i -> checkBlock chain secret j = Normal None) ->
  passedBefore secret chain i.
Proof.
  intros Hi Hpass j b Hj Hb.
  pose proof (Hpass j Hj) as Hc.
  apply (checkBlock_None_iff _ _ _ _ Hb) in Hc as (h & signature & Hh & Hcur & Hlink & Hsign & Hsig).
  exists h, signature. repeat (split; [assumption|]).
  destruct j as [|j]; cbn [previousOf]; [exact I|].
  destruct (chain !! j) as [p|] eqn:Hp; [|exact I].
  assert (Hji : j < i) by lia.
  pose proof (Hpass j Hji) as Hpj.
  apply (checkBlock_None_iff _ _ _ _ Hp) in Hpj as (hp & _ & _ & Hpcur & _).
  exact (linked_previous _ _ _ _ _ Hp Hpcur Hlink).
Qed.

Lemma validate_failure_inv chain secret r :
  validate chain secret = Normal r -> r <> Valid -> r <> Empty ->
  exists k b, chain !! k = Some b
              /\ passedBefore secret chain k
              /\ checkBlock chain secret k = Normal (Some r).
Proof.
  unfold validate. destruct (_ =? _)%nat; [intros H; injection H as <-; contradiction|].
  intros H Hr _. destruct (validateFrom_failure_inv _ _ _ _ _ H Hr) as (k & Hk & Hpass & Hfail).
  assert (Hkl : k < length chain) by lia.
  destruct (lookup_lt_is_Some_2 chain k Hkl) as [b Hb].
  exists k, b. split; [exact Hb|]. split; [|exact Hfail].
  apply checks_blockOK; [lia|]. intros j Hj. apply Hpass. lia.
Qed.

Lemma checkBlock_Some_inv chain secret i b r :
  chain !! i = Some b -> checkBlock chain secret i = Normal (Some r) ->
  exists h stored,
    calculateHash b = Normal h /\ Get b "currentHash" = Normal stored
    /\ ((r = HashMismatch i /\ stored <> Str h)
        \/ (stored = Str h
            /\ ((r = BrokenLink i /\ linkedToPrevious chain i b = Normal false)
                \/ (linkedToPrevious chain i b = Normal true
                    /\ exists expected signature,
                         r = SignatureInvalid i
                         /\ signRecord b secret = Normal expected
                         /\ Get b "signature" = Normal signature
                         /\ signature <> Str expected)))).
Proof.
  intros Hb. unfold checkBlock. rewrite (nth_lookup_Some_eq _ _ _ Hb).
  destruct (calculateHash b) as [h|]; cbn [bind]; [|discriminate].
  destruct (Get b "currentHash") as [stored|]; cbn [bind]; [|discriminate].
  destruct (strict_eq (Str h) stored) eqn:Eh; cbn [negb].
  2:{ intros H. injection H as <-. exists h, stored. repeat (split; [reflexivity|]).
      left. split; [reflexivity|]. intros ->. now rewrite strict_eq_refl_str in Eh. }
  apply strict_eq_str in Eh. subst stored.
  destruct (linkedToPrevious chain i b) as [[|]|]; cbn [bind negb]; try discriminate.
  2:{ intros H. injection H as <-. exists h, (Str h). repeat (split; [reflexivity|]).
      right. split; [reflexivity|]. now left. }
  destruct (signRecord b secret) as [expected|]; cbn [bind]; [|discriminate].
  destruct (Get b "signature") as [signature|]; cbn [bind]; [|discriminate].
  destruct (strict_eq (Str expected) signature) eqn:Es; cbn [negb]; [discriminate|].
  intros H. injection H as <-. exists h, (Str h). repeat (split; [reflexivity|]).
  right. split; [reflexivity|]. right. split; [reflexivity|].
  exists expected, signature. repeat (split; [reflexivity|]).
  intros ->. now rewrite strict_eq_refl_str in Es.
Qed.

(** X11. What a failing verdict means: the blocks before the reported one
    pass the three checks, and the reported block fails the named check
    after passing the ones before it. A hash mismatch: the stored digest is
    not the recomputed one. A broken link: the digest is right, and
    [previousHash] is not the [currentHash] of the block before. An invalid
    signature: digest and link are right, and the stored signature is not
    the one derived from the supplied secret. The empty verdict is given
    for the empty chain only. *)
Theorem failing_verdict_meaning secret st r :
  fst (validateChain secret st) = Normal (message r) ->
  match r with
  | Empty => blockchain st = []
  | Valid => True
  | HashMismatch i =>
      passedBefore secret (blockchain st) i
      /\ exists b h stored,
           blockchain st !! i = Some b /\ calculateHash b = Normal h
           /\ Get b "currentHash" = Normal stored /\ stored <> Str h
  | BrokenLink i =>
      passedBefore secret (blockchain st) i
      /\ exists b p h x,
           blockchain st !! i = Some b /\ previousOf (blockchain st) i = Some p
           /\ calculateHash b = Normal h /\ Get b "currentHash" = Normal (Str h)
           /\ Get b "previousHash" = Normal x /\ Get p "currentHash" <> Normal x
  | SignatureInvalid i =>
      passedBefore secret (blockchain st) i
      /\ exists b h expected stored,
           blockchain st !! i = Some b
           /\ calculateHash b = Normal h /\ Get b "currentHash" = Normal (Str h)
           /\ match previousOf (blockchain st) i with
              | Some p => Get b "previousHash" = Get p "currentHash"
              | None => True
              end
           /\ signRecord b secret = Normal expected
           /\ Get b "signature" = Normal stored /\ stored <> Str expected
  end.
Proof.
  rewrite validateChain_message. generalize (blockchain st) as chain. intros chain H.
  destruct r as [| |i|i|i]; [|exact I|..].
  - unfold validate in H. destruct chain as [|b chain]; [reflexivity|].
    cbn [length Nat.eqb] in H.
    assert (E : Empty <> Valid) by discriminate.
    destruct (validateFrom_failure_inv _ _ _ _ _ H E) as (k & _ & _ & Hfail).
    apply checkBlock_failure in Hfail as [Hf|[Hf|Hf]]; discriminate.
  - destruct (validate_failure_inv _ _ _ H) as (k & b & Hb & Hpass & Hfail); try discriminate.
    destruct (checkBlock_Some_inv _ _ _ _ _ Hb Hfail)
      as (h & stored & Hh & Hcur & [[Hr Hne]|[-> [[Hr _]|(_ & e & s & Hr & _)]]]);
      try discriminate.
    injection Hr as <-. split; [exact Hpass|]. now exists b, h, stored.
  - destruct (validate_failure_inv _ _ _ H) as (k & b & Hb & Hpass & Hfail); try discriminate.
    destruct (checkBlock_Some_inv _ _ _ _ _ Hb Hfail)
      as (h & stored & Hh & Hcur & [[Hr Hne]|[-> [[Hr Hlink]|(_ & e & s & Hr & _)]]]);
      try discriminate.
    injection Hr as <-. split; [exact Hpass|].
    destruct i as [|i]; [discriminate|].
    assert (Hil : i < length chain) by (apply lookup_lt_Some in Hb; lia).
    destruct (lookup_lt_is_Some_2 chain i Hil) as [p Hp].
    rewrite (linkedToPrevious_S _ _ _ _ Hp) in Hlink.
    destruct (Hpass i p (Nat.lt_succ_diag_r i) Hp) as (hp & _ & _ & Hpcur & _).
    rewrite Hpcur in Hlink.
    destruct (Get b "previousHash") as [x|] eqn:Hx; cbn [bind] in Hlink; [|discriminate].
    injection Hlink as Hlink.
    exists b, p, h, x. cbn [previousOf]. repeat (split; [assumption|]).
    rewrite Hpcur. intros E. injection E as <-. cbn in Hlink.
    now rewrite String.eqb_refl in Hlink.
  - destruct (validate_failure_inv _ _ _ H) as (k & b & Hb & Hpass & Hfail); try discriminate.
    destruct (checkBlock_Some_inv _ _ _ _ _ Hb Hfail)
      as (h & stored & Hh & Hcur & [[Hr Hne]|[-> [[Hr _]|(Hlink & e & s & Hr & Hsign & Hsig & Hne)]]]);
      try discriminate.
    injection Hr as <-. split; [exact Hpass|].
    exists b, h, e, s. repeat (split; [assumption|]).
    split; [|now repeat split].
    destruct i as [|i]; cbn [previousOf]; [exact I|].
    destruct (chain !! i) as [p|] eqn:Hp; [|exact I].
    destruct (Hpass i p (Nat.lt_succ_diag_r i) Hp) as (hp & _ & _ & Hpcur & _).
    exact (linked_previous _ _ _ _ _ Hp Hpcur Hlink).
Qed.

(** ** Sessions *)

Lemma built_addBlock_step secrets st record userSecret now :
  built secrets (blockchain st) ->
  built secrets (blockchain (snd (addBlock (Literal record) userSecret now st)))
  \/ built (secrets ++ [userSecret])%list (blockchain (snd (addBlock (Literal record) userSecret now st))).
Proof.
  intros Hb.
  destruct (addBlock_chain record userSecret now st) as [Heq|(p & s & c & _ & _ & _ & Heq)].
  - left. now rewrite Heq.
  - right. apply built_addBlock; [exact Hb|]. rewrite Heq. intros H.
    apply (f_equal (@length _)) in H. rewrite length_app in H. cbn [length] in H. lia.
Qed.

Lemma run_built secret op st st' secrets :
  isUpload op = false -> signsWith secret op -> run op st = st' ->
  built secrets (blockchain st) -> Forall (eq secret) secrets ->
  exists secrets', built secrets' (blockchain st') /\ Forall (eq secret) secrets'.
Proof.
  intros Hop Hsec Hrun Hb Hall.
  assert (Hsame : forall st1, blockchain st1 = blockchain st ->
                  exists secrets', built secrets' (blockchain st1) /\ Forall (eq secret) secrets').
  { intros st1 ->. now exists secrets. }
  assert (Hadd : forall record now,
            exists secrets', built secrets' (blockchain (snd (addBlock (Literal record) secret now st)))
                             /\ Forall (eq secret) secrets').
  { intros record now.
    destruct (built_addBlock_step secrets st record secret now Hb) as [H|H].
    - now exists secrets.
    - exists (secrets ++ [secret])%list. split; [exact H|].
      apply Forall_app. split; [exact Hall|]. now constructor. }
  destruct op; try discriminate; cbn [run] in Hrun; cbn [signsWith] in Hsec;
    first [subst st'|subst st].
  - subst userSecret. unfold registerProperty_click.
    destruct (negb _); [now apply Hsame|].
    destruct (find _ _) as [alreadyExists|]; [|now apply Hsame].
    destruct (truthy alreadyExists); [now apply Hsame|].
    destruct (_ && _); [|now apply Hsame].
    match goal with |- context [addBlock (Literal ?r) ?s ?n ?st] =>
      specialize (Hadd r n); destruct (addBlock (Literal r) s n st) as [[u|e] st1] end; exact Hadd.
  - subst userSecret. unfold transferProperty_click.
    destruct (negb _); [now apply Hsame|].
    destruct (_ && _); [|now apply Hsame].
    destruct (find _ _) as [found|]; [|now apply Hsame].
    destruct (negb (truthy found)); [now apply Hsame|].
    match goal with |- context [addBlock (Literal ?r) ?s ?n ?st] =>
      specialize (Hadd r n); destruct (addBlock (Literal r) s n st) as [[u|e] st1] end; exact Hadd.
  - apply Hsame. unfold showTimeline_click.
    destruct (negb _); [reflexivity|]. now rewrite showTimeline_state.
  - apply Hsame. unfold validateChain_click.
    destruct (negb _); [reflexivity|]. unfold validateChain.
    destruct (bind _ _); reflexivity.
  - apply Hsame. unfold downloadLedger_click.
    destruct (_ =? _)%nat; reflexivity.
Qed.

Lemma session_built secret ops : forall st st' secrets,
  List.forallb (fun op => negb (isUpload op)) ops = true ->
  Forall (signsWith secret) ops ->
  runAll ops st = st' ->
  built secrets (blockchain st) -> Forall (eq secret) secrets ->
  exists secrets', built secrets' (blockchain st') /\ Forall (eq secret) secrets'.
Proof.
  induction ops as [|op ops IH]; intros st st' secrets Hops Hsec Hrun Hb Hall;
    cbn [runAll] in Hrun.
  - first [subst st'|subst st]. now exists secrets.
  - cbn [List.forallb] in Hops. apply andb_true_iff in Hops as [Hop Hops].
    apply negb_true_iff in Hop. apply Forall_cons in Hsec as [Hs Hsec].
    remember (run op st) as st1 eqn:E; symmetry in E.
    destruct (run_built secret op st st1 secrets Hop Hs E Hb Hall) as (secrets1 & Hb1 & Hall1).
    eapply IH; eauto.
Qed.

(** X12. A session without import, its operations run one after the other
    (each handler has returned before the next event is taken up), in which
    every registration and transfer is signed under one secret ends in a
    chain that the validation button, given that secret, reports as valid
    (as empty if nothing was added). *)
Theorem session_validates secret ops st :
  List.forallb (fun op => negb (isUpload op)) ops = true ->
  Forall (signsWith secret) ops ->
  secret <> EmptyString ->
  runAll ops initial = st ->
  validationResult (snd (validateChain_click secret st))
  = message (match blockchain st with [] => Empty | _ => Valid end).
Proof.
  intros Hops Hsec Hne Hrun.
  destruct (session_built secret ops initial st [] Hops Hsec Hrun)
    as (secrets & Hb & Hall); [constructor|constructor|].
  unfold validateChain_click, validateChain.
  destruct secret as [|c secret]; [contradiction|]. cbn [truthy negb].
  rewrite (validate_sealed secrets _ _ (built_sealed _ _ Hb) Hall). reflexivity.
Qed.

(** *** The invariant of the chains made through the forms *)

Lemma Get_nullish b k : nullish b = false -> exists v, Get b k = Normal v.
Proof. destruct b; cbn; try discriminate; eauto. Qed.

Lemma Get_nullish_throw b k : nullish b = true -> Get b k = Throw TypeError.
Proof. destruct b; cbn; try discriminate; eauto. Qed.

Lemma pageBlock_nullish b : pageBlock b -> nullish b = false.
Proof. intros (props & id & owner & action & -> & _). reflexivity. Qed.

Lemma pageBlock_truthy b : pageBlock b -> truthy b = true.
Proof. intros (props & id & owner & action & -> & _). reflexivity. Qed.

Lemma Forall_pageBlock_nullish chain : Forall pageBlock chain -> existsb nullish chain = false.
Proof.
  induction 1 as [|b chain Hb _ IH]; [reflexivity|].
  cbn [existsb]. now rewrite (pageBlock_nullish _ Hb), IH.
Qed.

Lemma hasAction_exclusive b : hasAction "Transfer" b = true -> hasAction "Register" b = false.
Proof.
  unfold hasAction. destruct (Get b "action") as [v|]; [|discriminate].
  intros H. apply strict_eq_str_r in H. now subst.
Qed.

Lemma pageBlock_action b :
  pageBlock b -> hasAction "Register" b = negb (hasAction "Transfer" b).
Proof.
  intros (props & id & owner & action & -> & _ & _ & _ & _ & Hact & [->| ->]);
    unfold hasAction; cbn [Get]; rewrite Hact; reflexivity.
Qed.


Lemma timelineBlocks_throw id chain :
  existsb nullish chain = true -> timelineBlocks id chain = Throw TypeError.
Proof.
  induction chain as [|b chain IH]; [discriminate|].
  cbn [existsb timelineBlocks]. intros H.
  destruct (nullish b) eqn:Hb.
  - now rewrite (Get_nullish_throw b _ Hb).
  - destruct (Get_nullish b "propertyID" Hb) as [v ->]. cbn [bind].
    rewrite (IH H). reflexivity.
Qed.

Lemma find_eval (pred : value -> completion bool) (test : value -> bool) chain :
  (forall b, In b chain -> pred b = Normal (test b)) ->
  find pred chain
  = Normal (match List.find test chain with Some b => b | None => Undefined end).
Proof.
  induction chain as [|b chain IH]; intros H; [reflexivity|].
  cbn [find List.find]. rewrite (H b) by now left. cbn [bind].
  destruct (test b); [reflexivity|]. apply IH. intros b' Hb'. apply H. now right.
Qed.

Lemma registered_pred id b :
  nullish b = false ->
  (let* v := Get b "propertyID" in
   if strict_eq v (Str id) then
     let* action := Get b "action" in Normal (strict_eq action (Str "Register"))
   else Normal false)
  = Normal (hasId id b && hasAction "Register" b).
Proof.
  intros Hb. unfold hasId, hasAction.
  destruct (Get_nullish b "propertyID" Hb) as [v ->].
  destruct (Get_nullish b "action" Hb) as [a ->]. cbn [bind].
  destruct (strict_eq v (Str id)); reflexivity.
Qed.

Lemma found_pred id b :
  nullish b = false ->
  (let* v := Get b "propertyID" in Normal (strict_eq v (Str id))) = Normal (hasId id b).
Proof.
  intros Hb. unfold hasId. destruct (Get_nullish b "propertyID" Hb) as [v ->]. reflexivity.
Qed.

Lemma sealedBlock_Get record previousHash now signature currentHash f :
  ~ In f ["previousHash"; "timestamp"; "signature"; "currentHash"] ->
  Get (sealedBlock record previousHash now signature currentHash) f
  = Normal (lookup_prop f record).
Proof.
  intros Hf. unfold sealedBlock. cbn [Get]. f_equal.
  rewrite !lookup_put_ne; [reflexivity|..]; intros <-; apply Hf; simpl; tauto.
Qed.

Lemma sealedBlock_pageBlock record previousHash now signature currentHash id owner action :
  lookup_prop "propertyID" record = Str id -> id <> EmptyString ->
  lookup_prop "owner" record = Str owner -> owner <> EmptyString ->
  lookup_prop "action" record = Str action -> action = "Register" \/ action = "Transfer" ->
  pageBlock (sealedBlock record previousHash now signature currentHash).
Proof.
  intros Hid Hidne Hown Hownne Hact Hcase.
  eexists _, id, owner, action. split; [reflexivity|].
  assert (Hl : forall f, ~ In f ["previousHash"; "timestamp"; "signature"; "currentHash"] ->
                 lookup_prop f
                   (put "currentHash" (Str currentHash)
                      (put "signature" (Str signature)
                         (put "timestamp" (Str now) (put "previousHash" previousHash record))))
                 = lookup_prop f record).
  { intros f Hf. rewrite !lookup_put_ne; [reflexivity|..]; intros <-; apply Hf; simpl; tauto. }
  rewrite !Hl by (simpl; intuition discriminate). auto 10.
Qed.

Lemma truthy_Str s : truthy (Str s) = true <-> s <> EmptyString.
Proof. destruct s; cbn; split; intros H; congruence. Qed.

Lemma history_app l l' : history (l ++ l') -> history l.
Proof.
  destruct l as [|r ts]; [constructor|]. cbn [history app].
  intros [Hr Hts]. split; [exact Hr|]. now apply Forall_app in Hts as [Hts _].
Qed.

Lemma ledger_app chain chain' : ledger (chain ++ chain') -> ledger chain.
Proof.
  intros [Hp Hh]. split.
  - now apply Forall_app in Hp as [Hp _].
  - intros id. specialize (Hh id). rewrite List.filter_app in Hh. now apply history_app in Hh.
Qed.

Lemma filter_nil_iff (f : value -> bool) chain :
  List.filter f chain = [] <-> forall b, In b chain -> f b = false.
Proof.
  induction chain as [|b chain IH]; cbn [List.filter].
  - split; [intros _ b []|reflexivity].
  - destruct (f b) eqn:E; split; intros H.
    + discriminate.
    + specialize (H b (or_introl eq_refl)). congruence.
    + intros b' [<-|Hb']; [exact E|]. now apply IH.
    + apply IH. intros b' Hb'. apply H. now right.
Qed.

Lemma ledger_register chain blk id :
  ledger chain -> pageBlock blk -> hasId id blk = true -> hasAction "Register" blk = true ->
  (forall b, In b chain -> hasId id b && hasAction "Register" b = false) ->
  ledger (chain ++ [blk]).
Proof.
  intros [Hp Hh] Hblk Hid Hact Hfresh. split.
  - apply Forall_app. split; [exact Hp|]. now constructor.
  - intros id'. rewrite List.filter_app. cbn [List.filter].
    destruct (hasId id' blk) eqn:Hid'; [|rewrite app_nil_r; apply Hh].
    assert (id' = id) as ->.
    { unfold hasId in Hid, Hid'. destruct (Get blk "propertyID") as [v|]; [|discriminate].
      apply strict_eq_str_r in Hid, Hid'. congruence. }
    specialize (Hh id). destruct (List.filter (hasId id) chain) as [|r ts] eqn:E.
    + cbn. split; [exact Hact|constructor].
    + exfalso. destruct Hh as [Hr _].
      assert (Hin : In r (List.filter (hasId id) chain)) by (rewrite E; now left).
      apply filter_In in Hin as [Hin Hrid].
      specialize (Hfresh r Hin). rewrite Hrid, Hr in Hfresh. discriminate.
Qed.

Lemma ledger_transfer chain blk id found :
  ledger chain -> pageBlock blk -> hasId id blk = true -> hasAction "Transfer" blk = true ->
  In found chain -> hasId id found = true ->
  ledger (chain ++ [blk]).
Proof.
  intros [Hp Hh] Hblk Hid Hact Hin Hfound. split.
  - apply Forall_app. split; [exact Hp|]. now constructor.
  - intros id'. rewrite List.filter_app. cbn [List.filter].
    destruct (hasId id' blk) eqn:Hid'; [|rewrite app_nil_r; apply Hh].
    assert (id' = id) as ->.
    { unfold hasId in Hid, Hid'. destruct (Get blk "propertyID") as [v|]; [|discriminate].
      apply strict_eq_str_r in Hid, Hid'. congruence. }
    specialize (Hh id). destruct (List.filter (hasId id) chain) as [|r ts] eqn:E.
    + exfalso. assert (Hf : In found (List.filter (hasId id) chain))
        by (apply filter_In; now split).
      now rewrite E in Hf.
    + cbn [app history] in *. destruct Hh as [Hr Hts]. split; [exact Hr|].
      apply Forall_app. split; [exact Hts|]. now constructor.
Qed.

Lemma run_ledger op st st' :
  isUpload op = false -> run op st = st' ->
  ledger (blockchain st) -> ledger (blockchain st').
Proof.
  intros Hop Hrun Hl. pose proof Hl as [Hp Hh].
  pose proof (Forall_pageBlock_nullish _ Hp) as Hnn.
  assert (Hnull : forall b, In b (blockchain st) -> nullish b = false).
  { intros b Hb. rewrite List.Forall_forall in Hp. now apply pageBlock_nullish, Hp. }
  destruct op; try discriminate; cbn [run] in Hrun; first [subst st'|subst st].
  - unfold registerProperty_click.
    destruct (negb _); [exact Hl|].
    rewrite (find_eval _ (fun b => hasId propertyID b && hasAction "Register" b))
      by (intros b Hb; apply registered_pred; auto).
    destruct (List.find _ (blockchain st)) as [b|] eqn:Hfind.
    { apply find_some in Hfind as [Hb _]. rewrite List.Forall_forall in Hp.
      now rewrite (pageBlock_truthy _ (Hp _ Hb)). }
    change (truthy Undefined) with false. cbv iota.
    destruct (truthy (Str propertyID) && truthy (Str owner)) eqn:Hfields; [|exact Hl].
    apply andb_true_iff in Hfields as [Hid Hown].
    apply truthy_Str in Hid, Hown.
    match goal with |- context [addBlock (Literal ?r) ?s ?n ?st] =>
      destruct (addBlock_chain r s n st) as [Heq|(p & sg & h & _ & _ & _ & Heq)];
      destruct (addBlock (Literal r) s n st) as [[u|e] st1] end;
      cbn [snd blockchain add_alert] in *; rewrite Heq; try exact Hl.
    all: apply (ledger_register _ _ propertyID);
      [ exact Hl
      | eapply sealedBlock_pageBlock; try reflexivity; auto
      | unfold hasId; rewrite sealedBlock_Get by (simpl; intuition discriminate);
        cbn; apply String.eqb_refl
      | unfold hasAction; rewrite sealedBlock_Get by (simpl; intuition discriminate);
        reflexivity
      | intros b Hb; apply (find_none _ _ Hfind b Hb) ].
  - unfold transferProperty_click.
    destruct (negb _); [exact Hl|].
    destruct (truthy (Str propertyID) && truthy (Str newOwner)) eqn:Hfields; [|exact Hl].
    apply andb_true_iff in Hfields as [Hid Hown].
    apply truthy_Str in Hid, Hown.
    rewrite (find_eval _ (hasId propertyID))
      by (intros b Hb; apply found_pred; auto).
    destruct (List.find _ (blockchain st)) as [b|] eqn:Hfind; [|exact Hl].
    apply find_some in Hfind as [Hb Hbid].
    assert (Hpb : pageBlock b) by (rewrite List.Forall_forall in Hp; auto).
    rewrite (pageBlock_truthy _ Hpb). cbn [negb].
    match goal with |- context [addBlock (Literal ?r) ?s ?n ?st] =>
      destruct (addBlock_chain r s n st) as [Heq|(p & sg & h & _ & _ & _ & Heq)];
      destruct (addBlock (Literal r) s n st) as [[u|e] st1] end;
      cbn [snd blockchain add_alert] in *; rewrite Heq; try exact Hl.
    all: apply (ledger_transfer _ _ propertyID b);
      [ exact Hl
      | eapply sealedBlock_pageBlock; try reflexivity; auto
      | unfold hasId; rewrite sealedBlock_Get by (simpl; intuition discriminate);
        cbn; apply String.eqb_refl
      | unfold hasAction; rewrite sealedBlock_Get by (simpl; intuition discriminate);
        reflexivity
      | exact Hb
      | exact Hbid ].
  - unfold showTimeline_click.
    destruct (negb _); [exact Hl|]. now rewrite showTimeline_state.
  - unfold validateChain_click.
    destruct (negb _); [exact Hl|]. unfold validateChain.
    destruct (bind _ _); exact Hl.
  - unfold downloadLedger_click.
    destruct (_ =? _)%nat; exact Hl.
Qed.

Lemma session_ledger ops : forall st st',
  List.forallb (fun op => negb (isUpload op)) ops = true ->
  runAll ops st = st' -> ledger (blockchain st) -> ledger (blockchain st').
Proof.
  induction ops as [|op ops IH]; intros st st' Hops Hrun Hl; cbn [runAll] in Hrun.
  - now first [subst st'|subst st].
  - cbn [List.forallb] in Hops. apply andb_true_iff in Hops as [Hop Hops].
    apply negb_true_iff in Hop.
    remember (run op st) as st1 eqn:E; symmetry in E.
    apply (IH st1 st' Hops Hrun). eapply run_ledger; eauto.
Qed.

Lemma ledger_initial : ledger (blockchain initial).
Proof. split; [constructor|intros id; exact I]. Qed.


Lemma filter_andb (f g : value -> bool) chain :
  List.filter (fun b => f b && g b) chain = List.filter g (List.filter f chain).
Proof.
  induction chain as [|b chain IH]; [reflexivity|]. cbn [List.filter].
  destruct (f b); cbn [andb List.filter]; [destruct (g b)|]; now rewrite IH.
Qed.

Lemma history_registered l : history l -> length (List.filter (hasAction "Register") l) <= 1.
Proof.
  destruct l as [|r ts]; [cbn; lia|]. intros [Hr Hts]. cbn [List.filter]. rewrite Hr.
  replace (List.filter (hasAction "Register") ts) with (@nil value); [cbn; lia|].
  symmetry. apply filter_nil_iff. intros b Hb. rewrite List.Forall_forall in Hts.
  now apply hasAction_exclusive, Hts.
Qed.

(** X14. In a session without import, its operations run one after the
    other, no property is registered twice: the chain holds at most one
    Register block for each property ID. *)
Theorem single_registration ops st id :
  List.forallb (fun op => negb (isUpload op)) ops = true ->
  runAll ops initial = st ->
  length (List.filter (fun b => hasId id b && hasAction "Register" b) (blockchain st)) <= 1.
Proof.
  intros Hops Hrun.
  destruct (session_ledger ops initial st Hops Hrun ledger_initial) as [_ Hh].
  rewrite filter_andb. apply history_registered, Hh.
Qed.

(** X15. In a session without import every Transfer block comes after the
    Register block of the same property. *)
Theorem transfer_follows_registration ops st pre b post id :
  List.forallb (fun op => negb (isUpload op)) ops = true ->
  runAll ops initial = st ->
  blockchain st = (pre ++ b :: post)%list ->
  hasAction "Transfer" b = true -> hasId id b = true ->
  List.existsb (fun r => hasId id r && hasAction "Register" r) pre = true.
Proof.
  intros Hops Hrun Hchain Hact Hid.
  destruct (session_ledger ops initial st Hops Hrun ledger_initial) as [_ Hh].
  specialize (Hh id). rewrite Hchain, List.filter_app in Hh. cbn [List.filter] in Hh.
  rewrite Hid in Hh.
  destruct (List.filter (hasId id) pre) as [|r ts] eqn:E.
  - cbn in Hh. destruct Hh as [Hr _]. apply hasAction_exclusive in Hact. congruence.
  - destruct Hh as [Hr _].
    assert (Hin : In r (List.filter (hasId id) pre)) by (rewrite E; now left).
    apply filter_In in Hin as [Hin Hrid].
    apply existsb_exists. exists r. split; [exact Hin|]. now rewrite Hrid, Hr.
Qed.

(** ** Statistics *)

Lemma forEach_app {A : Type} (f : A -> value -> completion A) l l' : forall acc,
  forEach f acc (l ++ l') = (let* acc' := forEach f acc l in forEach f acc' l').
Proof.
  induction l as [|b l IH]; intros acc; [reflexivity|].
  cbn [app forEach]. destruct (f acc b) as [acc1|e]; cbn [bind]; auto.
Qed.

(** ** The views *)

Lemma embed_plain v : (v = Undefined \/ exists s, v = Str s) -> embed v = Normal tt.
Proof. intros [->|[s ->]]; reflexivity. Qed.

Lemma embed_or_else v :
  (v = Undefined \/ exists s, v = Str s) -> embed (or_else v (Str "N/A")) = Normal tt.
Proof.
  intros [->|[s ->]]; [reflexivity|]. unfold or_else. destruct (truthy (Str s)); reflexivity.
Qed.

Lemma renderLedger_app chain chain' :
  renderLedger (chain ++ chain') = (let* shown := renderLedger chain in renderLedger chain').
Proof.
  unfold renderLedger. rewrite forEach_app.
  destruct (forEach _ tt chain) as [[]|e]; reflexivity.
Qed.

Lemma renderLedger_snoc chain b :
  renderLedger chain = Normal tt -> ledgerItem b = Normal tt ->
  renderLedger (chain ++ [b]) = Normal tt.
Proof.
  intros H Hb. rewrite renderLedger_app, H. cbn [bind]. unfold renderLedger. cbn [forEach].
  now rewrite Hb.
Qed.

Lemma renderLedger_last chain b :
  renderLedger (chain ++ [b]) = Normal tt -> ledgerItem b = Normal tt.
Proof.
  rewrite renderLedger_app. destruct (renderLedger chain) as [[]|e]; cbn [bind]; [|discriminate].
  unfold renderLedger. cbn [forEach]. destruct (ledgerItem b) as [[]|e]; [reflexivity|discriminate].
Qed.

Lemma renderLedger_nullish chain :
  renderLedger chain = Normal tt -> List.existsb nullish chain = false.
Proof.
  unfold renderLedger. induction chain as [|b chain IH]; [reflexivity|].
  cbn [forEach List.existsb]. destruct (nullish b) eqn:Hb.
  - unfold ledgerItem. now rewrite (Get_nullish_throw b _ Hb).
  - destruct (ledgerItem b) as [[]|e]; cbn [bind]; [exact IH|discriminate].
Qed.

Lemma ledgerItem_currentHash b v :
  ledgerItem b = Normal tt -> Get b "currentHash" = Normal v -> embed v = Normal tt.
Proof.
  unfold ledgerItem, formatTime. intros H Hv. rewrite Hv in H.
  repeat match type of H with
         | bind (Get b ?f) _ = _ =>
             destruct (Get b f) as [?|?]; cbn [bind] in H; [|discriminate]
         | bind (embed v) _ = _ =>
             destruct (embed v) as [[]|?]; [reflexivity|discriminate]
         | bind (embed ?x) _ = _ =>
             destruct (embed x) as [[]|?]; cbn [bind] in H; [|discriminate]
         | bind (Normal _) _ = _ => cbn [bind] in H
         end.
Qed.

Lemma tailHash_embed chain previousHash :
  renderLedger chain = Normal tt -> tailHash chain = Normal previousHash ->
  embed previousHash = Normal tt.
Proof.
  intros Hr. unfold tailHash. destruct chain as [|b0 chain0 _] using rev_ind.
  - cbn. intros H. now injection H as <-.
  - rewrite last_last. apply renderLedger_last in Hr.
    destruct (truthy b0); [|intros H; now injection H as <-].
    intros H. eapply ledgerItem_currentHash; eauto.
Qed.

Lemma ledgerItem_sealedBlock record previousHash now signature currentHash :
  formRecord record -> embed previousHash = Normal tt ->
  ledgerItem (sealedBlock record previousHash now signature currentHash) = Normal tt.
Proof.
  intros Hf Hp. unfold ledgerItem, formatTime, sealedBlock. cbn [Get bind].
  repeat (rewrite lookup_put_eq || rewrite lookup_put_ne by discriminate).
  rewrite (embed_plain _ (Hf "propertyID" ltac:(simpl; tauto))).
  rewrite (embed_plain _ (Hf "owner" ltac:(simpl; tauto))).
  rewrite (embed_plain _ (Hf "action" ltac:(simpl; tauto))).
  rewrite (embed_or_else _ (Hf "description" ltac:(simpl; tauto))).
  rewrite (embed_or_else _ (Hf "remarks" ltac:(simpl; tauto))).
  rewrite Hp. reflexivity.
Qed.

Lemma addBlock_rendered record userSecret now st :
  formRecord record -> renderLedger (blockchain st) = Normal tt ->
  renderLedger (blockchain (snd (addBlock (Literal record) userSecret now st))) = Normal tt.
Proof.
  intros Hf Hr.
  destruct (addBlock_chain record userSecret now st)
    as [->|(p & sg & h & Hprev & _ & _ & ->)]; [exact Hr|].
  apply renderLedger_snoc; [exact Hr|]. apply ledgerItem_sealedBlock; [exact Hf|].
  eapply tailHash_embed; eauto.
Qed.

Lemma run_rendered op st :
  isUpload op = false -> renderLedger (blockchain st) = Normal tt ->
  renderLedger (blockchain (run op st)) = Normal tt.
Proof.
  intros Hop Hr. destruct op; try discriminate; cbn [run].
  - unfold registerProperty_click.
    destruct (negb _); [exact Hr|].
    destruct (find _ _) as [alreadyExists|]; [|exact Hr].
    destruct (truthy alreadyExists); [exact Hr|].
    destruct (_ && _); [|exact Hr].
    match goal with |- context [addBlock (Literal ?r) ?s ?n ?st] =>
      assert (Hf : formRecord r)
        by (intros f Hf; cbn [In] in Hf;
            destruct Hf as [<-|[<-|[<-|[<-|[<-|[]]]]]]; cbn; eauto);
      pose proof (addBlock_rendered r s n st Hf Hr) as Hadd;
      destruct (addBlock (Literal r) s n st) as [[u|e] st1] end; exact Hadd.
  - unfold transferProperty_click.
    destruct (negb _); [exact Hr|].
    destruct (_ && _); [|exact Hr].
    destruct (find _ _) as [found|]; [|exact Hr].
    destruct (negb (truthy found)); [exact Hr|].
    match goal with |- context [addBlock (Literal ?r) ?s ?n ?st] =>
      assert (Hf : formRecord r)
        by (intros f Hf; cbn [In] in Hf;
            destruct Hf as [<-|[<-|[<-|[<-|[<-|[]]]]]]; cbn; eauto);
      pose proof (addBlock_rendered r s n st Hf Hr) as Hadd;
      destruct (addBlock (Literal r) s n st) as [[u|e] st1] end; exact Hadd.
  - unfold showTimeline_click.
    destruct (negb _); [exact Hr|]. now rewrite showTimeline_state.
  - unfold validateChain_click.
    destruct (negb _); [exact Hr|]. unfold validateChain.
    destruct (bind _ _); exact Hr.
  - unfold downloadLedger_click.
    destruct (_ =? _)%nat; exact Hr.
Qed.

Lemma countBlock_nullish acc b : nullish b = true -> countBlock acc b = Throw TypeError.
Proof.
  intros Hb. destruct acc as [[registered transfers] owners]. unfold countBlock.
  now rewrite (Get_nullish_throw b _ Hb).
Qed.

Lemma countBlock_eval registered transfers owners b owner action propertyID :
  Get b "owner" = Normal owner -> Get b "action" = Normal action ->
  Get b "propertyID" = Normal propertyID ->
  countBlock (registered, transfers, owners) b
  = Normal (if strict_eq action (Str "Register") then set_add propertyID registered
            else registered,
            if strict_eq action (Str "Transfer") then transfers + 1 else transfers,
            set_add owner owners).
Proof.
  intros Ho Ha Hp. unfold countBlock. rewrite Ho, Ha. cbn [bind].
  destruct (strict_eq action (Str "Register")) eqn:E.
  - rewrite Hp. cbn [bind]. apply strict_eq_str_r in E. subst. reflexivity.
  - destruct (strict_eq action (Str "Transfer")); reflexivity.
Qed.

Lemma countBlock_total acc b : nullish b = false -> exists acc', countBlock acc b = Normal acc'.
Proof.
  intros Hb. destruct acc as [[registered transfers] owners].
  destruct (Get_nullish b "owner" Hb) as [o Ho].
  destruct (Get_nullish b "action" Hb) as [a Ha].
  destruct (Get_nullish b "propertyID" Hb) as [p Hp].
  rewrite (countBlock_eval _ _ _ _ _ _ _ Ho Ha Hp). eauto.
Qed.

Lemma forEach_countBlock_total chain : forall acc,
  existsb nullish chain = false -> exists acc', forEach countBlock acc chain = Normal acc'.
Proof.
  induction chain as [|b chain IH]; intros acc H; [now exists acc|].
  cbn [existsb] in H. apply orb_false_iff in H as [Hb Hchain].
  cbn [forEach]. destruct (countBlock_total acc b Hb) as [acc1 ->]. cbn [bind]. auto.
Qed.

Lemma forEach_countBlock_throw chain : forall acc,
  existsb nullish chain = true -> forEach countBlock acc chain = Throw TypeError.
Proof.
  induction chain as [|b chain IH]; intros acc H; [discriminate|].
  cbn [existsb] in H. cbn [forEach].
  destruct (nullish b) eqn:Hb.
  - now rewrite (countBlock_nullish acc b Hb).
  - destruct (countBlock_total acc b Hb) as [acc1 ->]. cbn [bind]. auto.
Qed.

Lemma updateStats_throw st :
  List.existsb nullish (blockchain st) = true -> updateStats st = (Throw TypeError, st).
Proof. intros H. unfold updateStats. now rewrite (forEach_countBlock_throw _ _ H). Qed.

Lemma updateStats_normal st :
  List.existsb nullish (blockchain st) = false -> fst (updateStats st) = Normal tt.
Proof.
  intros H. unfold updateStats.
  destruct (forEach_countBlock_total _ ([], 0, []) H) as [[[registered transfers] owners] ->].
  reflexivity.
Qed.

(** X16. [updateStats] throws a TypeError, and leaves the numbers on the
    page as they were, when the chain holds a null (or undefined) block;
    on every other chain it completes. *)
Theorem updateStats_nullish st :
  (List.existsb nullish (blockchain st) = true -> updateStats st = (Throw TypeError, st))
  /\ (List.existsb nullish (blockchain st) = false -> fst (updateStats st) = Normal tt).
Proof. split; [apply updateStats_throw | apply updateStats_normal]. Qed.

Lemma set_add_length v s :
  length s <= length (set_add v s) <= S (length s) /\ 1 <= length (set_add v s).
Proof.
  unfold set_add. destruct (List.existsb _ s) eqn:E.
  - split; [lia|]. destruct s; [discriminate|cbn; lia].
  - rewrite length_app. cbn. lia.
Qed.

Lemma forEach_countBlock_bounds chain : forall registered transfers owners r t o,
  forEach countBlock (registered, transfers, owners) chain = Normal (r, t, o) ->
  length r + t <= length registered + transfers + length chain
  /\ length owners <= length o <= length owners + length chain
  /\ (chain <> [] -> 1 <= length o).
Proof.
  induction chain as [|b chain IH]; intros registered transfers owners r t o H.
  - injection H as <- <- <-. cbn. split; [lia|]. split; [lia|]. congruence.
  - cbn [forEach] in H.
    destruct (nullish b) eqn:Hb; [now rewrite (countBlock_nullish _ b Hb) in H|].
    destruct (Get_nullish b "owner" Hb) as [ov Ho].
    destruct (Get_nullish b "action" Hb) as [a Ha].
    destruct (Get_nullish b "propertyID" Hb) as [p Hp].
    rewrite (countBlock_eval _ _ _ _ _ _ _ Ho Ha Hp) in H. cbn [bind] in H.
    apply IH in H as (H1 & H2 & _).
    pose proof (set_add_length ov owners) as [Hso Hso1].
    pose proof (set_add_length p registered) as [Hsr _].
    cbn [length].
    assert (Hexcl : strict_eq a (Str "Register") = true -> strict_eq a (Str "Transfer") = false).
    { intros E. apply strict_eq_str_r in E. now subst. }
    split; [|split; [lia|lia]].
    destruct (strict_eq a (Str "Register")); [rewrite Hexcl in H1 by reflexivity; lia|].
    destruct (strict_eq a (Str "Transfer")); lia.
Qed.

(** X17. When [updateStats] completes, the registered properties and the
    transfers together number at most the blocks of the chain, and so do the
    owners, of which there is at least one if the chain is not empty. *)
Theorem updateStats_bounds st :
  fst (updateStats st) = Normal tt ->
  statTotalProperties (snd (updateStats st)) + statTotalTransfers (snd (updateStats st))
  <= length (blockchain st)
  /\ statUniqueOwners (snd (updateStats st)) <= length (blockchain st)
  /\ (blockchain st <> [] -> 1 <= statUniqueOwners (snd (updateStats st))).
Proof.
  unfold updateStats.
  destruct (forEach countBlock _ _) as [[[registered transfers] owners]|e] eqn:E;
    [|discriminate].
  intros _. cbn [snd statTotalProperties statTotalTransfers statUniqueOwners set_stats].
  apply forEach_countBlock_bounds in E as (H1 & H2 & H3). cbn [length] in *. split; [lia|]. split; [lia|exact H3].
Qed.

Lemma existsb_strict_eq_Str s l :
  List.existsb (strict_eq (Str s)) l = true <-> In (Str s) l.
Proof.
  rewrite existsb_exists. split.
  - intros (v & Hv & E). apply strict_eq_str in E. now subst.
  - intros H. exists (Str s). split; [exact H|apply strict_eq_refl_str].
Qed.

Lemma set_add_Str o l :
  NoDup l ->
  exists l',
    set_add (Str o) (List.map Str l) = List.map Str l'
    /\ NoDup l' /\ forall x, In x l' <-> In x l \/ x = o.
Proof.
  intros Hnd. unfold set_add.
  destruct (List.existsb _ _) eqn:E.
  - exists l. split; [reflexivity|]. split; [exact Hnd|].
    apply existsb_strict_eq_Str, in_map_iff in E as (y & Hy & Hin). injection Hy as ->.
    intros x. split; [now left|]. now intros [H| ->].
  - exists (l ++ [o])%list. split; [now rewrite List.map_app|].
    assert (Hno : ~ In o l).
    { intros Hin. apply (in_map Str) in Hin. apply existsb_strict_eq_Str in Hin. congruence. }
    split.
    + apply NoDup_app. split; [exact Hnd|]. split; [|apply NoDup_singleton].
      intros x Hx Hxo. apply list_elem_of_In in Hx. apply list_elem_of_In in Hxo.
      destruct Hxo as [<-|[]]. contradiction.
    + intros x. rewrite in_app_iff. cbn [In]. intuition.
Qed.

Lemma forEach_countBlock_sets chain : forall ids transfers owners registered t o,
  Forall (fun b => exists id owner,
            Get b "propertyID" = Normal (Str id) /\ Get b "owner" = Normal (Str owner)) chain ->
  NoDup ids -> NoDup owners ->
  forEach countBlock (List.map Str ids, transfers, List.map Str owners) chain
  = Normal (registered, t, o) ->
  exists ids' owners',
    registered = List.map Str ids' /\ o = List.map Str owners'
    /\ NoDup ids' /\ NoDup owners'
    /\ t = transfers + length (List.filter (hasAction "Transfer") chain)
    /\ (forall x, In x ids' <->
          In x ids \/ exists b, In b chain /\ hasAction "Register" b = true
                                /\ Get b "propertyID" = Normal (Str x))
    /\ (forall x, In x owners' <->
          In x owners \/ exists b, In b chain /\ Get b "owner" = Normal (Str x)).
Proof.
  induction chain as [|b chain IH]; intros ids transfers owners registered t o Hall Hni Hno H.
  - injection H as <- <- <-. exists ids, owners. cbn [List.filter length].
    repeat split; auto; try lia; try tauto.
    + intros [H|(b & [] & _)]; exact H.
    + intros [H|(b & [] & _)]; exact H.
  - apply Forall_cons in Hall as [(id & owner & Hid & Hown) Hall].
    cbn [forEach] in H.
    assert (Hb : nullish b = false) by (destruct b; try discriminate; reflexivity).
    destruct (Get_nullish b "action" Hb) as [a Ha].
    rewrite (countBlock_eval _ _ _ _ _ _ _ Hown Ha Hid) in H. cbn [bind] in H.
    destruct (set_add_Str owner owners Hno) as (owners1 & Hown1 & Hno1 & Hmo).
    rewrite Hown1 in H.
    assert (Hact : hasAction "Register" b = strict_eq a (Str "Register")
                   /\ hasAction "Transfer" b = strict_eq a (Str "Transfer"))
      by (unfold hasAction; now rewrite Ha).
    destruct Hact as [Hreg Htr]. cbn [List.filter]. rewrite Htr.
    destruct (strict_eq a (Str "Register")) eqn:Ereg.
    + assert (Etr : strict_eq a (Str "Transfer") = false)
        by (apply strict_eq_str_r in Ereg; now subst).
      rewrite Etr in *.
      destruct (set_add_Str id ids Hni) as (ids1 & Hids1 & Hni1 & Hmi).
      rewrite Hids1 in H.
      destruct (IH _ _ _ _ _ _ Hall Hni1 Hno1 H)
        as (ids' & owners' & -> & -> & Hni' & Hno' & -> & Hi & Ho).
      exists ids', owners'. split; [reflexivity|]. split; [reflexivity|].
      split; [exact Hni'|]. split; [exact Hno'|]. split; [|split].
      * reflexivity.
      * intros x. rewrite Hi, Hmi. split.
        -- intros [[Hx| ->]|(b' & Hb' & Hr & Hx)]; [now left| |].
           ++ right. exists b. repeat split; auto. now left.
           ++ right. exists b'. repeat split; auto. now right.
        -- intros [Hx|(b' & [<-|Hb'] & Hr & Hx)]; [now left; left| |].
           ++ left. right. congruence.
           ++ right. exists b'. now repeat split.
      * intros x. rewrite Ho, Hmo. split.
        -- intros [[Hx| ->]|(b' & Hb' & Hx)]; [now left| |].
           ++ right. exists b. split; auto. now left.
           ++ right. exists b'. split; auto. now right.
        -- intros [Hx|(b' & [<-|Hb'] & Hx)]; [now left; left| |].
           ++ left. right. congruence.
           ++ right. exists b'. now split.
    + destruct (IH _ _ _ _ _ _ Hall Hni Hno1 H)
        as (ids' & owners' & -> & -> & Hni' & Hno' & -> & Hi & Ho).
      exists ids', owners'. split; [reflexivity|]. split; [reflexivity|].
      split; [exact Hni'|]. split; [exact Hno'|]. split; [|split].
      * destruct (strict_eq a (Str "Transfer")); cbn [length]; lia.
      * intros x. rewrite Hi. split.
        -- intros [Hx|(b' & Hb' & Hr & Hx)]; [now left|].
           right. exists b'. repeat split; auto. now right.
        -- intros [Hx|(b' & [<-|Hb'] & Hr & Hx)]; [now left|congruence|].
           right. exists b'. now repeat split.
      * intros x. rewrite Ho, Hmo. split.
        -- intros [[Hx| ->]|(b' & Hb' & Hx)]; [now left| |].
           ++ right. exists b. split; auto. now left.
           ++ right. exists b'. split; auto. now right.
        -- intros [Hx|(b' & [<-|Hb'] & Hx)]; [now left; left| |].
           ++ left. right. congruence.
           ++ right. exists b'. now split.
Qed.

(** X18. On a chain whose blocks carry strings as property ID and owner,
    [updateStats] shows the number of distinct property IDs among the
    Register blocks, the number of Transfer blocks, and the number of
    distinct owners. *)
Theorem updateStats_counts st :
  Forall (fun b => exists id owner,
            Get b "propertyID" = Normal (Str id) /\ Get b "owner" = Normal (Str owner))
         (blockchain st) ->
  exists ids owners,
    updateStats st
    = (Normal tt,
       set_stats (length ids)
                 (length (List.filter (hasAction "Transfer") (blockchain st)))
                 (length owners) st)
    /\ NoDup ids /\ NoDup owners
    /\ (forall x, In x ids <->
          exists b, In b (blockchain st) /\ hasAction "Register" b = true
                    /\ Get b "propertyID" = Normal (Str x))
    /\ (forall x, In x owners <->
          exists b, In b (blockchain st) /\ Get b "owner" = Normal (Str x)).
Proof.
  intros Hall. unfold updateStats.
  assert (Hnn : List.existsb nullish (blockchain st) = false).
  { apply not_true_iff_false. intros H. apply existsb_exists in H as (b & Hb & Hn).
    rewrite List.Forall_forall in Hall. destruct (Hall b Hb) as (id & owner & Hid & _).
    rewrite (Get_nullish_throw b _ Hn) in Hid. discriminate. }
  destruct (forEach_countBlock_total _ ([], 0, []) Hnn) as [[[registered t] o] Hrun].
  rewrite Hrun.
  destruct (forEach_countBlock_sets _ [] 0 [] registered t o Hall
              (NoDup_nil_2 : NoDup (@nil string)) (NoDup_nil_2 : NoDup (@nil string)) Hrun)
    as (ids & owners & -> & -> & Hni & Hno & -> & Hi & Ho).
  exists ids, owners. rewrite !length_map. split; [reflexivity|].
  split; [exact Hni|]. split; [exact Hno|]. split.
  - intros x. rewrite Hi. cbn [In]. tauto.
  - intros x. rewrite Ho. cbn [In]. tauto.
Qed.

Lemma pageBlock_count chain :
  Forall pageBlock chain ->
  length (List.filter (hasAction "Register") chain)
  + length (List.filter (hasAction "Transfer") chain) = length chain.
Proof.
  induction 1 as [|b chain Hb _ IH]; [reflexivity|].
  cbn [List.filter]. rewrite (pageBlock_action _ Hb).
  destruct (hasAction "Transfer" b); cbn [negb length]; lia.
Qed.

Lemma ledger_last_register chain b id :
  ledger (chain ++ [b]) -> hasId id b = true -> hasAction "Register" b = true ->
  forall r, In r chain -> hasId id r = false.
Proof.
  intros [_ Hh] Hid Hact. specialize (Hh id). rewrite List.filter_app in Hh.
  cbn [List.filter] in Hh. rewrite Hid in Hh.
  destruct (List.filter (hasId id) chain) as [|r0 ts] eqn:E.
  - now apply filter_nil_iff.
  - exfalso. cbn [app history] in Hh. destruct Hh as [_ Hts].
    apply Forall_app in Hts as [_ Hb]. apply Forall_inv in Hb.
    apply hasAction_exclusive in Hb. congruence.
Qed.

Lemma ledger_tally chain :
  ledger chain ->
  exists registered owners,
    forEach countBlock ([], 0, []) chain
    = Normal (registered, length (List.filter (hasAction "Transfer") chain), owners)
    /\ length registered = length (List.filter (hasAction "Register") chain)
    /\ forall v, In v registered ->
         exists r, In r chain /\ Get r "propertyID" = Normal v.
Proof.
  induction chain as [|b chain IH] using rev_ind; intros Hl.
  - exists [], []. repeat split. intros v [].
  - destruct (IH (ledger_app _ _ Hl)) as (registered & owners & Hrun & Hlen & Hmem).
    pose proof Hl as [Hp _]. apply Forall_app in Hp as [_ Hb]. apply Forall_inv in Hb.
    pose proof (pageBlock_action _ Hb) as Hact.
    destruct Hb as (props & id & owner & action & -> & Hid & _ & Hown & _ & Haction & Hcase).
    rewrite forEach_app, Hrun. cbn [bind forEach].
    rewrite (countBlock_eval _ _ _ (Obj props) (Str owner) (Str action) (Str id))
      by (cbn [Get]; congruence).
    cbn [bind]. rewrite !List.filter_app, !length_app. cbn [List.filter].
    destruct Hcase as [-> | ->].
    + assert (Hreg : hasAction "Register" (Obj props) = true)
        by (unfold hasAction; cbn [Get]; now rewrite Haction).
      rewrite Hreg in *. cbn [negb] in Hact. symmetry in Hact.
      apply negb_true_iff in Hact. rewrite Hact. cbn [strict_eq String.eqb Ascii.eqb Bool.eqb].
      cbn [length]. 
      assert (Hfresh : List.existsb (strict_eq (Str id)) registered = false).
      { destruct (List.existsb _ registered) eqn:E; [|reflexivity]. exfalso.
        apply existsb_strict_eq_Str, Hmem in E as (r & Hr & Hrid).
        assert (Hbid : hasId id (Obj props) = true)
          by (unfold hasId; cbn [Get]; rewrite Hid; apply strict_eq_refl_str).
        pose proof (ledger_last_register _ _ id Hl Hbid Hreg r Hr) as Hno.
        unfold hasId in Hno. rewrite Hrid in Hno. now rewrite strict_eq_refl_str in Hno. }
      unfold set_add at 1. rewrite Hfresh.
      eexists _, _. split; [f_equal; f_equal; f_equal; lia|]. split.
      * rewrite length_app. cbn [length]. lia.
      * intros v Hv. apply in_app_or in Hv as [Hv|[<-|[]]].
        -- destruct (Hmem v Hv) as (r & Hr & Hrv). exists r. split; [|exact Hrv].
           apply in_or_app. now left.
        -- exists (Obj props). split; [apply in_or_app; right; now left|].
           cbn [Get]. now rewrite Hid.
    + assert (Htr : hasAction "Transfer" (Obj props) = true)
        by (unfold hasAction; cbn [Get]; now rewrite Haction).
      rewrite Htr in *. cbn [negb] in Hact. rewrite Hact.
      cbn [strict_eq String.eqb Ascii.eqb Bool.eqb]. cbn [length].
      eexists _, _. split; [f_equal; f_equal; f_equal; lia|]. split; [lia|].
      intros v Hv. destruct (Hmem v Hv) as (r & Hr & Hrv). exists r. split; [|exact Hrv].
      apply in_or_app. now left.
Qed.

Lemma inSync_ext st st' :
  blockchain st' = blockchain st -> stats st' = stats st -> inSync st -> inSync st'.
Proof. unfold inSync. now intros -> ->. Qed.

Lemma addBlock_inSync record userSecret now st :
  renderLedger (blockchain (snd (addBlock (Literal record) userSecret now st))) = Normal tt ->
  inSync st -> inSync (snd (addBlock (Literal record) userSecret now st)).
Proof.
  rewrite addBlock_Literal.
  destruct (tailHash _) as [previousHash|e]; [|auto].
  destruct (signRecord _ _) as [signature|e]; [|auto].
  destruct (calculateHash _) as [currentHash|e]; [|auto].
  cbv zeta.
  match goal with |- context [push (Literal ?r) st] => set (st1 := push (Literal r) st) end.
  destruct (renderLedger (blockchain st1)) as [[]|e] eqn:Hr; [|cbn [snd]; congruence].
  unfold updateStats.
  destruct (forEach countBlock ([], 0, []) (blockchain st1))
    as [[[registered transfers] owners]|e] eqn:E.
  - intros _ _. exists registered, transfers, owners. split; [exact E|reflexivity].
  - apply renderLedger_nullish in Hr.
    destruct (forEach_countBlock_total _ ([], 0, []) Hr) as [acc Hacc]. congruence.
Qed.

Lemma run_inSync op st st' :
  isUpload op = false -> run op st = st' ->
  renderLedger (blockchain st') = Normal tt ->
  inSync st -> inSync st'.
Proof.
  intros Hop Hrun Hnn Hs.
  destruct op; try discriminate; cbn [run] in Hrun; first [subst st'|subst st].
  - revert Hnn. unfold registerProperty_click.
    destruct (negb _); [intros _; revert Hs; now apply inSync_ext|].
    destruct (find _ _) as [alreadyExists|]; [|auto].
    destruct (truthy alreadyExists); [intros _; revert Hs; now apply inSync_ext|].
    destruct (_ && _); [|intros _; revert Hs; now apply inSync_ext].
    match goal with |- context [addBlock (Literal ?r) ?s ?n ?st] =>
      pose proof (addBlock_inSync r s n st) as Hadd;
      destruct (addBlock (Literal r) s n st) as [[u|e] st1] end; cbn [snd] in *; intros Hnn;
      [|now apply Hadd].
    apply (inSync_ext st1); [reflexivity|reflexivity|now apply Hadd].
  - revert Hnn. unfold transferProperty_click.
    destruct (negb _); [intros _; revert Hs; now apply inSync_ext|].
    destruct (_ && _); [|intros _; revert Hs; now apply inSync_ext].
    destruct (find _ _) as [found|]; [|auto].
    destruct (negb (truthy found)); [intros _; revert Hs; now apply inSync_ext|].
    match goal with |- context [addBlock (Literal ?r) ?s ?n ?st] =>
      pose proof (addBlock_inSync r s n st) as Hadd;
      destruct (addBlock (Literal r) s n st) as [[u|e] st1] end; cbn [snd] in *; intros Hnn;
      [|now apply Hadd].
    apply (inSync_ext st1); [reflexivity|reflexivity|now apply Hadd].
  - unfold showTimeline_click.
    destruct (negb _); [revert Hs; now apply inSync_ext|]. now rewrite showTimeline_state.
  - unfold validateChain_click.
    destruct (negb _); [revert Hs; now apply inSync_ext|]. unfold validateChain.
    destruct (bind _ _); [revert Hs; now apply inSync_ext|exact Hs].
  - unfold downloadLedger_click.
    destruct (_ =? _)%nat; revert Hs; now apply inSync_ext.
Qed.

Lemma session_inSync ops : forall st st',
  List.forallb (fun op => negb (isUpload op)) ops = true ->
  runAll ops st = st' -> renderLedger (blockchain st) = Normal tt -> inSync st -> inSync st'.
Proof.
  induction ops as [|op ops IH]; intros st st' Hops Hrun Hr Hs; cbn [runAll] in Hrun.
  - now first [subst st'|subst st].
  - cbn [List.forallb] in Hops. apply andb_true_iff in Hops as [Hop Hops].
    apply negb_true_iff in Hop.
    pose proof (run_rendered op st Hop Hr) as Hr1.
    apply (IH (run op st) st' Hops Hrun Hr1).
    now apply (run_inSync op st (run op st) Hop eq_refl).
Qed.

(** X19. In a session without import, where the operations run one after
    the other, the numbers on the page follow the chain: the properties
    shown are the Register blocks, the transfers shown are the Transfer
    blocks, and together they account for every block. (The ledger view
    never throws in such a session, see [run_rendered].) *)
Theorem session_stats ops st :
  List.forallb (fun op => negb (isUpload op)) ops = true ->
  runAll ops initial = st ->
  statTotalProperties st = length (List.filter (hasAction "Register") (blockchain st))
  /\ statTotalTransfers st = length (List.filter (hasAction "Transfer") (blockchain st))
  /\ statTotalProperties st + statTotalTransfers st = length (blockchain st).
Proof.
  intros Hops Hrun.
  pose proof (session_ledger ops initial st Hops Hrun ledger_initial) as Hl.
  assert (Hs : inSync st).
  { apply (session_inSync ops initial st Hops Hrun eq_refl).
    exists [], 0, []. split; reflexivity. }
  destruct Hs as (registered & transfers & owners & Hrun' & Hstats).
  destruct (ledger_tally _ Hl) as (registered' & owners' & Htally & Hlen & _).
  rewrite Htally in Hrun'. injection Hrun' as <- <- <-.
  unfold stats in Hstats. injection Hstats as -> -> _.
  rewrite Hlen. split; [reflexivity|]. split; [reflexivity|].
  apply pageBlock_count, Hl.
Qed.

(** ** The two forms *)

Lemma hasId_truthy id b : hasId id b = true -> truthy b = true.
Proof.
  unfold hasId. destruct b as [| |x|x|x|elems|props]; cbn [Get]; try discriminate; reflexivity.
Qed.

Lemma tailHash_total chain : exists v, tailHash chain = Normal v.
Proof.
  unfold tailHash. destruct (truthy (List.last chain Undefined)) eqn:E; [|eauto].
  apply Get_nullish. destruct (List.last chain Undefined); try discriminate; reflexivity.
Qed.

(** X20. A registration for a property ID that the chain already holds as
    registered is refused: the state stays as it was but for the alert. *)
Theorem register_refuses_duplicate propertyID description owner userSecret now st :
  userSecret <> EmptyString ->
  List.existsb nullish (blockchain st) = false ->
  List.existsb (fun b => hasId propertyID b && hasAction "Register" b) (blockchain st) = true ->
  registerProperty_click propertyID description owner userSecret now st
  = (Normal tt, add_alert (Alert "Property ID already registered!") st).
Proof.
  intros Hsecret Hnn Hex. unfold registerProperty_click.
  apply truthy_Str in Hsecret. rewrite Hsecret. cbn [negb].
  rewrite (find_eval _ (fun b => hasId propertyID b && hasAction "Register" b)).
  2:{ intros b Hb. apply registered_pred.
      destruct (nullish b) eqn:E; [|reflexivity].
      assert (List.existsb nullish (blockchain st) = true)
        by (apply existsb_exists; now exists b). congruence. }
  destruct (List.find _ (blockchain st)) as [b|] eqn:Hfind.
  - apply find_some in Hfind as [_ Hb]. apply andb_true_iff in Hb as [Hb _].
    now rewrite (hasId_truthy _ _ Hb).
  - apply existsb_exists in Hex as (b & Hb & Ht).
    rewrite (find_none _ _ Hfind b Hb) in Ht. discriminate.
Qed.

(** X21. A transfer of a property ID that no block of the chain carries is
    refused: the state stays as it was but for the alert. *)
Theorem transfer_refuses_unknown propertyID newOwner remarks userSecret now st :
  userSecret <> EmptyString -> propertyID <> EmptyString -> newOwner <> EmptyString ->
  List.existsb nullish (blockchain st) = false ->
  List.existsb (hasId propertyID) (blockchain st) = false ->
  transferProperty_click propertyID newOwner remarks userSecret now st
  = (Normal tt, add_alert (Alert "Property ID not found! Register it first.") st).
Proof.
  intros Hsecret Hid Hown Hnn Hex. unfold transferProperty_click.
  apply truthy_Str in Hsecret, Hid, Hown. rewrite Hsecret, Hid, Hown. cbn [negb andb].
  rewrite (find_eval _ (hasId propertyID)).
  2:{ intros b Hb. apply found_pred.
      destruct (nullish b) eqn:E; [|reflexivity].
      assert (List.existsb nullish (blockchain st) = true)
        by (apply existsb_exists; now exists b). congruence. }
  destruct (List.find _ (blockchain st)) as [b|] eqn:Hfind; [|reflexivity].
  apply find_some in Hfind as [Hb Ht].
  assert (List.existsb (hasId propertyID) (blockchain st) = true)
    by (apply existsb_exists; now exists b). congruence.
Qed.

Lemma addBlock_strings record userSecret now st propertyID owner action :
  lookup_prop "propertyID" record = Str propertyID ->
  lookup_prop "owner" record = Str owner ->
  lookup_prop "action" record = Str action ->
  formRecord record ->
  renderLedger (blockchain st) = Normal tt ->
  List.existsb nullish (blockchain st) = false ->
  exists previousHash st',
    tailHash (blockchain st) = Normal previousHash
    /\ addBlock (Literal record) userSecret now st = (Normal tt, st')
    /\ blockchain st'
       = (blockchain st ++
          [sealedBlock record previousHash now
             (sha256 digest (propertyID ++ "|" ++ owner ++ "|" ++ action ++ "|" ++ now
                             ++ "|" ++ userSecret))
             (sha256 digest
                (default EmptyString
                   (JSON_stringify
                      (Obj (dataForHash
                              (put "timestamp" (Str now)
                                 (put "previousHash" previousHash record))))
                      EmptyString)))])%list
    /\ alerts st' = alerts st /\ validationResult st' = validationResult st
    /\ downloads st' = downloads st.
Proof.
  intros Hid Hown Hact Hform Hrender Hnn.
  destruct (tailHash_total (blockchain st)) as [previousHash Hprev].
  rewrite addBlock_Literal, Hprev.
  set (r1 := put "timestamp" (Str now) (put "previousHash" previousHash record)).
  assert (Hsign : signRecord (Obj r1) userSecret
                  = Normal (sha256 digest (propertyID ++ "|" ++ owner ++ "|" ++ action ++ "|"
                                           ++ now ++ "|" ++ userSecret))).
  { unfold signRecord. rewrite (toSign_Str r1 propertyID owner action now); [reflexivity|..];
      unfold r1.
    - rewrite !lookup_put_ne by discriminate. exact Hid.
    - rewrite !lookup_put_ne by discriminate. exact Hown.
    - rewrite !lookup_put_ne by discriminate. exact Hact.
    - apply lookup_put_eq. }
  rewrite Hsign.
  set (signature := sha256 digest _) in *.
  rewrite (calculateHash_put "signature") by (simpl; intuition discriminate).
  assert (Hhash : calculateHash (Obj r1)
                  = Normal (sha256 digest
                              (default EmptyString
                                 (JSON_stringify (Obj (dataForHash r1)) EmptyString))))
    by reflexivity.
  rewrite Hhash. set (currentHash := sha256 digest _) in *.
  cbv zeta.
  match goal with |- context [push (Literal ?r) st] =>
    assert (Hshown : renderLedger (blockchain (push (Literal r) st)) = Normal tt)
  end.
  { cbn [push read blockchain]. apply renderLedger_snoc; [exact Hrender|].
    unfold r1. apply (ledgerItem_sealedBlock record previousHash now _ _ Hform).
    eapply tailHash_embed; eauto. }
  rewrite Hshown.
  set (st1 := push _ st).
  assert (Hnn1 : List.existsb nullish (blockchain st1) = false).
  { unfold st1. cbn [push read blockchain]. rewrite existsb_app, Hnn. reflexivity. }
  pose proof (updateStats_normal st1 Hnn1) as Hstats.
  pose proof (updateStats_blockchain st1) as Hchain.
  assert (Hrest : alerts (snd (updateStats st1)) = alerts st
                  /\ validationResult (snd (updateStats st1)) = validationResult st
                  /\ downloads (snd (updateStats st1)) = downloads st).
  { unfold updateStats.
    destruct (forEach countBlock _ _) as [[[registered transfers] owners]|e]; now repeat split. }
  destruct (updateStats st1) as [c st2]. cbn [fst snd] in *. subst c.
  exists previousHash, st2. split; [reflexivity|]. split; [reflexivity|].
  split; [exact Hchain|exact Hrest].
Qed.

(** X22. A registration with a secret, a property ID and an owner, for an
    ID not yet registered, on a chain that the ledger view renders without
    throwing, appends exactly one block: the four fields of
    the form, then [previousHash] (the digest stored in the last block, or
    the sentinel), the time stamp, the signature (the digest of ID, owner,
    action, time stamp and secret joined by bars) and the digest of the
    block, in this order; and it reports success. *)
Theorem register_appends propertyID description owner userSecret now st :
  userSecret <> EmptyString -> propertyID <> EmptyString -> owner <> EmptyString ->
  renderLedger (blockchain st) = Normal tt ->
  List.existsb nullish (blockchain st) = false ->
  List.existsb (fun b => hasId propertyID b && hasAction "Register" b) (blockchain st) = false ->
  exists previousHash currentHash block st',
    registerProperty_click propertyID description owner userSecret now st = (Normal tt, st')
    /\ tailHash (blockchain st) = Normal previousHash
    /\ block
       = Obj [("propertyID", Str propertyID); ("description", Str description);
              ("owner", Str owner); ("action", Str "Register");
              ("previousHash", previousHash); ("timestamp", Str now);
              ("signature",
               Str (sha256 digest (propertyID ++ "|" ++ owner ++ "|Register|" ++ now
                                   ++ "|" ++ userSecret)));
              ("currentHash", Str currentHash)]
    /\ calculateHash block = Normal currentHash
    /\ blockchain st' = (blockchain st ++ [block])%list
    /\ alerts st' = (alerts st ++ [Alert "Property registered and signed successfully!"])%list.
Proof.
  intros Hsecret Hid Hown Hrender Hnn Hfresh. unfold registerProperty_click.
  apply truthy_Str in Hsecret, Hid, Hown. rewrite Hsecret, Hid, Hown. cbn [negb andb].
  rewrite (find_eval _ (fun b => hasId propertyID b && hasAction "Register" b)).
  2:{ intros b Hb. apply registered_pred.
      destruct (nullish b) eqn:E; [|reflexivity].
      assert (List.existsb nullish (blockchain st) = true)
        by (apply existsb_exists; now exists b). congruence. }
  destruct (List.find _ (blockchain st)) as [b|] eqn:Hfind.
  { apply find_some in Hfind as [Hb Ht].
    assert (List.existsb (fun b => hasId propertyID b && hasAction "Register" b)
                         (blockchain st) = true)
      by (apply existsb_exists; now exists b). congruence. }
  change (truthy Undefined) with false. cbv iota.
  match goal with |- context [addBlock (Literal ?r) ?s ?n ?st] =>
    assert (Hform : formRecord r)
      by (intros f Hf; cbn [In] in Hf;
          destruct Hf as [<-|[<-|[<-|[<-|[<-|[]]]]]]; cbn; eauto);
    destruct (addBlock_strings r s n st propertyID owner "Register"
                eq_refl eq_refl eq_refl Hform Hrender Hnn)
      as (previousHash & st' & Hprev & -> & Hchain & Halerts & _) end.
  eexists previousHash, _, _, _. split; [reflexivity|]. split; [exact Hprev|].
  split; [reflexivity|]. split; [|split; [exact Hchain|]].
  - reflexivity.
  - cbn [add_alert alerts]. now rewrite Halerts.
Qed.

(** X23. A transfer with a secret, an owner and the ID of a property on the
    chain, which the ledger view renders without throwing, appends exactly
    one block: the four fields of the form, then
    [previousHash], the time stamp, the signature (the digest of ID, owner,
    action, time stamp and secret joined by bars) and the digest of the
    block, in this order; and it reports success. *)
Theorem transfer_appends propertyID newOwner remarks userSecret now st :
  userSecret <> EmptyString -> propertyID <> EmptyString -> newOwner <> EmptyString ->
  renderLedger (blockchain st) = Normal tt ->
  List.existsb nullish (blockchain st) = false ->
  List.existsb (hasId propertyID) (blockchain st) = true ->
  exists previousHash currentHash block st',
    transferProperty_click propertyID newOwner remarks userSecret now st = (Normal tt, st')
    /\ tailHash (blockchain st) = Normal previousHash
    /\ block
       = Obj [("propertyID", Str propertyID); ("owner", Str newOwner);
              ("action", Str "Transfer"); ("remarks", Str remarks);
              ("previousHash", previousHash); ("timestamp", Str now);
              ("signature",
               Str (sha256 digest (propertyID ++ "|" ++ newOwner ++ "|Transfer|" ++ now
                                   ++ "|" ++ userSecret)));
              ("currentHash", Str currentHash)]
    /\ calculateHash block = Normal currentHash
    /\ blockchain st' = (blockchain st ++ [block])%list
    /\ alerts st' = (alerts st ++ [Alert "Property ownership transferred and signed!"])%list.
Proof.
  intros Hsecret Hid Hown Hrender Hnn Hknown. unfold transferProperty_click.
  apply truthy_Str in Hsecret, Hid, Hown. rewrite Hsecret, Hid, Hown. cbn [negb andb].
  rewrite (find_eval _ (hasId propertyID)).
  2:{ intros b Hb. apply found_pred.
      destruct (nullish b) eqn:E; [|reflexivity].
      assert (List.existsb nullish (blockchain st) = true)
        by (apply existsb_exists; now exists b). congruence. }
  destruct (List.find _ (blockchain st)) as [b|] eqn:Hfind.
  2:{ apply existsb_exists in Hknown as (b & Hb & Ht).
      rewrite (find_none _ _ Hfind b Hb) in Ht. discriminate. }
  apply find_some in Hfind as [_ Hb]. rewrite (hasId_truthy _ _ Hb). cbn [negb].
  match goal with |- context [addBlock (Literal ?r) ?s ?n ?st] =>
    assert (Hform : formRecord r)
      by (intros f Hf; cbn [In] in Hf;
          destruct Hf as [<-|[<-|[<-|[<-|[<-|[]]]]]]; cbn; eauto);
    destruct (addBlock_strings r s n st propertyID newOwner "Transfer"
                eq_refl eq_refl eq_refl Hform Hrender Hnn)
      as (previousHash & st' & Hprev & -> & Hchain & Halerts & _) end.
  eexists previousHash, _, _, _. split; [reflexivity|]. split; [exact Hprev|].
  split; [reflexivity|]. split; [|split; [exact Hchain|]].
  - reflexivity.
  - cbn [add_alert alerts]. now rewrite Halerts.
Qed.

(** ** Files that are refused, and files that are installed with an error *)

Lemma skip_ws_all_blank w : blank w = true -> skip_ws w = EmptyString.
Proof.
  intros H. rewrite <- (append_nil_r w). now rewrite skip_ws_blank.
Qed.

(** X24. A file that is empty, or holds white space only, is refused with
    the alert of a parse error and changes nothing else. *)
Theorem import_blank text st :
  blank text = true ->
  loadLedgerFromFile text st
  = add_alert (AlertError "Error reading ledger file: " SyntaxError) st.
Proof.
  intros H. unfold loadLedgerFromFile, JSON_parse.
  replace (2 * String.length text + 2) with (S (2 * String.length text + 1)) by lia.
  rewrite parse_value_S, (skip_ws_all_blank _ H). reflexivity.
Qed.

(** X25. A file whose array holds a null is installed all the same: the
    chain is replaced by the array before the views are refreshed, the
    refresh throws, and the page is left with the new chain, the old
    numbers, the old validation text and an error alert. *)
Theorem import_null_block text elems st st' :
  JSON_parse text = Parsed (Arr elems) -> In Null elems ->
  loadLedgerFromFile text st = st' ->
  blockchain st' = elems
  /\ stats st' = stats st
  /\ validationResult st' = validationResult st
  /\ exists e, alerts st' = (alerts st ++ [AlertError "Error reading ledger file: " e])%list.
Proof.
  intros Hparse Hnull. unfold loadLedgerFromFile. rewrite Hparse.
  assert (Hnn : List.existsb nullish (blockchain (set_blockchain elems st)) = true).
  { apply existsb_exists. exists Null. now split. }
  destruct (renderLedger _) as [u|e].
  - rewrite (updateStats_throw _ Hnn). intros H. subst st'.
    repeat split. now exists TypeError.
  - intros H. subst st'. repeat split. now exists e.
Qed.

(** X26. With a null as first block, the four handlers that read the chain
    throw a TypeError and change nothing: nothing can be registered,
    transferred, listed or validated until another file is loaded. *)
Theorem null_head_stops_page st rest propertyID description owner remarks userSecret now :
  blockchain st = Null :: rest ->
  userSecret <> EmptyString -> propertyID <> EmptyString -> owner <> EmptyString ->
  registerProperty_click propertyID description owner userSecret now st = (Throw TypeError, st)
  /\ transferProperty_click propertyID owner remarks userSecret now st = (Throw TypeError, st)
  /\ showTimeline_click propertyID st = (Throw TypeError, st)
  /\ validateChain_click userSecret st = (Throw TypeError, st).
Proof.
  intros Hchain Hsecret Hid Hown. apply truthy_Str in Hsecret, Hid, Hown.
  unfold registerProperty_click, transferProperty_click, showTimeline_click,
    validateChain_click, showTimeline, validateChain, validate.
  rewrite Hsecret, Hid, Hown, Hchain. now repeat split.
Qed.

End Proofs.

(** * The concrete run *)

(** The constants of SHA-256 are the ones FIPS 180-4 defines. *)
Example K_derived : SHA256.K = List.map (SHA256.root_fraction 3) SHA256.first_primes.
Proof. vm_compute. reflexivity. Qed.

Example H0_derived :
  SHA256.H0 = List.map (SHA256.root_fraction 2) (List.firstn 8 SHA256.first_primes).
Proof. vm_compute. reflexivity. Qed.

Example sha256_abc :
  sha256 SHA256.digest "abc"
  = "ba7816bf8f01cfea414140de5dae2223b00361a396177a9cb410ff61f20015ad".
Proof. vm_compute. reflexivity. Qed.

Example sha256_empty :
  sha256 SHA256.digest EmptyString
  = "e3b0c44298fc1c149afbf4c8996fb92427ae41e4649b934ca495991b7852b855".
Proof. vm_compute. reflexivity. Qed.

Example sha256_two_blocks :
  sha256 SHA256.digest "abcdbcdecdefdefgefghfghighijhijkijkljklmklmnlmnomnopnopq"
  = "248d6a61d20638b8e5c026930c3e6039a33ce45964ff2167f6ecedd419db06c1".
Proof. vm_compute. reflexivity. Qed.

Lemma demo1_built : built (platform := browser) ["s1"] (blockchain demo1).
Proof.
  replace (blockchain demo1)
    with (blockchain (snd (addBlock (platform := browser) (Literal demoRegister) "s1"
                                    "2024-01-01T00:00:00.000Z" initial)))
    by (vm_compute; reflexivity).
  apply (built_addBlock [] initial); [apply built_empty|].
  vm_compute. discriminate.
Qed.

Lemma demo2_built : built (platform := browser) ["s1"; "s1"] (blockchain demo2).
Proof.
  replace (blockchain demo2)
    with (blockchain (snd (addBlock (platform := browser) (Literal demoTransfer) "s1"
                                    "2024-01-02T00:00:00.000Z" demo1)))
    by (vm_compute; reflexivity).
  apply (built_addBlock ["s1"] demo1); [apply demo1_built|].
  vm_compute. discriminate.
Qed.


(** The scenario of the specification: two blocks, linked, valid under s1,
    one registered property, one transfer, two owners. *)
Example demo2_scenario :
  length (blockchain demo2) = 2
  /\ Get demoBlock1 "previousHash" = Get demoBlock0 "currentHash"
  /\ fst (validateChain (platform := browser) "s1" demo2)
     = Normal "Chain is valid. All hashes and signatures match."
  /\ (statTotalProperties demo2, statTotalTransfers demo2, statUniqueOwners demo2) = (1, 1, 2).
Proof. vm_compute. repeat split; reflexivity. Qed.



(** C2, as stated, fails on the same chain: the second call has written the
    digest of the first into the object, which is both blocks, so that block
    0 does not store the sentinel and block 1 does not store the digest that
    block 0 now shows. *)
Lemma chain_linkage_counterexample :
  exists b0 b1,
    blockchain demoTwice = [b0; b1]
    /\ Get b0 "previousHash" <> Normal (Str "0")
    /\ Get b1 "previousHash" <> Get b0 "currentHash".
Proof.
  eexists _, _. split; [vm_compute; reflexivity|].
  split; vm_compute; discriminate.
Qed.

Lemma chain_linkage_witness :
  built (platform := browser) ["s1"; "s1"] (blockchain demo2)
  /\ ((forall b, blockchain demo2 !! 0 = Some b -> Get b "previousHash" = Normal (Str "0"))
      /\ (forall i b p, 1 <= i -> blockchain demo2 !! i = Some b ->
                        blockchain demo2 !! (i - 1) = Some p ->
           exists h, Get p "currentHash" = Normal (Str h)
                     /\ Get b "previousHash" = Normal (Str h))).
Proof.
  split; [exact demo2_built|].
  exact (chain_linkage (platform := browser) ["s1"; "s1"] (blockchain demo2) demo2_built).
Defined.


(** Nor is a description changed from absent to empty: the chain stays valid. *)
Example hash_tamper_empty_description :
  Get demoBlock1 "description" = Normal Undefined
  /\ fst (validateChain (platform := browser) "s1"
            (set_blockchain
               (<[1:=setField "description" (Str EmptyString) demoBlock1]> (blockchain demo2))
               demo2))
     = Normal (message Valid).
Proof. split; vm_compute; reflexivity. Qed.


Lemma signature_outside_digest_witness :
  Get demoBlock1 "signature" <> Normal (Str "forged")
  /\ fst (validateChain (platform := browser) "s1"
            (set_blockchain
               (<[1:=setField "signature" (Str "forged") demoBlock1]> (blockchain demo2))
               demo2))
     = Normal (message (SignatureInvalid 1)).
Proof.
  split; [vm_compute; discriminate|].
  apply (proj2 (signature_outside_digest (platform := browser))
               ["s1"; "s1"] "s1" demo2 1 demoBlock1 (Str "forged")).
  - exact demo2_built.
  - repeat constructor.
  - vm_compute. reflexivity.
  - vm_compute. discriminate.
Defined.

Lemma link_tamper_detected_witness :
  Get demoBlock1 "previousHash" <> Normal (Str "0")
  /\ calculateHash (platform := browser) (setField "previousHash" (Str "0") demoBlock1)
     = Normal demoRelinkedHash
  /\ fst (validateChain (platform := browser) "s1"
            (set_blockchain (<[1:=demoRelinked]> (blockchain demo2)) demo2))
     = Normal (message (BrokenLink 1))
  /\ fst (validateChain (platform := browser) "s1"
            (set_blockchain (take 1 (blockchain demo2) ++ demoRelinked :: [Null; Null]) demo2))
     = Normal (message (BrokenLink 1)).
Proof.
  split; [vm_compute; discriminate|].
  split; [vm_compute; reflexivity|].
  apply (link_tamper_detected (platform := browser)
           ["s1"; "s1"] "s1" demo2 1 demoBlock1 (Str "0") demoRelinkedHash [Null; Null]).
  - exact demo2_built.
  - repeat constructor.
  - lia.
  - vm_compute. reflexivity.
  - vm_compute. discriminate.
  - vm_compute. reflexivity.
Defined.



Lemma import_atomic_witness :
  JSON_parse "{}" = Parsed (Obj [])
  /\ loadLedgerFromFile "{}" demo2
     = add_alert (Alert "Invalid file format: expected an array.") demo2
  /\ blockchain (loadLedgerFromFile "{}" demo2) = blockchain demo2.
Proof.
  assert (Hparse : JSON_parse "{}" = Parsed (Obj [])) by (vm_compute; reflexivity).
  split; [exact Hparse|].
  exact (proj1 (proj2 (import_atomic "{}" demo2)) (Obj []) Hparse eq_refl).
Defined.

(** A file whose text is not JSON: an alert, and the chain as before. *)
Example import_malformed :
  JSON_parse "[" = Malformed
  /\ loadLedgerFromFile "[" demo2
     = add_alert (AlertError "Error reading ledger file: " SyntaxError) demo2.
Proof. split; vm_compute; reflexivity. Qed.

Lemma demo2_exportable : List.forallb exportable (blockchain demo2) = true.
Proof. vm_compute. reflexivity. Qed.

Lemma export_import_roundtrip_witness :
  List.forallb exportable (blockchain demo2) = true
  /\ List.forallb is_json (blockchain demo2) = true
  /\ downloads (downloadLedger demo2)
     = (downloads demo2 ++ [ledgerText (blockchain demo2)])%list
  /\ exists st',
       loadLedgerFromFile (ledgerText (blockchain demo2)) initial = st'
       /\ blockchain st' = List.map dropUndefined (blockchain demo2)
       /\ (forall b f, In b (blockchain demo2) -> Get (dropUndefined b) f = Get b f)
       /\ (List.forallb is_json (blockchain demo2) = true ->
           blockchain st' = blockchain demo2).
Proof.
  split; [exact demo2_exportable|].
  split; [vm_compute; reflexivity|].
  exact (export_import_roundtrip demo2 initial demo2_exportable).
Defined.

(** C8, as stated, fails: a block whose time stamp is the number that the
    literal 1e999 denotes is exported with [null] in its place, and the
    chain read back differs from the one exported. *)
Lemma export_import_counterexample :
  blockchain demoInfinite = [Obj [("timestamp", Num (Infinite false))]]
  /\ blockchain (loadLedgerFromFile (ledgerText (blockchain demoInfinite)) demoInfinite)
     = [Obj [("timestamp", Null)]]
  /\ blockchain (loadLedgerFromFile (ledgerText (blockchain demoInfinite)) demoInfinite)
     <> blockchain demoInfinite.
Proof.
  split; [vm_compute; reflexivity|]. split; [vm_compute; reflexivity|].
  vm_compute. discriminate.
Qed.

(** Nor does the negative zero come back: its text is that of zero. *)
Example export_import_negative_zero :
  JSON_stringify (Arr [Num (Finite true 0 0)]) EmptyString = Some "[0]"
  /\ JSON_parse "[0]" = Parsed (Arr [Num (Finite false 0 0)]).
Proof. split; vm_compute; reflexivity. Qed.

(** A number that is neither comes back as it was. *)
Example export_import_number :
  JSON_parse "[0.1]" = Parsed (Arr [Num (Finite false 3602879701896397 (-55))])
  /\ is_json (Arr [Num (Finite false 3602879701896397 (-55))]) = true.
Proof. split; vm_compute; reflexivity. Qed.

(** Two records that differ by an absent and an empty description have the
    same canonical encoding and digest. *)
Lemma hash_deterministic_witness :
  canonicalText (Obj demoTransfer)
  = canonicalText (Obj (("description", Str EmptyString) :: demoTransfer))
  /\ calculateHash (platform := browser) (Obj demoTransfer)
     = calculateHash (platform := browser) (Obj (("description", Str EmptyString) :: demoTransfer)).
Proof.
  apply (proj1 (hash_deterministic (platform := browser))).
  intros f Hf. unfold hashedFields in Hf. cbn [In] in Hf.
  destruct Hf as [<-|[<-|[<-|[<-|[<-|[<-|[<-|[]]]]]]]]; reflexivity.
Defined.



(** ** The further properties on the concrete run *)

Lemma demoOps_run : runAll (platform := browser) demoOps initial = demo2.
Proof. vm_compute. reflexivity. Qed.

Lemma demoOps_noUpload : List.forallb (fun op => negb (isUpload op)) demoOps = true.
Proof. reflexivity. Qed.

Lemma demo2_valid :
  fst (validateChain (platform := browser) "s1" demo2) = Normal (message Valid).
Proof. vm_compute. reflexivity. Qed.

Lemma demoReloaded_load :
  loadLedgerFromFile (ledgerText (blockchain demo2)) initial = demoReloaded.
Proof. vm_compute. reflexivity. Qed.

Lemma demo2_strings :
  Forall (fun b => exists id owner,
            Get b "propertyID" = Normal (Str id) /\ Get b "owner" = Normal (Str owner))
         (blockchain demo2).
Proof.
  assert (H : List.map (fun b => (Get b "propertyID", Get b "owner")) (blockchain demo2)
              = [(Normal (Str "P1"), Normal (Str "Alice")); (Normal (Str "P1"), Normal (Str "Bob"))])
    by (vm_compute; reflexivity).
  destruct (blockchain demo2) as [|b0 [|b1 [|b2 chain]]]; try discriminate.
  injection H as H0 H0' H1 H1'.
  repeat constructor; eauto.
Qed.

Lemma toSign_injective_witness :
  toSign demoBlock0 "s1" = toSign demoRedescribed "s1"
  /\ (forall f, In f signedFields -> Get demoBlock0 f = Get demoRedescribed f) /\ "s1" = "s1".
Proof.
  assert (H : forall f, In f signedFields ->
                exists x, Get demoBlock0 f = Normal (Str x) /\ barFree x = true).
  { intros f Hf. cbn [signedFields In] in Hf.
    destruct Hf as [<-|[<-|[<-|[<-|[]]]]]; eexists; split; vm_compute; reflexivity. }
  assert (H' : forall f, In f signedFields ->
                 exists x, Get demoRedescribed f = Normal (Str x) /\ barFree x = true).
  { intros f Hf. cbn [signedFields In] in Hf.
    destruct Hf as [<-|[<-|[<-|[<-|[]]]]]; eexists; split; vm_compute; reflexivity. }
  assert (Heq : toSign demoBlock0 "s1" = toSign demoRedescribed "s1")
    by (vm_compute; reflexivity).
  split; [exact Heq|].
  exact (toSign_injective demoBlock0 demoRedescribed "s1" "s1" H H' Heq).
Defined.

Lemma validateChain_reads_fields_witness :
  Forall2 (fun b b' => forall g, In g readFields -> Get b' g = Get b g)
          (blockchain demo2) demoNoted
  /\ fst (validateChain (platform := browser) "s1" (set_blockchain demoNoted demo2))
     = fst (validateChain (platform := browser) "s1" demo2).
Proof.
  assert (H : Forall2 (fun b b' => forall g, In g readFields -> Get b' g = Get b g)
                      (blockchain demo2) demoNoted).
  { unfold demoNoted. apply Forall2_fmap_r, Forall_Forall2_diag, List.Forall_forall.
    intros b Hb g Hg.
    assert (Hne : "note" <> g) by (intros <-; vm_compute in Hg; intuition discriminate).
    destruct b as [| |x|x|x|elems|props]; try reflexivity.
    cbn [setField Get]. f_equal. now apply lookup_put_ne. }
  split; [exact H|].
  exact (validateChain_reads_fields (platform := browser) "s1" demo2 demoNoted H).
Defined.

Lemma validation_survives_roundtrip_witness :
  List.forallb exportable (blockchain demo2) = true
  /\ loadLedgerFromFile (ledgerText (blockchain demo2)) initial = demoReloaded
  /\ fst (validateChain (platform := browser) "s1" demoReloaded)
     = fst (validateChain (platform := browser) "s1" demo2).
Proof.
  split; [exact demo2_exportable|]. split; [exact demoReloaded_load|].
  exact (validation_survives_roundtrip (platform := browser) "s1" demo2 initial demoReloaded
           demo2_exportable demoReloaded_load).
Defined.

Lemma valid_segment_witness :
  blockchain demo2 = ([demoBlock0] ++ [demoBlock1] ++ [])%list
  /\ fst (validateChain (platform := browser) "s1" demo2) = Normal (message Valid)
  /\ fst (validateChain (platform := browser) "s1" (set_blockchain [demoBlock1] demo2))
     = Normal (message Valid).
Proof.
  assert (H : blockchain demo2 = ([demoBlock0] ++ [demoBlock1] ++ [])%list)
    by (vm_compute; reflexivity).
  split; [exact H|]. split; [exact demo2_valid|].
  apply (valid_segment (platform := browser) "s1" demo2 [demoBlock0] [demoBlock1] []);
    [exact H|discriminate|exact demo2_valid].
Defined.

Lemma failing_verdict_meaning_witness :
  fst (validateChain (platform := browser) "s1" demoMixed)
  = Normal (message (SignatureInvalid 1))
  /\ passedBefore (platform := browser) "s1" (blockchain demoMixed) 1
  /\ exists b h expected stored,
       blockchain demoMixed !! 1 = Some b
       /\ calculateHash (platform := browser) b = Normal h
       /\ Get b "currentHash" = Normal (Str h)
       /\ match previousOf (blockchain demoMixed) 1 with
          | Some p => Get b "previousHash" = Get p "currentHash"
          | None => True
          end
       /\ signRecord (platform := browser) b "s1" = Normal expected
       /\ Get b "signature" = Normal stored /\ stored <> Str expected.
Proof.
  assert (H : fst (validateChain (platform := browser) "s1" demoMixed)
              = Normal (message (SignatureInvalid 1))) by (vm_compute; reflexivity).
  split; [exact H|].
  exact (failing_verdict_meaning (platform := browser) "s1" demoMixed (SignatureInvalid 1) H).
Defined.

Lemma session_validates_witness :
  Forall (signsWith "s1") demoOps
  /\ validationResult (snd (validateChain_click (platform := browser) "s1" demo2))
     = message Valid.
Proof.
  assert (H : Forall (signsWith "s1") demoOps) by (repeat constructor).
  split; [exact H|].
  apply (session_validates (platform := browser) "s1" demoOps demo2
           demoOps_noUpload H); [discriminate|exact demoOps_run].
Defined.


Lemma single_registration_witness :
  runAll (platform := browser) demoOps initial = demo2
  /\ length (List.filter (fun b => hasId "P1" b && hasAction "Register" b) (blockchain demo2))
     <= 1.
Proof.
  split; [exact demoOps_run|].
  exact (single_registration (platform := browser) demoOps demo2 "P1"
           demoOps_noUpload demoOps_run).
Defined.

Lemma transfer_follows_registration_witness :
  blockchain demo2 = ([demoBlock0] ++ demoBlock1 :: [])%list
  /\ hasAction "Transfer" demoBlock1 = true /\ hasId "P1" demoBlock1 = true
  /\ List.existsb (fun r => hasId "P1" r && hasAction "Register" r) [demoBlock0] = true.
Proof.
  assert (H : blockchain demo2 = ([demoBlock0] ++ demoBlock1 :: [])%list)
    by (vm_compute; reflexivity).
  assert (Ha : hasAction "Transfer" demoBlock1 = true) by (vm_compute; reflexivity).
  assert (Hi : hasId "P1" demoBlock1 = true) by (vm_compute; reflexivity).
  split; [exact H|]. split; [exact Ha|]. split; [exact Hi|].
  exact (transfer_follows_registration (platform := browser) demoOps demo2
           [demoBlock0] demoBlock1 [] "P1" demoOps_noUpload demoOps_run H Ha Hi).
Defined.

Lemma updateStats_bounds_witness :
  fst (updateStats demo2) = Normal tt
  /\ statTotalProperties (snd (updateStats demo2)) + statTotalTransfers (snd (updateStats demo2))
     <= length (blockchain demo2)
  /\ statUniqueOwners (snd (updateStats demo2)) <= length (blockchain demo2)
  /\ (blockchain demo2 <> [] -> 1 <= statUniqueOwners (snd (updateStats demo2))).
Proof.
  assert (H : fst (updateStats demo2) = Normal tt) by (vm_compute; reflexivity).
  split; [exact H|]. exact (updateStats_bounds demo2 H).
Defined.

Lemma updateStats_counts_witness :
  exists ids owners,
    updateStats demo2
    = (Normal tt,
       set_stats (length ids)
                 (length (List.filter (hasAction "Transfer") (blockchain demo2)))
                 (length owners) demo2)
    /\ NoDup ids /\ NoDup owners
    /\ (forall x, In x ids <->
          exists b, In b (blockchain demo2) /\ hasAction "Register" b = true
                    /\ Get b "propertyID" = Normal (Str x))
    /\ (forall x, In x owners <->
          exists b, In b (blockchain demo2) /\ Get b "owner" = Normal (Str x)).
Proof. exact (updateStats_counts demo2 demo2_strings). Defined.

Lemma session_stats_witness :
  statTotalProperties demo2
  = length (List.filter (hasAction "Register") (blockchain demo2))
  /\ statTotalTransfers demo2
     = length (List.filter (hasAction "Transfer") (blockchain demo2))
  /\ statTotalProperties demo2 + statTotalTransfers demo2 = length (blockchain demo2).
Proof.
  exact (session_stats (platform := browser) demoOps demo2 demoOps_noUpload demoOps_run).
Defined.

Lemma register_refuses_duplicate_witness :
  registerProperty_click (platform := browser)
    "P1" "again" "Carol" "s3" "2024-01-03T00:00:00.000Z" demo2
  = (Normal tt, add_alert (Alert "Property ID already registered!") demo2).
Proof.
  apply (register_refuses_duplicate (platform := browser)); [discriminate|..];
    vm_compute; reflexivity.
Defined.

Lemma transfer_refuses_unknown_witness :
  transferProperty_click (platform := browser)
    "P2" "Carol" "gift" "s3" "2024-01-03T00:00:00.000Z" demo2
  = (Normal tt, add_alert (Alert "Property ID not found! Register it first.") demo2).
Proof.
  apply (transfer_refuses_unknown (platform := browser)); [discriminate..| |];
    vm_compute; reflexivity.
Defined.

Lemma register_appends_witness :
  exists previousHash currentHash block st',
    registerProperty_click (platform := browser)
      "P2" "Flat 3" "Carol" "s3" "2024-01-03T00:00:00.000Z" demo2 = (Normal tt, st')
    /\ tailHash (blockchain demo2) = Normal previousHash
    /\ block
       = Obj [("propertyID", Str "P2"); ("description", Str "Flat 3");
              ("owner", Str "Carol"); ("action", Str "Register");
              ("previousHash", previousHash); ("timestamp", Str "2024-01-03T00:00:00.000Z");
              ("signature",
               Str (sha256 SHA256.digest "P2|Carol|Register|2024-01-03T00:00:00.000Z|s3"));
              ("currentHash", Str currentHash)]
    /\ calculateHash (platform := browser) block = Normal currentHash
    /\ blockchain st' = (blockchain demo2 ++ [block])%list
    /\ alerts st' = (alerts demo2 ++ [Alert "Property registered and signed successfully!"])%list.
Proof.
  apply (register_appends (platform := browser)); [discriminate..| | |];
    vm_compute; reflexivity.
Defined.

Lemma transfer_appends_witness :
  exists previousHash currentHash block st',
    transferProperty_click (platform := browser)
      "P1" "Carol" "gift" "s3" "2024-01-03T00:00:00.000Z" demo2 = (Normal tt, st')
    /\ tailHash (blockchain demo2) = Normal previousHash
    /\ block
       = Obj [("propertyID", Str "P1"); ("owner", Str "Carol");
              ("action", Str "Transfer"); ("remarks", Str "gift");
              ("previousHash", previousHash); ("timestamp", Str "2024-01-03T00:00:00.000Z");
              ("signature",
               Str (sha256 SHA256.digest "P1|Carol|Transfer|2024-01-03T00:00:00.000Z|s3"));
              ("currentHash", Str currentHash)]
    /\ calculateHash (platform := browser) block = Normal currentHash
    /\ blockchain st' = (blockchain demo2 ++ [block])%list
    /\ alerts st' = (alerts demo2 ++ [Alert "Property ownership transferred and signed!"])%list.
Proof.
  apply (transfer_appends (platform := browser)); [discriminate..| | |];
    vm_compute; reflexivity.
Defined.

Lemma import_blank_witness :
  loadLedgerFromFile " " demo2
  = add_alert (AlertError "Error reading ledger file: " SyntaxError) demo2.
Proof. exact (import_blank " " demo2 eq_refl). Defined.

Lemma import_null_block_witness :
  JSON_parse "[null]" = Parsed (Arr [Null])
  /\ loadLedgerFromFile "[null]" demo2 = demoNull
  /\ blockchain demoNull = [Null]
  /\ stats demoNull = stats demo2
  /\ validationResult demoNull = validationResult demo2
  /\ exists e, alerts demoNull
               = (alerts demo2 ++ [AlertError "Error reading ledger file: " e])%list.
Proof.
  assert (Hparse : JSON_parse "[null]" = Parsed (Arr [Null])) by (vm_compute; reflexivity).
  assert (Hload : loadLedgerFromFile "[null]" demo2 = demoNull)
    by (vm_compute; reflexivity).
  split; [exact Hparse|]. split; [exact Hload|].
  exact (import_null_block "[null]" [Null] demo2 demoNull
           Hparse (or_introl eq_refl) Hload).
Defined.

Lemma null_head_stops_page_witness :
  blockchain demoNull = [Null]
  /\ registerProperty_click (platform := browser)
       "P2" "Flat 3" "Carol" "s3" "2024-01-03T00:00:00.000Z" demoNull = (Throw TypeError, demoNull)
  /\ transferProperty_click (platform := browser)
       "P2" "Carol" "gift" "s3" "2024-01-03T00:00:00.000Z" demoNull = (Throw TypeError, demoNull)
  /\ showTimeline_click "P2" demoNull = (Throw TypeError, demoNull)
  /\ validateChain_click (platform := browser) "s3" demoNull = (Throw TypeError, demoNull).
Proof.
  split; [reflexivity|].
  apply (null_head_stops_page (platform := browser) demoNull []); [reflexivity|discriminate..].
Defined.
